(** * Transcript classification pipeline of the Bainum backend

    A shallow embedding of [lib/transcriptProcessor.js] (the keyword
    taxonomy, [analyzeTranscript], [calculateScores],
    [extractKeywordSegments]) and of the scoring section shared by
    [classroomWhisperController] and [revaiController], together with
    the part of the JavaScript built-ins these functions rely on. *)

From Stdlib Require Import String Ascii ZArith QArith Qround List Sorted Bool Lia.
Import ListNotations.

Local Abbreviation length := Datatypes.length.

Local Open Scope Z_scope.

(** ** JavaScript built-ins used by the processor *)

Module JS.

(** A JavaScript string is a sequence of UTF-16 code units. *)
Abbreviation CodeUnit := Z.
Abbreviation JSString := (list Z).

(** String literals of the source; all of them are ASCII. *)
Definition str (s : string) : JSString :=
  map (fun a => Z.of_N (N_of_ascii a)) (list_ascii_of_string s).

Definition between (lo hi c : Z) : bool := (lo <=? c) && (c <=? hi).

(** WhiteSpace and LineTerminator code points of ECMAScript: the set
    used by [String.prototype.trim] and by the class escape [\s]. *)
Definition isWhiteSpace (c : CodeUnit) : bool :=
  between 9 13 c || (c =? 32) || (c =? 160) || (c =? 5760)
  || between 8192 8202 c || (c =? 8232) || (c =? 8233) || (c =? 8239)
  || (c =? 8287) || (c =? 12288) || (c =? 65279).

(** The basic word characters [A-Za-z0-9_]; without the [u] flag these
    are all the word characters [\b] knows, also under [i]. *)
Definition isWordChar (c : CodeUnit) : bool :=
  between 48 57 c || between 65 90 c || (c =? 95) || between 97 122 c.

(** [String.prototype.toLowerCase], one code unit at a time.  ASCII
    capitals go to their small letters.  Exactly two code units above
    127 have a lower-case form that contains an ASCII letter: U+212A
    KELVIN SIGN becomes [k], and U+0130 becomes [i] followed by the
    combining dot U+0307.  Every other code unit above 127 is sent by
    the Unicode tables to code units above 127 that are not white
    space; no pattern below can tell these apart (no pattern character
    is above 127), so they are left in place. *)
Definition lowerUnit (c : CodeUnit) : list CodeUnit :=
  if between 65 90 c then [c + 32]
  else if c =? 8490 then [107]
  else if c =? 304 then [105; 775]
  else [c].

Definition toLowerCase (s : JSString) : JSString := flat_map lowerUnit s.

(** [Canonicalize] of the regular-expression semantics for the [i]
    flag without the [u] flag: the code unit is upper-cased, except
    that a code unit of 128 or more is never mapped below 128.  The
    patterns below contain ASCII characters only, so only the ASCII
    part of the upper-case table is observable. *)
Definition Canonicalize (c : CodeUnit) : CodeUnit :=
  if between 97 122 c then c - 32 else c.

Fixpoint trimStart (s : JSString) : JSString :=
  match s with
  | [] => []
  | c :: r => if isWhiteSpace c then trimStart r else s
  end.

Definition trim (s : JSString) : JSString :=
  rev (trimStart (rev (trimStart s))).

(** [s.includes(' ')] and friends, for a one-unit needle. *)
Definition includes (s : JSString) (c : CodeUnit) : bool :=
  existsb (Z.eqb c) s.

Definition substring (s : JSString) (i e : nat) : JSString :=
  firstn (e - i) (skipn i s).

Fixpoint eqb (a b : JSString) : bool :=
  match a, b with
  | [], [] => true
  | x :: a', y :: b' => (x =? y) && eqb a' b'
  | _, _ => false
  end.

(** The values a caller may hand to the processor. *)
Inductive Value :=
| VUndefined
| VNull
| VBoolean (b : bool)
| VNumber (n : Z)
| VString (s : JSString)
| VObject.

(** ToBoolean.  [VNumber] stands for the integral numbers. *)
Definition truthy (v : Value) : bool :=
  match v with
  | VUndefined | VNull => false
  | VBoolean b => b
  | VNumber n => negb (n =? 0)
  | VString s => match s with [] => false | _ => true end
  | VObject => true
  end.

Definition isString (v : Value) : bool :=
  match v with VString _ => true | _ => false end.

(** [Math.round]: the nearest integer, ties towards plus infinity. *)
Definition Math_round (x : Q) : Z := Qfloor (x + (1 # 2))%Q.

End JS.

(** ** The fragment of regular expressions the processor builds

    Every pattern is made by [new RegExp(source, 'gi')] from a source
    of the shape [\b ... \b], where the dots are a keyword in which
    white-space runs may have been replaced by [\s+]. *)

Module RegExp.
Import JS.

Inductive Atom :=
| Char (c : CodeUnit)      (* a pattern character or an identity escape *)
| Space.                   (* the class escape \s *)

Inductive Term :=
| Boundary                 (* the assertion \b *)
| One (a : Atom)
| Plus (a : Atom).         (* a greedy a+ *)

Definition Pattern := list Term.

(** SyntaxCharacter of the grammar. *)
Definition isSyntaxChar (c : CodeUnit) : bool :=
  (c =? 94) || (c =? 36) || (c =? 92) || (c =? 46) || (c =? 42)
  || (c =? 43) || (c =? 63) || (c =? 40) || (c =? 41) || (c =? 91)
  || (c =? 93) || (c =? 123) || (c =? 125) || (c =? 124).

Inductive Token :=
| TBoundary
| TAtom (a : Atom)
| TPlus.

(** Reading of a pattern source.  [None] marks a source outside the
    fragment: another escape, an unescaped syntax character other than
    a [+] quantifier, or a character above 127. *)
Fixpoint tokens (src : JSString) : option (list Token) :=
  match src with
  | [] => Some []
  | c :: r =>
    if c =? 92 then
      match r with
      | [] => None
      | e :: r' =>
        if e =? 98 then option_map (cons TBoundary) (tokens r')
        else if e =? 115 then option_map (cons (TAtom Space)) (tokens r')
        else if isSyntaxChar e || (e =? 47)
             then option_map (cons (TAtom (Char e))) (tokens r')
        else None
      end
    else if c =? 43 then option_map (cons TPlus) (tokens r)
    else if isSyntaxChar c || (127 <? c) || (c <? 0) then None
    else option_map (cons (TAtom (Char c))) (tokens r)
  end.

Fixpoint terms (ts : list Token) : option Pattern :=
  match ts with
  | [] => Some []
  | TBoundary :: r => option_map (cons Boundary) (terms r)
  | TAtom a :: TPlus :: r => option_map (cons (Plus a)) (terms r)
  | TAtom a :: r => option_map (cons (One a)) (terms r)
  | TPlus :: _ => None
  end.

Definition parse (src : JSString) : option Pattern :=
  match tokens src with
  | Some ts => terms ts
  | None => None
  end.

(** Matching under the flags [gi]. *)
Definition atomMatches (a : Atom) (x : CodeUnit) : bool :=
  match a with
  | Char c => Canonicalize x =? Canonicalize c
  | Space => isWhiteSpace x
  end.

Definition isWordAt (o : option CodeUnit) : bool :=
  match o with
  | Some c => isWordChar c
  | None => false
  end.

(** [\b] holds between [prev] and [next] when exactly one side is a
    word character; outside the input counts as not a word character. *)
Definition atBoundary (prev next : option CodeUnit) : bool :=
  xorb (isWordAt prev) (isWordAt next).

(** Greedy iteration of an atom in front of the continuation [k]: take
    one more code unit if the rest then matches, else hand over. *)
Fixpoint greedy (a : Atom) (k : option CodeUnit -> JSString -> option nat)
    (prev : option CodeUnit) (s : JSString) {struct s} : option nat :=
  match s with
  | x :: s' =>
    if atomMatches a x then
      match greedy a k (Some x) s' with
      | Some n => Some (S n)
      | None => k prev s
      end
    else k prev s
  | [] => k prev s
  end.

(** The backtracking matcher: [matchTerms p prev s] is the number of
    code units of [s] consumed by the first successful way to match
    [p] at the start of [s], [prev] being the code unit before it. *)
Fixpoint matchTerms (p : Pattern) : option CodeUnit -> JSString -> option nat :=
  match p with
  | [] => fun _ _ => Some O
  | Boundary :: p' => fun prev s =>
      if atBoundary prev (hd_error s) then matchTerms p' prev s else None
  | One a :: p' => fun prev s =>
      match s with
      | x :: s' =>
        if atomMatches a x then option_map S (matchTerms p' (Some x) s')
        else None
      | [] => None
      end
  | Plus a :: p' => fun prev s =>
      match s with
      | x :: s' =>
        if atomMatches a x
        then option_map S (greedy a (matchTerms p') (Some x) s')
        else None
      | [] => None
      end
  end.

(** A match: index of its first code unit and index after its last. *)
Definition Match := (nat * nat)%type.

(** The search of RegExpBuiltinExec from position [idx], whose suffix
    is [s]: the first position at or after [idx] where the pattern
    matches. *)
Fixpoint search (p : Pattern) (prev : option CodeUnit) (s : JSString)
    (idx : nat) : option Match :=
  match matchTerms p prev s with
  | Some n => Some (idx, (idx + n)%nat)
  | None =>
    match s with
    | [] => None
    | x :: s' => search p (Some x) s' (S idx)
    end
  end.

Definition unitBefore (s : JSString) (i : nat) : option CodeUnit :=
  match i with
  | O => None
  | S j => nth_error s j
  end.

(** [pattern.exec(input)] for a global pattern whose [lastIndex] is
    [lastIndex]: the match found, if any, and the new [lastIndex]. *)
Definition exec (p : Pattern) (input : JSString) (lastIndex : nat)
    : option Match * nat :=
  if (length input <? lastIndex)%nat then (None, O)
  else
    match search p (unitBefore input lastIndex) (skipn lastIndex input) lastIndex with
    | Some (i, e) => (Some (i, e), e)
    | None => (None, O)
    end.

(** [input.match(pattern)] for a global pattern: all matches from left
    to right, each search resuming where the last match ended, one
    code unit further after an empty match.  [skip] counts the code
    units of the last match that are still to be passed. *)
Fixpoint scan (p : Pattern) (prev : option CodeUnit) (s : JSString)
    (idx skip : nat) : list Match :=
  match skip with
  | S k =>
    match s with
    | [] => []
    | x :: s' => scan p (Some x) s' (S idx) k
    end
  | O =>
    match matchTerms p prev s with
    | Some n =>
      (idx, (idx + n)%nat) ::
      match s with
      | [] => []
      | x :: s' => scan p (Some x) s' (S idx) (pred n)
      end
    | None =>
      match s with
      | [] => []
      | x :: s' => scan p (Some x) s' (S idx) O
      end
    end
  end.

Definition matchAll (p : Pattern) (input : JSString) : list Match :=
  scan p None input O O.

End RegExp.

(** ** lib/transcriptProcessor.js *)

Module TranscriptProcessor.
Import JS RegExp.

Inductive Category := science | social | literature | language.

Definition Category_eqb (a b : Category) : bool :=
  match a, b with
  | science, science | social, social
  | literature, literature | language, language => true
  | _, _ => false
  end.

(** [Object.keys(KEYWORDS)], in insertion order. *)
Definition categories : list Category :=
  [science; social; literature; language].

Definition KEYWORDS (category : Category) : list JSString :=
  map str
  match category with
  | science => [
      "experiment"; "hypothesis"; "observe"; "predict"; "measure"; "test"; "data"; "result";
      "science"; "scientist"; "discover"; "investigate"; "analyze"; "research"; "study";
      "evidence"; "theory"; "fact"; "prove"; "conclusion"; "question"; "answer"; "why";
      "how"; "what"; "when"; "where"; "because"; "reason"; "cause"; "effect"; "change";
      "grow"; "plant"; "animal"; "nature"; "weather"; "water"; "air"; "earth"; "space";
      "star"; "planet"; "moon"; "sun"; "light"; "dark"; "hot"; "cold"; "big"; "small";
      "heavy"; "light"; "fast"; "slow"; "up"; "down"; "inside"; "outside"; "color";
      "shape"; "size"; "number"; "count"; "more"; "less"; "same"; "different"
    ]%string
  | social => [
      "friend"; "share"; "help"; "together"; "feelings"; "happy"; "sad"; "angry"; "excited";
      "scared"; "worried"; "proud"; "sorry"; "thank"; "please"; "welcome"; "hello"; "goodbye";
      "play"; "game"; "fun"; "laugh"; "smile"; "cry"; "hug"; "love"; "care"; "kind";
      "nice"; "mean"; "fair"; "unfair"; "right"; "wrong"; "good"; "bad"; "yes"; "no";
      "maybe"; "okay"; "sure"; "family"; "mom"; "dad"; "parent"; "brother"; "sister";
      "baby"; "child"; "people"; "person"; "group"; "team"; "class"; "school"; "teacher";
      "student"; "learn"; "teach"; "listen"; "talk"; "say"; "tell"; "ask"; "answer";
      "understand"; "know"; "think"; "remember"; "forget"; "want"; "need"; "like"; "dislike"
    ]%string
  | literature => [
      "story"; "character"; "beginning"; "ending"; "imagine"; "pretend"; "make-believe";
      "fairy tale"; "tale"; "book"; "read"; "page"; "chapter"; "title"; "author"; "writer";
      "write"; "draw"; "picture"; "illustration"; "drawing"; "art"; "create"; "make";
      "once upon a time"; "once"; "long ago"; "happily ever after"; "the end"; "begin";
      "start"; "finish"; "end"; "first"; "last"; "next"; "then"; "after"; "before";
      "prince"; "princess"; "king"; "queen"; "castle"; "dragon"; "magic"; "wizard";
      "witch"; "fairy"; "giant"; "dwarf"; "hero"; "villain"; "adventure"; "journey";
      "travel"; "visit"; "go"; "come"; "arrive"; "leave"; "return"; "home"; "place";
      "where"; "there"; "here"; "far"; "near"; "find"; "lose"; "search"; "look"; "see";
      "watch"; "show"; "hide"; "appear"; "disappear"; "magic"; "wish"; "dream"; "hope"
    ]%string
  | language => [
      "word"; "sentence"; "speak"; "listen"; "communicate"; "talk"; "say"; "tell";
      "speech"; "language"; "voice"; "sound"; "noise"; "quiet"; "loud"; "soft";
      "whisper"; "shout"; "yell"; "call"; "name"; "label"; "describe"; "explain";
      "mean"; "meaning"; "understand"; "comprehend"; "know"; "learn"; "teach";
      "question"; "ask"; "answer"; "reply"; "respond"; "conversation"; "discuss";
      "chat"; "talk"; "speak"; "say"; "tell"; "speech"; "pronounce"; "pronunciation";
      "letter"; "alphabet"; "read"; "write"; "spell"; "spelling"; "grammar"; "noun";
      "verb"; "adjective"; "sentence"; "phrase"; "paragraph"; "story"; "book";
      "dictionary"; "vocabulary"; "word"; "term"; "expression"; "idiom"; "phrase"
    ]%string
  end.

Record CategoryCounts := mkCounts {
  count_science : Z;
  count_social : Z;
  count_literature : Z;
  count_language : Z
}.

Definition zeroCounts : CategoryCounts := mkCounts 0 0 0 0.

(** [counts[category]] and [counts[category] += n]. *)
Definition getCount (category : Category) (counts : CategoryCounts) : Z :=
  match category with
  | science => count_science counts
  | social => count_social counts
  | literature => count_literature counts
  | language => count_language counts
  end.

Definition addCount (category : Category) (n : Z) (counts : CategoryCounts)
    : CategoryCounts :=
  match category with
  | science => mkCounts (count_science counts + n) (count_social counts)
                        (count_literature counts) (count_language counts)
  | social => mkCounts (count_science counts) (count_social counts + n)
                       (count_literature counts) (count_language counts)
  | literature => mkCounts (count_science counts) (count_social counts)
                           (count_literature counts + n) (count_language counts)
  | language => mkCounts (count_science counts) (count_social counts)
                         (count_literature counts) (count_language counts + n)
  end.

(** [list.forEach(body)] over a state the body updates; [None] once a
    body has no result. *)
Fixpoint forEach {A St : Type} (l : list A) (body : A -> St -> option St)
    (st : St) : option St :=
  match l with
  | [] => Some st
  | a :: r =>
    match body a st with
    | Some st' => forEach r body st'
    | None => None
    end
  end.

(** [keyword.replace(/\s+/g, '\\s+')]: every maximal white-space run
    becomes the three characters [\s+]. *)
Fixpoint replaceSpaceRuns (inRun : bool) (s : JSString) : JSString :=
  match s with
  | [] => []
  | c :: r =>
    if isWhiteSpace c
    then (if inRun then [] else [92; 115; 43]) ++ replaceSpaceRuns true r
    else c :: replaceSpaceRuns false r
  end.

(** [keyword.replace(/[.*+?^${}()|[\]\\]/g, '\\$&')]. *)
Definition isEscaped (c : CodeUnit) : bool :=
  (c =? 46) || (c =? 42) || (c =? 43) || (c =? 63) || (c =? 94)
  || (c =? 36) || (c =? 123) || (c =? 125) || (c =? 40) || (c =? 41)
  || (c =? 124) || (c =? 91) || (c =? 93) || (c =? 92).

Definition escapeKeyword (keyword : JSString) : JSString :=
  flat_map (fun c => if isEscaped c then [92; c] else [c]) keyword.

(** The template [`\\b${body}\\b`]. *)
Definition bounded (body : JSString) : JSString :=
  [92; 98] ++ body ++ [92; 98].

(** The source handed to [new RegExp(_, 'gi')] by [analyzeTranscript]. *)
Definition countSource (keyword : JSString) : JSString :=
  if includes keyword 32
  then bounded (replaceSpaceRuns false keyword)
  else bounded keyword.

(** The source handed to [new RegExp(_, 'gi')] by
    [extractKeywordSegments]. *)
Definition locateSource (keyword : JSString) : JSString :=
  let escapedKeyword := escapeKeyword keyword in
  if includes keyword 32
  then bounded (replaceSpaceRuns false escapedKeyword)
  else bounded escapedKeyword.

(** The body of the inner [forEach] of [analyzeTranscript]. *)
Definition countKeyword (lowerTranscript : JSString) (category : Category)
    (keyword : JSString) (counts : CategoryCounts) : option CategoryCounts :=
  match parse (countSource keyword) with
  | Some regex =>
    let matches := matchAll regex lowerTranscript in
    Some (addCount category (Z.of_nat (length matches)) counts)
  | None => None
  end.

(** [None]: a keyword whose pattern lies outside the fragment of
    [RegExp.parse] (no entry of [KEYWORDS] does). *)
Definition analyzeTranscript (transcript : Value) : option CategoryCounts :=
  match transcript with
  | VString t =>
    if negb (truthy transcript) || (length (trim t) =? 0)%nat
    then Some zeroCounts
    else
      let lowerTranscript := toLowerCase t in
      forEach categories (fun category =>
        forEach (KEYWORDS category) (countKeyword lowerTranscript category))
        zeroCounts
  | _ => Some zeroCounts
  end.

Record Scores := mkScores {
  scienceTalk : Z;
  socialTalk : Z;
  literatureTalk : Z;
  languageDevelopment : Z
}.

Definition maxPerCategory : Z := 20.

(** One line of [calculateScores].  The quotient and the product are
    taken exactly; on a count that is a natural number the doubles of
    the source give the same score, their error being far below the
    half that [Math.round] decides on as long as the score is under
    100. *)
Definition scoreOf (count : Z) : Z :=
  Z.min 100
    (Math_round ((inject_Z count / inject_Z maxPerCategory) * inject_Z 100)%Q).

Definition calculateScores (counts : CategoryCounts) : Scores :=
  {| scienceTalk := scoreOf (count_science counts);
     socialTalk := scoreOf (count_social counts);
     literatureTalk := scoreOf (count_literature counts);
     languageDevelopment := scoreOf (count_language counts) |}.

Record Segment := mkSegment {
  text : JSString;
  category : Category;
  startIndex : nat;
  endIndex : nat
}.

Definition segmentOf (transcript : JSString) (category : Category)
    (m : Match) : Segment :=
  {| text := substring transcript (fst m) (snd m);
     category := category;
     startIndex := fst m;
     endIndex := snd m |}.

(** [while ((match = pattern.exec(transcript)) !== null) segments.push(..)].
    [fuel] bounds the number of calls of [exec]; [None] when it is used
    up. *)
Fixpoint execLoop (fuel : nat) (pattern : Pattern) (transcript : JSString)
    (category : Category) (lastIndex : nat) (segments : list Segment)
    : option (list Segment) :=
  match fuel with
  | O => None
  | S fuel' =>
    match exec pattern transcript lastIndex with
    | (Some m, lastIndex') =>
      execLoop fuel' pattern transcript category lastIndex'
               (segments ++ [segmentOf transcript category m])
    | (None, _) => Some segments
    end
  end.

(** The body of the inner [forEach] of [extractKeywordSegments].  A
    loop that ends makes at most one call of [exec] per code unit and
    a last one returning [null] (a match that consumes nothing leaves
    [lastIndex] in place and is found again for ever), so the fuel
    given here is used up exactly when the loop does not end. *)
Definition locateKeyword (transcript : JSString) (category : Category)
    (keyword : JSString) (segments : list Segment) : option (list Segment) :=
  match parse (locateSource keyword) with
  | Some pattern =>
    execLoop (S (length transcript)) pattern transcript category O segments
  | None => None
  end.

(** [None]: a loop that does not end, or a pattern outside the
    fragment of [RegExp.parse]. *)
Definition extractKeywordSegments (transcript : Value) : option (list Segment) :=
  match transcript with
  | VString t =>
    if negb (truthy transcript) || (length (trim t) =? 0)%nat
    then Some []
    else
      forEach categories (fun category =>
        forEach (KEYWORDS category) (locateKeyword t category))
        []
  | _ => Some []
  end.

End TranscriptProcessor.

(** ** The scoring section of the two upload controllers

    [classroomWhisperController] and [revaiController] are alike from
    the line that receives the transcript up to the response; what
    comes before (authorisation, the upload, the transcription
    service) and the identifiers, file names and dates copied into the
    response are left out here.  [lib/ragClassifier.js] and
    [lib/hybridScorer.js] are collaborators: the classifier either
    returns scores and segments or throws an [Error], the scorer is a
    function of the two score objects and its calls do not throw.
    (What becomes of a rejection that is not an [Error] is part of
    the handlers as a whole, further down.) *)

Module Controllers.
Import JS RegExp TranscriptProcessor.

Record Error := mkError { message : JSString }.

Inductive ClassificationMethod := KeywordOnly | Hybrid.

Definition methodTag (m : ClassificationMethod) : JSString :=
  match m with
  | KeywordOnly => str "keyword-only"
  | Hybrid => str "hybrid"
  end.

(** What a run does, in order. *)
Inductive Event :=
| EAnalyze                      (* analyzeTranscript was called *)
| ECalculate                    (* calculateScores was called *)
| EClassify (t : JSString)      (* ragClassifier.classifyWithSegments(t) *)
| ECombine                      (* hybridScorer.combineScores *)
| EGetWeights                   (* hybridScorer.getWeights, for the child's log line *)
| EConsoleError (m : JSString)  (* console.error in the catch block *)
| EExtract.                     (* extractKeywordSegments was called *)

(** A computation that logs its events; [None]: it has no result. *)
Definition Run (A : Type) : Type := option (A * list Event).

Definition ret {A : Type} (a : A) : Run A := Some (a, []).

Definition bind {A B : Type} (m : Run A) (k : A -> Run B) : Run B :=
  match m with
  | Some (a, l) =>
    match k a with
    | Some (b, l') => Some (b, l ++ l')
    | None => None
    end
  | None => None
  end.

Definition emit (e : Event) : Run unit := Some (tt, [e]).

Definition call {A : Type} (e : Event) (r : option A) : Run A :=
  bind (emit e) (fun _ => option_map (fun a => (a, [])) r).

Declare Scope run_scope.
Delimit Scope run_scope with run.
Notation "x <- m ;; k" := (bind m (fun x => k))
  (at level 61, m at next level, right associativity) : run_scope.
Notation "m ;;; k" := (bind m (fun _ => k))
  (at level 61, right associativity) : run_scope.

(** [ToBoolean]: whether a value counts as true in a condition. *)
Class ToBoolean (A : Type) := toBoolean : A -> bool.

(** An object is truthy. *)
#[global]
Instance Scores_ToBoolean : ToBoolean Scores := fun _ => true.

Section Pipeline.

Variable RagScores : Type.
Variable RagSegment : Type.

(** The truthiness of whatever the classifier brings as [scores]. *)
Context {truthyScores : ToBoolean RagScores}.

(** The object [classifyWithSegments] resolves to. *)
Record RagResult := mkRagResult {
  scores : RagScores;
  segments : option (list RagSegment)   (* [None]: a falsy [segments] *)
}.

Inductive Outcome :=
| Returns (r : RagResult)
| Throws (e : Error).

Variable classifyWithSegments : JSString -> Outcome.
Variable combineScores : RagScores -> Scores -> Scores.

(** An element of the array [ragSegments]. *)
Inductive SegmentObject :=
| FromClassifier (r : RagSegment)
| FromKeywords (s : Segment).

(** The locals the section assigns to. *)
Record Locals := mkLocals {
  ragScores : option RagScores;                (* [None]: null *)
  ragSegments : option (list SegmentObject);   (* [None]: null *)
  finalScores : Scores
}.

Record AssessmentData := mkAssessment {
  a_transcript : JSString;
  a_scienceTalk : Z;
  a_socialTalk : Z;
  a_literatureTalk : Z;
  a_languageDevelopment : Z;
  a_keywordCounts : CategoryCounts;
  a_ragScores : option RagScores;              (* [None]: no such field *)
  a_ragSegments : option (list SegmentObject); (* [None]: no such field *)
  a_classificationMethod : ClassificationMethod
}.

Record Response := mkResponse {
  r_assessment : AssessmentData;
  r_transcript : option JSString;
  r_keywordCounts : CategoryCounts;
  r_scores : Scores;
  r_keywordScores : option Scores;             (* [None]: no such field *)
  r_ragScores : option RagScores;
  r_ragSegments : list SegmentObject;
  r_classificationMethod : ClassificationMethod
}.

(** [process.env.RAG_ENABLED?.toString().toLowerCase().trim() === 'true'] *)
Definition ragEnabledOf (RAG_ENABLED : option JSString) : bool :=
  match RAG_ENABLED with
  | Some v => JS.eqb (trim (toLowerCase v)) (str "true")
  | None => false
  end.

(** [transcript || ""], the transcript being a string or nullish. *)
Definition orEmpty (transcript : option JSString) : JSString :=
  match transcript with
  | Some t => t
  | None => []
  end.

(** [transcript && transcript.trim().length > 0] *)
Definition nonBlank (transcript : option JSString) : bool :=
  match transcript with
  | Some t => truthy (VString t) && (0 <? length (trim t))%nat
  | None => false
  end.

Local Open Scope run_scope.

(** [ragScores || null], and the test [if (ragScores)]. *)
Definition orNull (ragScores : option RagScores) : option RagScores :=
  match ragScores with
  | Some rs => if toBoolean rs then Some rs else None
  | None => None
  end.

(** The [try] block and its [catch]; [resetScores] tells whether the
    handler also assigns [finalScores = keywordScores], [logsWeights]
    whether the [try] block goes on to log [hybridScorer.getWeights()],
    as the child controller does. *)
Definition tryClassify (resetScores logsWeights : bool) (t : JSString)
    (keywordScores : Scores) (st : Locals) : Run Locals :=
  emit (EClassify t) ;;;
  match classifyWithSegments t with
  | Returns ragResult =>
    let st := mkLocals (Some (scores ragResult)) (ragSegments st) (finalScores st) in
    let st := mkLocals (ragScores st)
                (Some (map FromClassifier
                         (match segments ragResult with
                          | Some l => l
                          | None => []
                          end)))
                (finalScores st) in
    emit ECombine ;;;
    let st := mkLocals (ragScores st) (ragSegments st)
                (combineScores (scores ragResult) keywordScores) in
    (if logsWeights then emit EGetWeights else ret tt) ;;;
    ret st
  | Throws ragError =>
    emit (EConsoleError (message ragError)) ;;;
    ret (mkLocals None None
           (if resetScores then keywordScores else finalScores st))
  end.

(** [if (!ragSegments || ragSegments.length === 0)
       ragSegments = extractKeywordSegments(transcript || "")] *)
Definition resolveSegments (transcript : option JSString) (st : Locals)
    : Run (list SegmentObject) :=
  match ragSegments st with
  | Some (x :: l) => ret (x :: l)
  | _ =>
    l <- call EExtract (extractKeywordSegments (VString (orEmpty transcript))) ;;
    ret (map FromKeywords l)
  end.

Definition assessmentOf (transcript : option JSString)
    (keywordCounts : CategoryCounts) (st : Locals)
    (ragSegments' : list SegmentObject) : AssessmentData :=
  let a :=
    mkAssessment (orEmpty transcript)
      (scienceTalk (finalScores st)) (socialTalk (finalScores st))
      (literatureTalk (finalScores st)) (languageDevelopment (finalScores st))
      keywordCounts None None KeywordOnly in
  let a :=
    match orNull (ragScores st) with
    | Some rs =>
      mkAssessment (a_transcript a) (a_scienceTalk a) (a_socialTalk a)
        (a_literatureTalk a) (a_languageDevelopment a) (a_keywordCounts a)
        (Some rs) (Some ragSegments') Hybrid
    | None => a
    end in
  match ragSegments' with
  | _ :: _ =>
    mkAssessment (a_transcript a) (a_scienceTalk a) (a_socialTalk a)
      (a_literatureTalk a) (a_languageDevelopment a) (a_keywordCounts a)
      (a_ragScores a) (Some ragSegments') (a_classificationMethod a)
  | [] => a
  end.

Definition scoringSection (resetScores logsWeights withKeywordScores : bool)
    (RAG_ENABLED : option JSString) (transcript : option JSString)
    : Run Response :=
  keywordCounts <- call EAnalyze (analyzeTranscript (VString (orEmpty transcript))) ;;
  keywordScores <- call ECalculate (Some (calculateScores keywordCounts)) ;;
  let st := mkLocals None None keywordScores in
  let ragEnabled := ragEnabledOf RAG_ENABLED in
  st <- (if ragEnabled && nonBlank transcript
         then tryClassify resetScores logsWeights (orEmpty transcript)
                keywordScores st
         else ret st) ;;
  ragSegments' <- resolveSegments transcript st ;;
  let assessmentData := assessmentOf transcript keywordCounts st ragSegments' in
  ret (mkResponse assessmentData transcript keywordCounts (finalScores st)
         (if withKeywordScores then Some keywordScores else None)
         (orNull (ragScores st)) ragSegments'
         (a_classificationMethod assessmentData)).

(** controllers/classroomWhisperController.js, lines 71 to 146. *)
Definition classroomWhisperController := scoringSection false false false.

(** The child-recording controller (revaiController), lines 98 to 227:
    its handler also restores [finalScores], its [try] block also
    logs the weights of the scorer, and its response also carries
    [keywordScores].  (A nullish transcript does not get this far
    there: line 89 reads [transcript.length].) *)
Definition revaiController := scoringSection true true true.

End Pipeline.

End Controllers.

(** ** Notions used to state the properties *)

Module Props.
Import JS RegExp TranscriptProcessor.

(** A pattern that cannot match without consuming a code unit. *)
Definition consumes (p : Pattern) : bool :=
  existsb (fun t => match t with Boundary => false | _ => true end) p.

(** The pattern opens with [\b] and a word character, and closes
    with a word character and [\b]. *)
Definition startsWord (p : Pattern) : bool :=
  match p with
  | Boundary :: One (Char c) :: _ => isWordChar c
  | _ => false
  end.

Definition endsWord (p : Pattern) : bool :=
  match rev p with
  | Boundary :: One (Char c) :: _ => isWordChar c
  | _ => false
  end.


(** Code units, or their absence, equal up to letter case. *)
Definition sameUnit (o o' : option CodeUnit) : Prop :=
  match o, o' with
  | Some x, Some y => Canonicalize x = Canonicalize y
  | None, None => True
  | _, _ => False
  end.


(** The search of [input] resumed at position [i]. *)
Definition searchAt (p : Pattern) (input : JSString) (i : nat) : option Match :=
  search p (unitBefore input i) (skipn i input) i.

(** A match of [p] in [input]: it lies inside the input, is not empty,
    and the matcher accepts exactly these code units there. *)
Definition isMatchOf (p : Pattern) (input : JSString) (m : Match) : Prop :=
  (fst m < snd m)%nat /\ (snd m <= length input)%nat
  /\ matchTerms p (unitBefore input (fst m)) (skipn (fst m) input)
     = Some (snd m - fst m)%nat.

(** Matches in the order of the input, none overlapping the next. *)
Definition inOrder (l : list Match) : Prop :=
  StronglySorted (fun m m' => (snd m <= fst m')%nat) l.

(** The scan of [input] resumed at position [i]. *)
Definition scanAt (p : Pattern) (input : JSString) (i skip : nat) : list Match :=
  scan p (unitBefore input i) (skipn i input) i skip.

(** The pattern [extractKeywordSegments] builds for a keyword. *)
Definition keywordPattern (keyword : JSString) : Pattern :=
  match parse (locateSource keyword) with
  | Some p => p
  | None => []
  end.

(** The places where a keyword is found in a string. *)
Definition occurrences (keyword input : JSString) : list Match :=
  matchAll (keywordPattern keyword) input.

(** Two code units that are equal up to the case of an ASCII letter. *)
Definition sameLetter (x y : CodeUnit) : Prop :=
  Canonicalize x = Canonicalize y.




Definition isBlank (t : JSString) : bool := forallb isWhiteSpace t.

(** Inputs that are not a string, or a string of white space only. *)
Definition blankInput (v : Value) : bool :=
  match v with
  | VString t => isBlank t
  | _ => true
  end.

(** The normalisation policy in the words of the specification:
    [min(100, round(count / K * 100))]. *)
Definition normalizePolicy (K count : Z) : Z :=
  Z.min 100 (Math_round (inject_Z count / inject_Z K * inject_Z 100)%Q).

(** A CategoryCounts of the data model: no count is negative. *)
Definition validCounts (counts : CategoryCounts) : Prop :=
  forall c, 0 <= getCount c counts.

(** The score field that belongs to a category. *)
Definition getScore (c : Category) (s : Scores) : Z :=
  match c with
  | science => scienceTalk s
  | social => socialTalk s
  | literature => literatureTalk s
  | language => languageDevelopment s
  end.

Definition sumZ (l : list Z) : Z := fold_right Z.add 0 l.


Definition rank (c : Category) : nat :=
  match c with
  | science => 0
  | social => 1
  | literature => 2
  | language => 3
  end.

Definition Segment_eqb (a b : Segment) : bool :=
  JS.eqb (text a) (text b) && Category_eqb (category a) (category b)
  && (startIndex a =? startIndex b)%nat && (endIndex a =? endIndex b)%nat.

(** Everything the tables must satisfy for a keyword; checked by
    evaluation on [KEYWORDS]. *)
Definition keywordChecks (keyword : JSString) : bool :=
  JS.eqb (escapeKeyword keyword) keyword
  && match parse (locateSource keyword) with
     | Some p => consumes p && startsWord p && endsWord p
     | None => false
     end.

Definition allKeywords : list JSString := flat_map KEYWORDS categories.

(** The pattern terms of a run of literal characters. *)
Definition letters (word : JSString) : Pattern :=
  map (fun c => One (Char c)) word.

(** How many entries of a category's list are a given keyword. *)
Definition entries (c : Category) (keyword : JSString) : nat :=
  length (filter (JS.eqb keyword) (KEYWORDS c)).

(** The segments of a list that carry a given category. *)
Definition segmentsIn (c : Category) (segs : list Segment) : list Segment :=
  filter (fun s => Category_eqb (category s) c) segs.

(** A string on which [toLowerCase] brings in no ASCII letter that
    was not there: it holds neither U+212A nor U+0130. *)
Definition plainCase (t : JSString) : bool :=
  forallb (fun c => negb (c =? 8490) && negb (c =? 304)) t.

Definition plainInput (v : Value) : bool :=
  match v with
  | VString t => plainCase t
  | _ => true
  end.

(** The number of matches the keywords of one category have in a
    string, every entry of the list counted for itself. *)
Definition keywordTotal (c : Category) (input : JSString) : Z :=
  sumZ (map (fun keyword => Z.of_nat (length (occurrences keyword input)))
            (KEYWORDS c)).

Definition countsOf (input : JSString) : CategoryCounts :=
  mkCounts (keywordTotal science input) (keywordTotal social input)
           (keywordTotal literature input) (keywordTotal language input).

(** The segments of one keyword, of one category, and of all. *)
Definition keywordSegments (t : JSString) (c : Category) (keyword : JSString)
    : list Segment :=
  map (segmentOf t c) (occurrences keyword t).

Definition categorySegments (t : JSString) (c : Category) : list Segment :=
  flat_map (keywordSegments t c) (KEYWORDS c).

Definition segmentsOf (t : JSString) : list Segment :=
  flat_map (categorySegments t) categories.

End Props.

(** ** Notions used to state the properties of the controllers *)

Module PipelineProps.
Import JS RegExp TranscriptProcessor Controllers Props.

Section Expected.

Variable RagScores : Type.
Variable RagSegment : Type.
Context {truthyScores : ToBoolean RagScores}.
Variable classifyWithSegments : JSString -> Outcome RagScores RagSegment.
Variable combineScores : RagScores -> Scores -> Scores.

(** The semantic step is due: it is enabled and the transcript is not
    blank. *)
Definition semanticDue (RAG_ENABLED transcript : option JSString) : bool :=
  ragEnabledOf RAG_ENABLED && nonBlank transcript.

(** The semantic step ran, returned, and brought the non-empty list of
    segments [l]. *)
Definition semanticSegments (RAG_ENABLED transcript : option JSString)
    (l : list RagSegment) : Prop :=
  semanticDue RAG_ENABLED transcript = true
  /\ l <> []
  /\ exists r, classifyWithSegments (orEmpty transcript) = Returns _ _ r
               /\ segments _ _ r = Some l.

(** The response of a run that stays with the keywords. *)
Definition lexicalResponse (withKeywordScores : bool)
    (transcript : option JSString) : Response RagScores RagSegment :=
  let counts := countsOf (toLowerCase (orEmpty transcript)) in
  let keywordScores := calculateScores counts in
  let segs := map (FromKeywords RagSegment) (segmentsOf (orEmpty transcript)) in
  mkResponse _ _
    (assessmentOf _ _ transcript counts (mkLocals _ _ None None keywordScores) segs)
    transcript counts keywordScores
    (if withKeywordScores then Some keywordScores else None)
    None segs KeywordOnly.

(** The response of a run whose semantic step returned [r]. *)
Definition hybridResponse (withKeywordScores : bool)
    (transcript : option JSString) (r : RagResult RagScores RagSegment)
    : Response RagScores RagSegment :=
  let counts := countsOf (toLowerCase (orEmpty transcript)) in
  let keywordScores := calculateScores counts in
  let final := combineScores (scores _ _ r) keywordScores in
  let fromRag :=
    map (@FromClassifier RagSegment)
        (match segments _ _ r with Some l => l | None => [] end) in
  let segs :=
    match fromRag with
    | _ :: _ => fromRag
    | [] => map (FromKeywords RagSegment) (segmentsOf (orEmpty transcript))
    end in
  mkResponse _ _
    (assessmentOf _ _ transcript counts
       (mkLocals _ _ (Some (scores _ _ r)) (Some fromRag) final) segs)
    transcript counts final
    (if withKeywordScores then Some keywordScores else None)
    (orNull _ (Some (scores _ _ r))) segs
    (if toBoolean (scores _ _ r) then Hybrid else KeywordOnly).

(** A run ended with the keyword scores, tagged keyword-only. *)
Definition endsKeywordOnly (run : Run (Response RagScores RagSegment))
    (transcript : option JSString) : Prop :=
  exists resp log counts,
    run = Some (resp, log)
    /\ analyzeTranscript (VString (orEmpty transcript)) = Some counts
    /\ r_keywordCounts _ _ resp = counts
    /\ r_scores _ _ resp = calculateScores counts
    /\ a_scienceTalk _ _ (r_assessment _ _ resp) = scienceTalk (calculateScores counts)
    /\ a_socialTalk _ _ (r_assessment _ _ resp) = socialTalk (calculateScores counts)
    /\ a_literatureTalk _ _ (r_assessment _ _ resp)
       = literatureTalk (calculateScores counts)
    /\ a_languageDevelopment _ _ (r_assessment _ _ resp)
       = languageDevelopment (calculateScores counts)
    /\ r_ragScores _ _ resp = None
    /\ r_classificationMethod _ _ resp = KeywordOnly
    /\ a_classificationMethod _ _ (r_assessment _ _ resp) = KeywordOnly
    /\ ~ In ECombine log.

(** A run counted and scored first, and ran the semantic step exactly
    when it was due; when it was not due the run stayed with the
    keywords. *)
Definition gatesSemanticStep (run : Run (Response RagScores RagSegment))
    (RAG_ENABLED transcript : option JSString) : Prop :=
  exists resp log counts,
    run = Some (resp, log)
    /\ analyzeTranscript (VString (orEmpty transcript)) = Some counts
    /\ r_keywordCounts _ _ resp = counts
    /\ (exists rest, log = EAnalyze :: ECalculate :: rest)
    /\ (forall t, In (EClassify t) log <->
                  semanticDue RAG_ENABLED transcript = true
                  /\ t = orEmpty transcript)
    /\ (In ECombine log ->
        semanticDue RAG_ENABLED transcript = true
        /\ exists r, classifyWithSegments (orEmpty transcript) = Returns _ _ r)
    /\ (semanticDue RAG_ENABLED transcript = false ->
        log = [EAnalyze; ECalculate; EExtract]
        /\ r_scores _ _ resp = calculateScores counts
        /\ r_ragScores _ _ resp = None
        /\ r_classificationMethod _ _ resp = KeywordOnly).

(** The segments of a run are those of the semantic step if it brought
    any, and those of [extractKeywordSegments] otherwise. *)
Definition resolvesSegments (run : Run (Response RagScores RagSegment))
    (RAG_ENABLED transcript : option JSString) : Prop :=
  exists resp log lexical,
    run = Some (resp, log)
    /\ extractKeywordSegments (VString (orEmpty transcript)) = Some lexical
    /\ (forall l, semanticSegments RAG_ENABLED transcript l ->
          r_ragSegments _ _ resp = map (@FromClassifier RagSegment) l
          /\ ~ In EExtract log)
    /\ ((forall l, ~ semanticSegments RAG_ENABLED transcript l) ->
          r_ragSegments _ _ resp = map (FromKeywords RagSegment) lexical
          /\ In EExtract log)
    /\ a_ragSegments _ _ (r_assessment _ _ resp) =
       match r_ragSegments _ _ resp, r_ragScores _ _ resp with
       | [], None => None
       | _, _ => Some (r_ragSegments _ _ resp)
       end.

End Expected.

End PipelineProps.

(** ** The two upload handlers as a whole

    What the controllers do around the scoring section: who may
    upload, what is required of the request, the call of the
    transcription service, the removal of the uploaded file, and the
    response, if any, also when something throws.  The request has
    passed the upload and authentication middleware ([req.body] and
    [req.user] are there), [Teacher.findById] rejects with Error
    objects only, [revai.getConfig] returns an object and
    [revai.transcribeFromFile], where it resolves, resolves to one,
    and a transcript is a string, null or undefined.  What the
    transcription, the health check of the service or the classifier
    rejects with is an object with a string [message], a value whose [message] is undefined, or null
    or undefined; [new ObjectId] does not throw on an id that
    [ObjectId.isValid] accepts.  Left out are the console output, the
    dates and the stack trace added to a failure in development
    mode. *)

Module Handlers.
Import JS RegExp TranscriptProcessor Controllers.

(** [s.startsWith(sub)] and [s.includes(sub)]. *)
Fixpoint startsWith (s sub : JSString) : bool :=
  match sub, s with
  | [], _ => true
  | y :: sub', x :: s' => (x =? y) && startsWith s' sub'
  | _ :: _, [] => false
  end.

Fixpoint includesString (s sub : JSString) : bool :=
  startsWith s sub
  || match s with
     | [] => false
     | _ :: s' => includesString s' sub
     end.

(** A form field or a property that is a string or missing; the empty
    string is falsy like a missing one. *)
Definition given (field : option JSString) : bool :=
  match field with
  | Some (_ :: _) => true
  | _ => false
  end.

(** [field || fallback] *)
Definition orElse (field : option JSString) (fallback : JSString) : JSString :=
  match field with
  | Some (x :: l) => x :: l
  | _ => fallback
  end.

(** [req.file], as the upload middleware leaves it. *)
Record File := mkFile {
  path : JSString;
  filename : JSString;
  mimetype : JSString
}.

(** [req.user], as the authentication middleware leaves it. *)
Record User := mkUser {
  u_role : JSString;
  u_id : JSString;
  u_name : option JSString
}.

Record ClassroomRequest := mkClassroomRequest {
  c_user : User;
  c_teacherId : option JSString;     (* req.body.teacherId *)
  c_center : option JSString;        (* req.body.center *)
  c_file : option File
}.

Record ChildRequest := mkChildRequest {
  k_childId : option JSString;       (* req.body.childId *)
  k_uploadedBy : option JSString;    (* req.body.uploadedBy *)
  k_file : option File
}.

(** A teacher document; only its [center] is read. *)
Record Teacher := mkTeacher { t_center : option JSString }.

Inductive FindOutcome :=
| Found (teacher : Teacher)
| NotFound                           (* resolves to null *)
| FindThrows (e : Error).

(** What a [throw] or a rejected promise hands to a [catch] block. *)
Inductive Thrown :=
| AnError (e : Error)   (* a value whose [message] is a string, as an Error object *)
| Messageless           (* another value but null and undefined: its [message] is undefined *)
| Nullish.              (* null or undefined: reading its [message] throws *)

Definition legible (v : Thrown) : bool :=
  match v with
  | AnError _ => true
  | _ => false
  end.

(** [revai.transcribeFromFile] followed by [revai.getTranscript]. *)
Inductive Transcription :=
| Transcribed (transcript : option JSString)
| TranscribeThrows (v : Thrown).

(** [revai.isHealthy], which the child controller awaits in a [try]
    block of its own. *)
Inductive Health :=
| Healthy (ok : bool)
| HealthThrows (v : Thrown).

(** The [catch] block of the health check reads the message of what
    it caught, for [console.warn]; null and undefined have none to
    read, and the TypeError leaves the block. *)
Definition unreadableHealth (h : Health) : bool :=
  match h with
  | HealthThrows Nullish => true
  | _ => false
  end.

(** The files on disk. *)
Definition FS := list JSString.

(** [fs.existsSync]; there is no file with the empty path, so that
    [filePath && fs.existsSync(filePath)] is [existsSync] too. *)
Definition existsSync (fs : FS) (p : JSString) : bool :=
  match p with
  | [] => false
  | _ :: _ => existsb (JS.eqb p) fs
  end.

Definition removed (fs : FS) (p : JSString) : FS :=
  filter (fun q => negb (JS.eqb p q)) fs.

(** What a handler does besides answering. *)
Inductive Step :=
| SFindById (id : JSString)
| SGetConfig
| SIsHealthy
| STranscribe (f : File)
| SScoring (log : list Event)
| SUnlink (p : JSString).

(** The owner of an assessment: an id as it came, or the ObjectId made
    of it. *)
Inductive Owner :=
| ObjectId (id : JSString)
| Plain (id : JSString).

(** The body of a response: a failure message, or the processed
    upload with the fields the handler adds to the scoring result. *)
Inductive Payload (R : Type) :=
| Failure (message : JSString)
| Processed (owner : Owner) (audioFileName : JSString)
            (uploadedBy : JSString) (center : option JSString) (result : R).

Arguments Failure {R} message.
Arguments Processed {R} owner audioFileName uploadedBy center result.

Record HttpResponse (R : Type) := mkHttp {
  status : Z;
  payload : Payload R
}.

Arguments mkHttp {R} status payload.
Arguments status {R} h.
Arguments payload {R} h.

(** The message tests of the [catch] block of
    [classroomWhisperController], on an error with a message. *)
Definition classroomFailure {R : Type} (error : Error) : HttpResponse R :=
  let m := message error in
  if includesString m (str "unreachable") || includesString m (str "ECONNREFUSED")
  then mkHttp 503 (Failure (str
    "RevAI service is not reachable. Please check your internet connection and API key."))
  else if includesString m (str "timeout")
  then mkHttp 504 (Failure (str "Audio transcription timed out."))
  else mkHttp 500 (Failure (orElse (Some m) (str "Failed to process audio"))).

(** The message tests of the [catch] block of the child controller. *)
Definition childFailure {R : Type} (error : Error) : HttpResponse R :=
  let m := message error in
  if includesString m (str "unreachable") || includesString m (str "ECONNREFUSED")
  then mkHttp 503 (Failure (str
    "RevAI service is not reachable. Please check your internet connection and API key."))
  else if includesString m (str "timeout") || includesString m (str "timed out")
  then mkHttp 504 (Failure (str
    "Audio transcription timed out. The audio file may be too long or the service is overloaded."))
  else if includesString m (str "not found")
  then mkHttp 404 (Failure (str "Audio file not found on server."))
  else if includesString m (str "API error") || includesString m (str "RevAI")
  then mkHttp 502 (Failure (str "RevAI API error: " ++ m))
  else if includesString m (str "API key")
  then mkHttp 401 (Failure (str
    "RevAI API key is required. Please set REVAI_API_KEY environment variable."))
  else mkHttp 500 (Failure (orElse (Some m)
    (str "Failed to process audio. Check server logs for details."))).

Section Upload.

Variable RagScores : Type.
Variable RagSegment : Type.
Context {truthyScores : ToBoolean RagScores}.

(** What the classifier does when it is called: it returns, or it
    rejects with whatever value. *)
Inductive Classified :=
| CReturns (r : RagResult RagScores RagSegment)
| CThrows (v : Thrown).

Variable classify : JSString -> Classified.
Variable combineScores : RagScores -> Scores -> Scores.

(** [process.env.RAG_ENABLED], [Teacher.findById], the transcription
    service, whether [fs.unlinkSync] throws on a path, and
    [mongoose.Types.ObjectId.isValid]. *)
Variable RAG_ENABLED : option JSString.
Variable findById : JSString -> FindOutcome.
Variable transcribeFromFile : File -> Transcription.
Variable unlinkThrows : JSString -> bool.
Variable isValid : JSString -> bool.

(** The message of the TypeError raised by reading the named property
    of the value at hand, null or undefined.  Its wording is the
    engine's; a request reads each of the two properties, [message]
    and [length], of at most one such value. *)
Variable cannotRead : JSString -> JSString.

(** What the health check of the service does when the child
    controller awaits it. *)
Variable isHealthy : Health.

Definition Reply : Type := option (HttpResponse (Response RagScores RagSegment)).

(** The response, if one was sent, the disk, and what was done. *)
Definition Answer : Type := (Reply * FS * list Step)%type.

(** [if (fs.existsSync(filePath)) { try { fs.unlinkSync(filePath) } catch {} }] *)
Definition cleanUp (fs : FS) (filePath : JSString) : FS * list Step :=
  if existsSync fs filePath
  then (if unlinkThrows filePath then fs else removed fs filePath,
        [SUnlink filePath])
  else (fs, []).

(** The [catch] block of [classroomWhisperController], [filePath]
    being set: it removes the upload and then reads the message of
    what was caught.  Where that is not a string,
    [error.message.includes] throws and no response is sent. *)
Definition classroomCatch (error : Thrown) (filePath : JSString) (fs : FS)
    : Answer :=
  let (fs', cleaned) := cleanUp fs filePath in
  (match error with
   | AnError e => Some (classroomFailure e)
   | _ => None
   end, fs', cleaned).

(** The [catch] block of the child controller: it reads the message
    first and removes the upload after that. *)
Definition childCatch (error : Thrown) (filePath : JSString) (fs : FS)
    : Answer :=
  match error with
  | AnError e =>
    let (fs', cleaned) := cleanUp fs filePath in
    (Some (childFailure e), fs', cleaned)
  | _ => (None, fs, [])
  end.

(** The role check of [classroomWhisperController]: the teacher the
    upload is for, or the response that ends the request.  When
    [findById] throws, the [catch] block finds [filePath] null. *)
Definition decideTeacher (req : ClassroomRequest)
    : (JSString + HttpResponse (Response RagScores RagSegment)) * list Step :=
  let user := c_user req in
  if JS.eqb (u_role user) (str "teacher") then (inl (u_id user), [])
  else if JS.eqb (u_role user) (str "admin") then
    if negb (given (c_teacherId req))
    then (inr (mkHttp 400 (Failure (str "Teacher ID is required for admin uploads"))), [])
    else
      let teacherId := orEmpty (c_teacherId req) in
      match findById teacherId with
      | FindThrows error => (inr (classroomFailure error), [SFindById teacherId])
      | NotFound =>
        (inr (mkHttp 404 (Failure (str "Teacher not found"))), [SFindById teacherId])
      | Found teacher =>
        if given (c_center req)
           && negb match t_center teacher with
                   | Some c => JS.eqb c (orEmpty (c_center req))
                   | None => false
                   end
        then (inr (mkHttp 400 (Failure (str
                "Selected teacher does not belong to the chosen center"))),
              [SFindById teacherId])
        else (inl teacherId, [SFindById teacherId])
      end
  else (inr (mkHttp 403 (Failure (str
          "Only teachers and admins can upload classroom recordings"))), []).

(** [mongoose.Types.ObjectId.isValid(teacherId)
       ? new mongoose.Types.ObjectId(teacherId) : teacherId] *)
Definition asObjectId (teacherId : JSString) : Owner :=
  if isValid teacherId then ObjectId teacherId else Plain teacherId.

(** What the scoring section sees of the classifier.  Of a rejection
    it reads the message, for [console.error], which prints
    [undefined] where there is none. *)
Definition seen (t : JSString) : Outcome RagScores RagSegment :=
  match classify t with
  | CReturns r => Returns _ _ r
  | CThrows (AnError e) => Throws _ _ e
  | CThrows _ => Throws _ _ (mkError (str "undefined"))
  end.

(** The classifier is called and rejects with null or undefined. *)
Definition unreadable (transcript : option JSString) : bool :=
  ragEnabledOf RAG_ENABLED && nonBlank transcript
  && match classify (orEmpty transcript) with
     | CThrows Nullish => true
     | _ => false
     end.

(** The scoring section inside the [try] block of a handler.  [inr]:
    the classifier rejected with null or undefined, so that reading
    [ragError.message] in the section's own [catch] block throws a
    TypeError, which leaves the section. *)
Definition scoreTranscript
    (section : (JSString -> Outcome RagScores RagSegment) ->
               (RagScores -> Scores -> Scores) ->
               option JSString -> option JSString ->
               Run (Response RagScores RagSegment))
    (transcript : option JSString)
    : Run (Response RagScores RagSegment + Error) :=
  if unreadable transcript
  then Some (inr (mkError (cannotRead (str "message"))),
             [EAnalyze; ECalculate; EClassify (orEmpty transcript)])
  else
    match section seen combineScores RAG_ENABLED transcript with
    | Some (result, log) => Some (inl result, log)
    | None => None
    end.

(** controllers/classroomWhisperController.js, the whole handler.
    [None]: the scoring section has no result. *)
Definition classroomWhisperUpload (req : ClassroomRequest) (fs : FS)
    : option Answer :=
  match decideTeacher req with
  | (inr response, steps) => Some (Some response, fs, steps)
  | (inl teacherId, steps) =>
    match c_file req with
    | None =>
      Some (Some (mkHttp 400 (Failure (str
              "Audio file is required. Please select an audio file to upload."))),
            fs, steps)
    | Some file =>
      let filePath := path file in
      let uploadedBy := orElse (u_name (c_user req)) (str "Unknown") in
      if negb (existsSync fs filePath)
      then Some (Some (mkHttp 500 (Failure (str "Uploaded file not found on server"))),
                 fs, steps)
      else
        match transcribeFromFile file with
        | TranscribeThrows error =>
          match classroomCatch error filePath fs with
          | (reply, fs', cleaned) =>
            Some (reply, fs', steps ++ [SGetConfig; STranscribe file] ++ cleaned)
          end
        | Transcribed transcript =>
          match scoreTranscript (classroomWhisperController RagScores RagSegment)
                  transcript with
          | Some (inl result, log) =>
            let (fs', cleaned) := cleanUp fs filePath in
            Some (Some (mkHttp 200
                          (Processed (asObjectId teacherId) (filename file)
                             uploadedBy
                             (if given (c_center req) then c_center req else None)
                             result)),
                  fs',
                  steps ++ [SGetConfig; STranscribe file; SScoring log] ++ cleaned)
          | Some (inr error, log) =>
            match classroomCatch (AnError error) filePath fs with
            | (reply, fs', cleaned) =>
              Some (reply, fs',
                    steps ++ [SGetConfig; STranscribe file; SScoring log]
                    ++ cleaned)
            end
          | None => None
          end
        end
    end
  end.

(** The child controller (revaiController), the whole handler. *)
Definition revaiUpload (req : ChildRequest) (fs : FS) : option Answer :=
  if negb (given (k_childId req))
  then Some (Some (mkHttp 400 (Failure (str "Child ID is required"))), fs, [])
  else
    match k_file req with
    | None =>
      Some (Some (mkHttp 400 (Failure (str
              "Audio file is required. Please select an audio file to upload."))),
            fs, [])
    | Some file =>
      let filePath := path file in
      if negb (existsSync fs filePath)
      then Some (Some (mkHttp 500 (Failure (str "Uploaded file not found on server"))),
                 fs, [])
      else if unreadableHealth isHealthy
      then
        match childCatch (AnError (mkError (cannotRead (str "message"))))
                filePath fs with
        | (reply, fs', cleaned) =>
          Some (reply, fs', [SGetConfig; SIsHealthy] ++ cleaned)
        end
      else
        match transcribeFromFile file with
        | TranscribeThrows error =>
          match childCatch error filePath fs with
          | (reply, fs', cleaned) =>
            Some (reply, fs',
                  [SGetConfig; SIsHealthy; STranscribe file] ++ cleaned)
          end
        | Transcribed None =>
          match childCatch (AnError (mkError (cannotRead (str "length"))))
                  filePath fs with
          | (reply, fs', cleaned) =>
            Some (reply, fs',
                  [SGetConfig; SIsHealthy; STranscribe file] ++ cleaned)
          end
        | Transcribed (Some t) =>
          match scoreTranscript (revaiController RagScores RagSegment)
                  (Some t) with
          | Some (inl result, log) =>
            let (fs', cleaned) := cleanUp fs filePath in
            Some (Some (mkHttp 200
                          (Processed (Plain (orEmpty (k_childId req)))
                             (filename file)
                             (orElse (k_uploadedBy req) (str "Unknown"))
                             None result)),
                  fs',
                  [SGetConfig; SIsHealthy; STranscribe file; SScoring log]
                  ++ cleaned)
          | Some (inr error, log) =>
            match childCatch (AnError error) filePath fs with
            | (reply, fs', cleaned) =>
              Some (reply, fs',
                    [SGetConfig; SIsHealthy; STranscribe file; SScoring log]
                    ++ cleaned)
            end
          | None => None
          end
        end
    end.

End Upload.

End Handlers.

(** ** Notions used to state the properties of the handlers *)

Module HandlerProps.
Import JS RegExp TranscriptProcessor Controllers Handlers.

Section Expected.

Variable findById : JSString -> FindOutcome.
Variable transcribeFromFile : File -> Transcription.

(** Who gets past the role check of the classroom handler: a teacher,
    or an admin who names an existing teacher, of the chosen center if
    a center is chosen. *)
Definition mayUpload (req : ClassroomRequest) : Prop :=
  u_role (c_user req) = str "teacher"
  \/ (u_role (c_user req) = str "admin"
      /\ given (c_teacherId req) = true
      /\ exists teacher,
           findById (orEmpty (c_teacherId req)) = Found teacher
           /\ (given (c_center req) = true ->
               t_center teacher = c_center req)).

(** The teacher an accepted classroom upload is for. *)
Definition ownerOf (req : ClassroomRequest) : JSString :=
  if JS.eqb (u_role (c_user req)) (str "teacher")
  then u_id (c_user req)
  else orEmpty (c_teacherId req).

(** The upload is there and the service transcribed it. *)
Definition transcribed (file : option File) (fs : FS)
    (transcript : option JSString) : Prop :=
  exists f,
    file = Some f /\ existsSync fs (path f) = true
    /\ transcribeFromFile f = Transcribed transcript.

(** The upload is there and the service rejected with a value that
    has no string message. *)
Definition rejectedIllegibly (file : option File) (fs : FS) : Prop :=
  exists f v,
    file = Some f /\ existsSync fs (path f) = true
    /\ transcribeFromFile f = TranscribeThrows v
    /\ legible v = false.

End Expected.

(** An answer is a result with status 200, or a failure with one of
    the given statuses and a message that is not empty. *)
Definition wellFormed {R : Type} (failures : list Z) (h : HttpResponse R) : Prop :=
  match payload h with
  | Processed _ _ _ _ _ => status h = 200
  | Failure m => In (status h) failures /\ m <> []
  end.

(** The only thing done was to look a teacher up, if anything. *)
Definition onlyLooksUp (id : JSString) (steps : list Step) : Prop :=
  forall s, In s steps -> s = SFindById id.

(** What a handler leaves on disk: it only ever removes the uploaded
    file, it does so whenever it got as far as the transcription
    (unless [unlinkSync] throws), and not before. *)
Definition tidiesUp (unlinkThrows : JSString -> bool) (file : option File)
    (fs fs' : FS) (steps : list Step) : Prop :=
  (forall q, In q fs' -> In q fs)
  /\ (forall f, In (STranscribe f) steps ->
        file = Some f
        /\ (unlinkThrows (path f) = false -> existsSync fs' (path f) = false)
        /\ (forall q, q <> path f -> In q fs -> In q fs'))
  /\ ((forall f, ~ In (STranscribe f) steps) -> fs' = fs).

(** What the child handler leaves on disk: it only ever removes the
    uploaded file; it does so whenever it got as far as the health
    check of the service and sends an answer (unless [unlinkSync]
    throws); the upload stays where no answer is sent, and where the
    handler did not get that far.  The file it has transcribed, if
    any, is the upload. *)
Definition tidiesUpIfAnswered {A : Type} (unlinkThrows : JSString -> bool)
    (file : option File) (fs fs' : FS) (reply : option A)
    (steps : list Step) : Prop :=
  (forall q, In q fs' -> In q fs)
  /\ (In SIsHealthy steps ->
      exists f,
        file = Some f
        /\ (reply <> None -> unlinkThrows (path f) = false ->
            existsSync fs' (path f) = false)
        /\ (forall q, q <> path f -> In q fs -> In q fs'))
  /\ (forall f, In (STranscribe f) steps -> file = Some f /\ In SIsHealthy steps)
  /\ (reply = None -> fs' = fs)
  /\ (~ In SIsHealthy steps -> fs' = fs).

(** The health check does not reject with null or undefined. *)
Definition healthRead (isHealthy : Health) : Prop :=
  isHealthy <> HealthThrows Nullish.

(** The semantic step is due and the classifier rejects with null or
    undefined. *)
Definition rejectsNullish {RagScores RagSegment : Type}
    (classify : JSString -> Classified RagScores RagSegment)
    (RAG_ENABLED transcript : option JSString) : Prop :=
  ragEnabledOf RAG_ENABLED = true /\ nonBlank transcript = true
  /\ classify (orEmpty transcript) = CThrows _ _ Nullish.

(** models/TeacherAssessment.js: the bounds of the four score fields
    and the values of [classificationMethod]. *)
Definition scoreMin : Z := 0.
Definition scoreMax : Z := 100.
Definition classificationMethodEnum : list JSString :=
  [str "keyword-only"; str "hybrid"].

Definition scoresInBounds (s : Scores) : Prop :=
  scoreMin <= scienceTalk s <= scoreMax
  /\ scoreMin <= socialTalk s <= scoreMax
  /\ scoreMin <= literatureTalk s <= scoreMax
  /\ scoreMin <= languageDevelopment s <= scoreMax.

(** The validators of the schema an assessment of the controllers has
    to pass: [min] and [max] of the scores, [enum] of the method. *)
Definition passesSchema {RagScores RagSegment : Type}
    (a : AssessmentData RagScores RagSegment) : Prop :=
  scoreMin <= a_scienceTalk _ _ a <= scoreMax
  /\ scoreMin <= a_socialTalk _ _ a <= scoreMax
  /\ scoreMin <= a_literatureTalk _ _ a <= scoreMax
  /\ scoreMin <= a_languageDevelopment _ _ a <= scoreMax
  /\ In (methodTag (a_classificationMethod _ _ a)) classificationMethodEnum.

End HandlerProps.

(** ** Further notions: the response as a whole *)

Module ResponseProps.
Import JS RegExp TranscriptProcessor Controllers Props PipelineProps.

Section Expected.

Variable RagScores : Type.
Variable RagSegment : Type.
Context {truthyScores : ToBoolean RagScores}.
Variable classifyWithSegments : JSString -> Outcome RagScores RagSegment.
Variable combineScores : RagScores -> Scores -> Scores.

(** The method tag of a run tells what happened: it is [hybrid]
    exactly when the semantic step was due, the classifier returned
    and the scores it brought are truthy, which is exactly when
    semantic scores are attached.  The scorer was called exactly when
    the step was due and the classifier returned, whatever the scores;
    the scores of the response are then its combination with the
    keyword scores, and the keyword scores otherwise.  The weights are
    only asked for after the scorer was called. *)
Definition tagsWhatHappened (run : Run (Response RagScores RagSegment))
    (RAG_ENABLED transcript : option JSString) : Prop :=
  exists resp log counts,
    run = Some (resp, log)
    /\ analyzeTranscript (VString (orEmpty transcript)) = Some counts
    /\ r_keywordCounts _ _ resp = counts
    /\ (r_classificationMethod _ _ resp = Hybrid <->
        semanticDue RAG_ENABLED transcript = true
        /\ exists r, classifyWithSegments (orEmpty transcript) = Returns _ _ r
                     /\ toBoolean (scores _ _ r) = true)
    /\ (r_classificationMethod _ _ resp = Hybrid <->
        r_ragScores _ _ resp <> None)
    /\ (In ECombine log <->
        semanticDue RAG_ENABLED transcript = true
        /\ exists r, classifyWithSegments (orEmpty transcript) = Returns _ _ r)
    /\ (In EGetWeights log -> In ECombine log)
    /\ (forall r,
          semanticDue RAG_ENABLED transcript = true ->
          classifyWithSegments (orEmpty transcript) = Returns _ _ r ->
          r_ragScores _ _ resp
          = (if toBoolean (scores _ _ r) then Some (scores _ _ r) else None)
          /\ r_scores _ _ resp
             = combineScores (scores _ _ r) (calculateScores counts))
    /\ (~ In ECombine log -> r_scores _ _ resp = calculateScores counts).

(** The assessment inside a response repeats the response. *)
Definition assessmentAgrees (run : Run (Response RagScores RagSegment))
    (transcript : option JSString) : Prop :=
  exists resp log,
    run = Some (resp, log)
    /\ r_transcript _ _ resp = transcript
    /\ a_transcript _ _ (r_assessment _ _ resp) = orEmpty transcript
    /\ a_scienceTalk _ _ (r_assessment _ _ resp) = scienceTalk (r_scores _ _ resp)
    /\ a_socialTalk _ _ (r_assessment _ _ resp) = socialTalk (r_scores _ _ resp)
    /\ a_literatureTalk _ _ (r_assessment _ _ resp)
       = literatureTalk (r_scores _ _ resp)
    /\ a_languageDevelopment _ _ (r_assessment _ _ resp)
       = languageDevelopment (r_scores _ _ resp)
    /\ a_keywordCounts _ _ (r_assessment _ _ resp) = r_keywordCounts _ _ resp
    /\ a_ragScores _ _ (r_assessment _ _ resp) = r_ragScores _ _ resp
    /\ a_classificationMethod _ _ (r_assessment _ _ resp)
       = r_classificationMethod _ _ resp
    /\ (forall segs, a_ragSegments _ _ (r_assessment _ _ resp) = Some segs ->
          segs = r_ragSegments _ _ resp).

End Expected.

End ResponseProps.

(** ** Further notions: keywords and the text of their matches *)

Module KeywordProps.
Import JS RegExp TranscriptProcessor Props.

Definition isASCII (s : JSString) : bool := forallb (between 0 127) s.

(** The tokens and the terms a keyword stands for when each of its
    characters is taken literally and each white-space run as [\s+]. *)
Fixpoint kwTokens (inRun : bool) (keyword : JSString) : list Token :=
  match keyword with
  | [] => []
  | c :: r =>
    if isWhiteSpace c
    then (if inRun then [] else [TAtom Space; TPlus]) ++ kwTokens true r
    else TAtom (Char c) :: kwTokens false r
  end.

Fixpoint kwTerms (inRun : bool) (keyword : JSString) : Pattern :=
  match keyword with
  | [] => []
  | c :: r =>
    if isWhiteSpace c
    then (if inRun then [] else [Plus Space]) ++ kwTerms true r
    else One (Char c) :: kwTerms false r
  end.

(** The pattern of a keyword read literally: as a phrase when it holds
    a space, character by character otherwise. *)
Definition literalPattern (keyword : JSString) : Pattern :=
  Boundary ::
  (if includes keyword 32 then kwTerms false keyword else letters keyword)
  ++ [Boundary].

Definition startsWithPlus (ts : list Token) : bool :=
  match ts with
  | TPlus :: _ => true
  | _ => false
  end.

(** The shape of the strings a pattern matches, assertions aside. *)
Inductive Spells : Pattern -> JSString -> Prop :=
| spells_nil : Spells [] []
| spells_boundary p txt : Spells p txt -> Spells (Boundary :: p) txt
| spells_one a x p txt :
    atomMatches a x = true -> Spells p txt -> Spells (One a :: p) (x :: txt)
| spells_plus a x run p txt :
    atomMatches a x = true -> forallb (atomMatches a) run = true ->
    Spells p txt -> Spells (Plus a :: p) (x :: run ++ txt).

(** A text with every white-space run made one space. *)
Fixpoint collapseSpaces (inRun : bool) (s : JSString) : JSString :=
  match s with
  | [] => []
  | c :: r =>
    if isWhiteSpace c
    then (if inRun then [] else [32]) ++ collapseSpaces true r
    else c :: collapseSpaces false r
  end.

(** A segment's text as the keyword would be written. *)
Definition normalText (s : JSString) : JSString :=
  collapseSpaces false (toLowerCase s).

Definition tableChecks (keyword : JSString) : bool :=
  isASCII keyword
  && (includes keyword 32 || forallb (fun c => negb (isWhiteSpace c)) keyword)
  && JS.eqb (normalText keyword) keyword.

End KeywordProps.

(** ** Code units *)

Import JS RegExp TranscriptProcessor Controllers Props PipelineProps ResponseProps
  KeywordProps Handlers HandlerProps.

Lemma between_iff lo hi c : between lo hi c = true <-> lo <= c <= hi.
Proof.
  unfold between. rewrite andb_true_iff, !Z.leb_le. tauto.
Qed.

Lemma isWordChar_iff c :
  isWordChar c = true <->
  48 <= c <= 57 \/ 65 <= c <= 90 \/ c = 95 \/ 97 <= c <= 122.
Proof.
  unfold isWordChar.
  rewrite !orb_true_iff, !between_iff, Z.eqb_eq. tauto.
Qed.

Lemma isWhiteSpace_iff c :
  isWhiteSpace c = true <->
  9 <= c <= 13 \/ c = 32 \/ c = 160 \/ c = 5760 \/ 8192 <= c <= 8202
  \/ c = 8232 \/ c = 8233 \/ c = 8239 \/ c = 8287 \/ c = 12288 \/ c = 65279.
Proof.
  unfold isWhiteSpace.
  rewrite !orb_true_iff, !between_iff, !Z.eqb_eq. tauto.
Qed.

Lemma bool_eq_iff (a b : bool) : (a = true <-> b = true) -> a = b.
Proof. destruct a, b; intuition congruence. Qed.

Lemma Canonicalize_cases c :
  (97 <= c <= 122 /\ Canonicalize c = c - 32)
  \/ (~ 97 <= c <= 122 /\ Canonicalize c = c).
Proof.
  unfold Canonicalize. destruct (between 97 122 c) eqn:E.
  - apply between_iff in E. left. split; [lia | reflexivity].
  - right. split; [| reflexivity]. intro H. apply between_iff in H. congruence.
Qed.

Lemma sameLetter_cases x y :
  sameLetter x y ->
  x = y \/ (65 <= x <= 90 /\ y = x + 32) \/ (97 <= x <= 122 /\ y = x - 32).
Proof.
  unfold sameLetter. intros H.
  destruct (Canonicalize_cases x) as [[Hx Ex] | [Hx Ex]],
           (Canonicalize_cases y) as [[Hy Ey] | [Hy Ey]]; lia.
Qed.

Lemma sameLetter_word x y : sameLetter x y -> isWordChar x = isWordChar y.
Proof.
  intros H. apply bool_eq_iff. rewrite !isWordChar_iff.
  apply sameLetter_cases in H. lia.
Qed.

Lemma sameLetter_space x y : sameLetter x y -> isWhiteSpace x = isWhiteSpace y.
Proof.
  intros H. apply bool_eq_iff. rewrite !isWhiteSpace_iff.
  apply sameLetter_cases in H. lia.
Qed.

Lemma sameLetter_atom a x y : sameLetter x y -> atomMatches a x = atomMatches a y.
Proof.
  intros H. destruct a as [c |]; simpl.
  - unfold sameLetter in H. now rewrite H.
  - now apply sameLetter_space.
Qed.

Lemma space_not_word c : isWhiteSpace c = true -> isWordChar c = false.
Proof.
  intros H. destruct (isWordChar c) eqn:E; [| reflexivity].
  apply isWhiteSpace_iff in H. apply isWordChar_iff in E. lia.
Qed.

Lemma between_spec lo hi c : reflect (lo <= c <= hi) (between lo hi c).
Proof.
  apply iff_reflect. symmetry. apply between_iff.
Qed.


(** ** The matcher *)

Section Matcher.

Implicit Types (p : Pattern) (a : Atom) (s : JSString) (prev : option CodeUnit).

Lemma greedy_le a k :
  (forall prev s n, k prev s = Some n -> (n <= length s)%nat) ->
  forall s prev n, greedy a k prev s = Some n -> (n <= length s)%nat.
Proof.
  intros Hk. induction s as [| x s IH]; intros prev n H; simpl in H.
  - now apply Hk in H.
  - destruct (atomMatches a x).
    + destruct (greedy a k (Some x) s) as [m |] eqn:E.
      * injection H as <-. apply IH in E. simpl. lia.
      * now apply Hk in H.
    + now apply Hk in H.
Qed.

Lemma matchTerms_le p :
  forall prev s n, matchTerms p prev s = Some n -> (n <= length s)%nat.
Proof.
  induction p as [| t p IH]; intros prev s n H; simpl in H.
  - injection H as <-. lia.
  - destruct t as [| a | a].
    + destruct (atBoundary prev (hd_error s)); [eauto | discriminate].
    + destruct s as [| x s]; [discriminate |].
      destruct (atomMatches a x); [| discriminate].
      destruct (matchTerms p (Some x) s) as [m |] eqn:E; [| discriminate].
      injection H as <-. apply IH in E. simpl. lia.
    + destruct s as [| x s]; [discriminate |].
      destruct (atomMatches a x); [| discriminate].
      destruct (greedy a (matchTerms p) (Some x) s) as [m |] eqn:E;
        [| discriminate].
      injection H as <-. apply (greedy_le a _ IH) in E. simpl. lia.
Qed.

Lemma matchTerms_pos p :
  consumes p = true ->
  forall prev s n, matchTerms p prev s = Some n -> (1 <= n)%nat.
Proof.
  induction p as [| t p IH]; intros Hc prev s n H; simpl in *.
  - discriminate.
  - destruct t as [| a | a]; simpl in Hc.
    + destruct (atBoundary prev (hd_error s)); [eauto | discriminate].
    + destruct s as [| x s]; [discriminate |].
      destruct (atomMatches a x); [| discriminate].
      destruct (matchTerms p (Some x) s); [| discriminate].
      injection H as <-. lia.
    + destruct s as [| x s]; [discriminate |].
      destruct (atomMatches a x); [| discriminate].
      destruct (greedy a (matchTerms p) (Some x) s); [| discriminate].
      injection H as <-. lia.
Qed.

(** Letter case is invisible to the matcher. *)
Lemma sameUnit_word o o' : sameUnit o o' -> isWordAt o = isWordAt o'.
Proof.
  destruct o, o'; simpl; try tauto. apply sameLetter_word.
Qed.

Lemma sameLetter_hd s s' :
  Forall2 sameLetter s s' -> sameUnit (hd_error s) (hd_error s').
Proof. intros [| x y l l' H _]; simpl; auto. Qed.

Lemma greedy_same a k k' :
  (forall prev prev' s s', sameUnit prev prev' -> Forall2 sameLetter s s' ->
     k prev s = k' prev' s') ->
  forall s s' prev prev', sameUnit prev prev' -> Forall2 sameLetter s s' ->
    greedy a k prev s = greedy a k' prev' s'.
Proof.
  intros Hk s s' prev prev' Hp Hs. revert prev prev' Hp.
  induction Hs as [| x y l l' Hxy Hl IH]; intros prev prev' Hp; simpl.
  - apply Hk; [assumption | constructor].
  - rewrite (sameLetter_atom a x y Hxy).
    rewrite (IH (Some x) (Some y) Hxy).
    rewrite (Hk prev prev' (x :: l) (y :: l') Hp (Forall2_cons _ _ Hxy Hl)).
    reflexivity.
Qed.

Lemma matchTerms_same p :
  forall prev prev' s s', sameUnit prev prev' -> Forall2 sameLetter s s' ->
    matchTerms p prev s = matchTerms p prev' s'.
Proof.
  induction p as [| t p IH]; intros prev prev' s s' Hp Hs; simpl.
  - reflexivity.
  - destruct t as [| a | a].
    + unfold atBoundary.
      rewrite (sameUnit_word _ _ Hp), (sameUnit_word _ _ (sameLetter_hd _ _ Hs)).
      now rewrite (IH prev prev' s s').
    + destruct Hs as [| x y l l' Hxy Hl]; [reflexivity |].
      rewrite (sameLetter_atom a x y Hxy).
      now rewrite (IH (Some x) (Some y) l l').
    + destruct Hs as [| x y l l' Hxy Hl]; [reflexivity |].
      rewrite (sameLetter_atom a x y Hxy).
      now rewrite (greedy_same a _ _ IH l l' (Some x) (Some y)).
Qed.

Lemma scan_same p :
  forall s s' prev prev' idx skip,
    sameUnit prev prev' -> Forall2 sameLetter s s' ->
    scan p prev s idx skip = scan p prev' s' idx skip.
Proof.
  intros s s' prev prev' idx skip Hp Hs. revert prev prev' idx skip Hp.
  induction Hs as [| x y l l' Hxy Hl IH]; intros prev prev' idx skip Hp.
  - destruct skip; simpl; [| reflexivity].
    now rewrite (matchTerms_same p prev prev' [] []).
  - destruct skip; simpl.
    + rewrite (matchTerms_same p prev prev' (x :: l) (y :: l') Hp
                 (Forall2_cons _ _ Hxy Hl)).
      destruct (matchTerms p prev' (y :: l')); now rewrite (IH (Some x) (Some y)).
    + now apply IH.
Qed.

(** Where a match starts and ends. *)
Lemma matchTerms_start p prev s n :
  startsWord p = true -> matchTerms p prev s = Some n ->
  isWordAt prev = false /\ isWordAt (hd_error s) = true.
Proof.
  destruct p as [| [| |] [| [| [c |] |] p]]; simpl; try discriminate.
  intros Hw H. unfold atBoundary in H.
  destruct s as [| x s]; simpl in *.
  - destruct (xorb (isWordAt prev) false); discriminate.
  - destruct (isWordAt prev) eqn:Ep, (isWordChar x) eqn:Ex;
      simpl in H; try discriminate; [| auto].
    destruct (Z.eqb_spec (Canonicalize x) (Canonicalize c)) as [E |];
      [| discriminate].
    rewrite (sameLetter_word x c E) in Ex. congruence.
Qed.




End Matcher.

(** ** The scan and the [exec] loop *)

Section Scan.

Variable p : Pattern.
Variable input : JSString.
Hypothesis p_consumes : consumes p = true.

Lemma skipn_cons_nth (l : JSString) : forall i x r,
  skipn i l = x :: r -> nth_error l i = Some x /\ skipn (S i) l = r.
Proof.
  induction l as [| y l IH]; intros i x r H.
  - rewrite skipn_nil in H. discriminate.
  - destruct i; simpl in *.
    + injection H as -> ->. auto.
    + now apply IH.
Qed.

Lemma skipn_all_nil (l : JSString) i :
  skipn i l = [] -> (length l <= i)%nat.
Proof.
  intros H. pose proof (length_skipn i l) as L. rewrite H in L. simpl in L. lia.
Qed.

Lemma scanAt_skip : forall k i,
  (i + k <= length input)%nat -> scanAt p input i k = scanAt p input (i + k) 0.
Proof.
  induction k as [| k IH]; intros i H.
  - now rewrite Nat.add_0_r.
  - unfold scanAt at 1. destruct (skipn i input) as [| x r] eqn:E.
    + apply skipn_all_nil in E. lia.
    + apply skipn_cons_nth in E as [Ex Er]. simpl.
      replace (i + S k)%nat with (S i + k)%nat by lia.
      rewrite <- IH by lia. unfold scanAt. simpl. rewrite Ex. subst r. reflexivity.
Qed.

Lemma scanAt_unfold i :
  (i <= length input)%nat ->
  scanAt p input i 0 =
  match matchTerms p (unitBefore input i) (skipn i input) with
  | Some n => (i, (i + n)%nat) :: scanAt p input (i + n) 0
  | None => if (i <? length input)%nat then scanAt p input (S i) 0 else []
  end.
Proof.
  intros Hi. unfold scanAt at 1.
  destruct (skipn i input) as [| x r] eqn:E.
  - apply skipn_all_nil in E. simpl.
    destruct (matchTerms p (unitBefore input i) []) as [n |] eqn:M.
    + pose proof (matchTerms_le _ _ _ _ M). pose proof (matchTerms_pos _ p_consumes _ _ _ M).
      simpl in *. lia.
    + destruct (Nat.ltb_spec i (length input)); [lia | reflexivity].
  - pose proof (length_skipn i input) as L. rewrite E in L. simpl in L.
    pose proof (skipn_cons_nth _ _ _ _ E) as [Ex Er]. simpl.
    destruct (matchTerms p (unitBefore input i) (x :: r)) as [n |] eqn:M.
    + pose proof (matchTerms_le _ _ _ _ M) as Hle.
      pose proof (matchTerms_pos _ p_consumes _ _ _ M) as Hpos. simpl in Hle.
      f_equal. replace (i + n)%nat with (S i + pred n)%nat by lia.
      rewrite <- scanAt_skip by lia. unfold scanAt. simpl. rewrite Ex. subst r. reflexivity.
    + destruct (Nat.ltb_spec i (length input)); [| lia].
      unfold scanAt. simpl. rewrite Ex. subst r. reflexivity.
Qed.

Lemma searchAt_unfold i :
  searchAt p input i =
  match matchTerms p (unitBefore input i) (skipn i input) with
  | Some n => Some (i, (i + n)%nat)
  | None => if (i <? length input)%nat then searchAt p input (S i) else None
  end.
Proof.
  unfold searchAt at 1. destruct (skipn i input) as [| x r] eqn:E.
  - apply skipn_all_nil in E. simpl.
    destruct (matchTerms p (unitBefore input i) []); [reflexivity |].
    destruct (Nat.ltb_spec i (length input)); [lia | reflexivity].
  - pose proof (length_skipn i input) as L. rewrite E in L. simpl in L.
    pose proof (skipn_cons_nth _ _ _ _ E) as [Ex Er]. simpl.
    destruct (matchTerms p (unitBefore input i) (x :: r)); [reflexivity |].
    destruct (Nat.ltb_spec i (length input)); [| lia].
    unfold searchAt. simpl. rewrite Ex. subst r. reflexivity.
Qed.

(** The first match found from [i] on heads the scan from [i], which
    goes on from the end of that match. *)
Lemma searchAt_scanAt : forall k i,
  (length input - i < k)%nat -> (i <= length input)%nat ->
  match searchAt p input i with
  | Some (b, e) =>
    (b < e)%nat /\ (e <= length input)%nat
    /\ scanAt p input i 0 = (b, e) :: scanAt p input e 0
  | None => scanAt p input i 0 = []
  end.
Proof.
  induction k as [| k IH]; intros i Hk Hi; [lia |].
  rewrite searchAt_unfold, scanAt_unfold by assumption.
  destruct (matchTerms p (unitBefore input i) (skipn i input)) as [n |] eqn:M.
  - pose proof (matchTerms_le _ _ _ _ M) as Hle.
    pose proof (matchTerms_pos _ p_consumes _ _ _ M) as Hpos.
    rewrite length_skipn in Hle. repeat split; lia.
  - destruct (Nat.ltb_spec i (length input)); [| reflexivity].
    apply IH; lia.
Qed.

Lemma scanAt_matches : forall k i,
  (length input - i < k)%nat -> (i <= length input)%nat ->
  Forall (fun m => (i <= fst m)%nat /\ isMatchOf p input m) (scanAt p input i 0)
  /\ inOrder (scanAt p input i 0).
Proof.
  induction k as [| k IH]; intros i Hk Hi; [lia |].
  rewrite scanAt_unfold by assumption.
  destruct (matchTerms p (unitBefore input i) (skipn i input)) as [n |] eqn:M.
  - pose proof (matchTerms_le _ _ _ _ M) as Hle.
    pose proof (matchTerms_pos _ p_consumes _ _ _ M) as Hpos.
    rewrite length_skipn in Hle.
    destruct (IH (i + n)%nat) as [F O]; [lia | lia |]. split.
    + constructor.
      * split; [simpl; lia |]. unfold isMatchOf. simpl.
        replace (i + n - i)%nat with n by lia. repeat split; [lia | lia | exact M].
      * eapply Forall_impl; [| exact F]. simpl. intros m [H1 H2]. split; [lia | exact H2].
    + constructor; [exact O |].
      eapply Forall_impl; [| exact F]. simpl. intros m [H1 _]. exact H1.
  - destruct (Nat.ltb_spec i (length input)).
    + destruct (IH (S i)) as [F O]; [lia | lia |]. split; [| exact O].
      eapply Forall_impl; [| exact F]. simpl. intros m [H1 H2]. split; [lia | exact H2].
    + split; constructor.
Qed.

Lemma matchAll_scanAt : matchAll p input = scanAt p input 0 0.
Proof. reflexivity. Qed.

Lemma matchAll_matches :
  Forall (isMatchOf p input) (matchAll p input) /\ inOrder (matchAll p input).
Proof.
  rewrite matchAll_scanAt.
  destruct (scanAt_matches (S (length input)) 0%nat) as [F O]; [lia | lia |].
  split; [| exact O]. eapply Forall_impl; [| exact F]. now intros m [_ H].
Qed.



(** With enough fuel the [exec] loop ends, having pushed one segment
    per match of the scan. *)
Lemma execLoop_scanAt category : forall fuel i segments,
  (length input - i < fuel)%nat -> (i <= length input)%nat ->
  execLoop fuel p input category i segments =
  Some (segments ++ map (segmentOf input category) (scanAt p input i 0)).
Proof.
  induction fuel as [| fuel IH]; intros i segments Hf Hi; [lia |].
  simpl. unfold exec.
  destruct (Nat.ltb_spec (length input) i); [lia |].
  fold (searchAt p input i).
  pose proof (searchAt_scanAt (S (length input - i)) i) as H1.
  destruct (searchAt p input i) as [[b e] |].
  - destruct H1 as (Hbe & He & Hs); [lia | lia |].
    assert (i <= b)%nat.
    { destruct (scanAt_matches (S (length input - i)) i) as [F _]; [lia | lia |].
      rewrite Hs in F. inversion F as [| ? ? [Hb _] _]. exact Hb. }
    rewrite IH by lia. rewrite Hs. simpl. now rewrite <- app_assoc.
  - rewrite H1 by lia. simpl. now rewrite app_nil_r.
Qed.

End Scan.

(** ** The keyword tables *)

Lemma KEYWORDS_checked : forallb keywordChecks allKeywords = true.
Proof. vm_compute. reflexivity. Qed.

Lemma JS_eqb_eq : forall a b, JS.eqb a b = true -> a = b.
Proof.
  induction a as [| x a IH]; destruct b as [| y b]; simpl; try discriminate.
  - reflexivity.
  - intros H. apply andb_true_iff in H as [H1 H2].
    apply Z.eqb_eq in H1. apply IH in H2. congruence.
Qed.

Lemma JS_eqb_refl : forall a, JS.eqb a a = true.
Proof.
  induction a as [| x a IH]; simpl; [reflexivity |].
  now rewrite Z.eqb_refl, IH.
Qed.

Lemma in_categories c : In c categories.
Proof. destruct c; simpl; auto. Qed.

Lemma keyword_checked c keyword :
  In keyword (KEYWORDS c) -> keywordChecks keyword = true.
Proof.
  intros H. pose proof KEYWORDS_checked as K.
  rewrite forallb_forall in K. apply K. unfold allKeywords.
  apply in_flat_map. exists c. split; [apply in_categories | exact H].
Qed.

(** For an entry of the tables both functions build the same pattern;
    it opens and closes on a word character and consumes input. *)
Lemma keyword_pattern c keyword :
  In keyword (KEYWORDS c) ->
  parse (countSource keyword) = Some (keywordPattern keyword)
  /\ parse (locateSource keyword) = Some (keywordPattern keyword)
  /\ consumes (keywordPattern keyword) = true
  /\ startsWord (keywordPattern keyword) = true
  /\ endsWord (keywordPattern keyword) = true.
Proof.
  intros H. apply keyword_checked in H. unfold keywordChecks in H.
  apply andb_true_iff in H as [He Hp]. apply JS_eqb_eq in He.
  assert (Hs : countSource keyword = locateSource keyword).
  { unfold countSource, locateSource. now rewrite He. }
  unfold keywordPattern. rewrite Hs.
  destruct (parse (locateSource keyword)) as [q |]; [| discriminate].
  apply andb_true_iff in Hp as [Hp H3]. apply andb_true_iff in Hp as [H1 H2].
  auto.
Qed.

(** ** [analyzeTranscript] and [extractKeywordSegments] as sums over the tables *)

Lemma trimStart_blank s : isBlank s = true -> trimStart s = [].
Proof.
  induction s as [| x s IH]; simpl; [reflexivity |].
  intros H. apply andb_true_iff in H as [Hx Hs]. rewrite Hx. auto.
Qed.

Lemma trimStart_keeps s : isBlank (trimStart s) = isBlank s.
Proof.
  induction s as [| x s IH]; simpl; [reflexivity |].
  destruct (isWhiteSpace x) eqn:E; simpl; [exact IH | now rewrite E].
Qed.

Lemma isBlank_rev s : isBlank (rev s) = isBlank s.
Proof.
  unfold isBlank. induction s as [| x s IH]; simpl; [reflexivity |].
  rewrite forallb_app, IH. simpl. rewrite andb_true_r. apply andb_comm.
Qed.

Lemma trim_blank s : isBlank (trim s) = isBlank s.
Proof.
  unfold trim. now rewrite isBlank_rev, trimStart_keeps, isBlank_rev, trimStart_keeps.
Qed.

Lemma trim_length_zero s : (length (trim s) =? 0)%nat = isBlank s.
Proof.
  destruct (isBlank s) eqn:E.
  - unfold trim. rewrite (trimStart_blank s E). reflexivity.
  - rewrite <- trim_blank in E. destruct (trim s); [discriminate | reflexivity].
Qed.

(** The guard shared by the two functions, on a string. *)
Lemma guard_blank t :
  negb (truthy (VString t)) || (length (trim t) =? 0)%nat = isBlank t.
Proof.
  rewrite trim_length_zero. destruct t; reflexivity.
Qed.

Lemma addCount_twice c a b counts :
  addCount c a (addCount c b counts) = addCount c (b + a) counts.
Proof. destruct c; simpl; f_equal; lia. Qed.

Lemma addCount_zero c counts : addCount c 0 counts = counts.
Proof. destruct c, counts; simpl; f_equal; lia. Qed.

Lemma count_keywords lowerTranscript c : forall l counts,
  (forall keyword, In keyword l -> In keyword (KEYWORDS c)) ->
  forEach l (countKeyword lowerTranscript c) counts =
  Some (addCount c
          (sumZ (map (fun keyword =>
                   Z.of_nat (length (occurrences keyword lowerTranscript))) l))
          counts).
Proof.
  induction l as [| keyword l IH]; intros counts Hl; simpl.
  - now rewrite addCount_zero.
  - destruct (keyword_pattern c keyword) as (Hc & _); [apply Hl; now left |].
    unfold countKeyword at 1. rewrite Hc. simpl.
    rewrite IH by (intros k Hk; apply Hl; now right).
    rewrite addCount_twice. reflexivity.
Qed.

Lemma locate_keywords t c : forall l segments,
  (forall keyword, In keyword l -> In keyword (KEYWORDS c)) ->
  forEach l (locateKeyword t c) segments =
  Some (segments ++ flat_map (keywordSegments t c) l).
Proof.
  induction l as [| keyword l IH]; intros segments Hl; simpl.
  - now rewrite app_nil_r.
  - destruct (keyword_pattern c keyword) as (_ & Hp & Hc & _);
      [apply Hl; now left |].
    unfold locateKeyword at 1. rewrite Hp.
    rewrite (execLoop_scanAt _ t Hc c) by lia.
    rewrite IH by (intros k Hk; apply Hl; now right).
    now rewrite <- app_assoc.
Qed.

(** A string without word characters holds no match of a pattern that
    opens on a word character. *)
Lemma scan_without_words p : startsWord p = true ->
  forall s prev idx skip,
    forallb (fun c => negb (isWordChar c)) s = true ->
    scan p prev s idx skip = [].
Proof.
  intros Hp. induction s as [| x s IH]; intros prev idx skip Hs.
  - destruct skip; simpl; [| reflexivity].
    destruct (matchTerms p prev []) as [n |] eqn:M; [| reflexivity].
    apply (matchTerms_start _ _ _ _ Hp) in M as [_ M]. discriminate.
  - simpl in Hs. apply andb_true_iff in Hs as [Hx Hs].
    destruct skip; simpl; [| now apply IH].
    destruct (matchTerms p prev (x :: s)) as [n |] eqn:M; [| now apply IH].
    apply (matchTerms_start _ _ _ _ Hp) in M as [_ M]. simpl in M.
    rewrite M in Hx. discriminate.
Qed.

Lemma blank_without_words s :
  isBlank s = true -> forallb (fun c => negb (isWordChar c)) s = true.
Proof.
  induction s as [| x s IH]; simpl; [reflexivity |].
  intros H. apply andb_true_iff in H as [Hx Hs].
  now rewrite (space_not_word x Hx), IH.
Qed.

Lemma occurrences_blank c keyword s :
  In keyword (KEYWORDS c) -> isBlank s = true -> occurrences keyword s = [].
Proof.
  intros H Hs. destruct (keyword_pattern c keyword H) as (_ & _ & _ & Hw & _).
  apply (scan_without_words _ Hw). now apply blank_without_words.
Qed.

Lemma lowerUnit_space x : isWhiteSpace x = true -> lowerUnit x = [x].
Proof.
  intros H. apply isWhiteSpace_iff in H. unfold lowerUnit.
  destruct (between_spec 65 90 x); [lia |].
  destruct (Z.eqb_spec x 8490); [lia |].
  destruct (Z.eqb_spec x 304); [lia | reflexivity].
Qed.

Lemma toLowerCase_blank s : isBlank s = true -> toLowerCase s = s.
Proof.
  induction s as [| x s IH]; simpl; [reflexivity |].
  intros H. apply andb_true_iff in H as [Hx Hs].
  now rewrite (lowerUnit_space x Hx), IH.
Qed.

Lemma keywordTotal_blank c s : isBlank s = true -> keywordTotal c s = 0.
Proof.
  intros Hs. unfold keywordTotal.
  assert (G : forall l, (forall k, In k l -> In k (KEYWORDS c)) ->
            sumZ (map (fun keyword => Z.of_nat (length (occurrences keyword s))) l) = 0).
  { induction l as [| k l IH]; intros Hl; simpl; [reflexivity |].
    rewrite (occurrences_blank c k s) by (auto; apply Hl; now left).
    rewrite IH by (intros k' Hk'; apply Hl; now right). reflexivity. }
  apply G. auto.
Qed.

Lemma categorySegments_blank c s : isBlank s = true -> categorySegments s c = [].
Proof.
  intros Hs. unfold categorySegments.
  assert (G : forall l, (forall k, In k l -> In k (KEYWORDS c)) ->
            flat_map (keywordSegments s c) l = []).
  { induction l as [| k l IH]; intros Hl; simpl; [reflexivity |].
    unfold keywordSegments at 1.
    rewrite (occurrences_blank c k s) by (auto; apply Hl; now left).
    rewrite IH by (intros k' Hk'; apply Hl; now right). reflexivity. }
  apply G. auto.
Qed.

(** [analyzeTranscript] never fails; on a string it returns the totals
    of the lower-cased transcript. *)
Lemma analyzeTranscript_string t :
  analyzeTranscript (VString t) = Some (countsOf (toLowerCase t)).
Proof.
  unfold analyzeTranscript. rewrite guard_blank.
  destruct (isBlank t) eqn:B.
  - rewrite (toLowerCase_blank t B). unfold countsOf.
    now rewrite !keywordTotal_blank.
  - unfold categories. cbn [forEach].
    rewrite !count_keywords by auto. reflexivity.
Qed.

Lemma analyzeTranscript_other v :
  isString v = false -> analyzeTranscript v = Some zeroCounts.
Proof. intros H. destruct v; try reflexivity. discriminate H. Qed.

Lemma locate_category t c segments :
  forEach (KEYWORDS c) (locateKeyword t c) segments =
  Some (segments ++ categorySegments t c).
Proof. apply locate_keywords. auto. Qed.

Lemma segmentsOf_unfold t :
  segmentsOf t =
  categorySegments t science ++ categorySegments t social
  ++ categorySegments t literature ++ categorySegments t language.
Proof.
  unfold segmentsOf, categories. cbn [flat_map]. now rewrite app_nil_r.
Qed.

(** [extractKeywordSegments] always returns; on a string it returns
    the segments of every table entry in turn. *)
Lemma extractKeywordSegments_string t :
  extractKeywordSegments (VString t) = Some (segmentsOf t).
Proof.
  unfold extractKeywordSegments. rewrite guard_blank, segmentsOf_unfold.
  destruct (isBlank t) eqn:B.
  - now rewrite !categorySegments_blank.
  - unfold categories. cbn [forEach].
    rewrite !locate_category. rewrite <- !app_assoc. reflexivity.
Qed.

Lemma extractKeywordSegments_other v :
  isString v = false -> extractKeywordSegments v = Some [].
Proof. intros H. destruct v; try reflexivity. discriminate H. Qed.

(** ** The score normaliser *)

Lemma Math_round_count (count : Z) :
  Math_round (inject_Z count / inject_Z 20 * inject_Z 100)%Q = 5 * count.
Proof.
  unfold Math_round, Qfloor, Qplus, Qmult, Qdiv, Qinv, inject_Z.
  cbn -[Z.mul Z.add Z.div].
  symmetry. apply (Z.div_unique _ _ _ 20); lia.
Qed.

Lemma scoreOf_closed (count : Z) : scoreOf count = Z.min 100 (5 * count).
Proof.
  unfold scoreOf, maxPerCategory. now rewrite Math_round_count.
Qed.

Lemma getScore_calculateScores c counts :
  getScore c (calculateScores counts) = scoreOf (getCount c counts).
Proof. destruct c; reflexivity. Qed.

(** C2.  On every CategoryCounts (no count negative) each of the four
    scores of [calculateScores] is [min(100, round(count / 20 * 100))]
    with the one constant 20, which is [min(100, 5 * count)]; it lies
    between 0 and 100, is 0 for a count of 0, and is 100 for every
    count of 20 or more. *)
Theorem C2_normalizer_policy_and_range (counts : CategoryCounts) :
  validCounts counts ->
  maxPerCategory = 20 /\
  forall c,
    getScore c (calculateScores counts)
      = normalizePolicy maxPerCategory (getCount c counts)
    /\ getScore c (calculateScores counts) = Z.min 100 (5 * getCount c counts)
    /\ 0 <= getScore c (calculateScores counts) <= 100
    /\ (getCount c counts = 0 -> getScore c (calculateScores counts) = 0)
    /\ (maxPerCategory <= getCount c counts ->
        getScore c (calculateScores counts) = 100).
Proof.
  intros Hv. split; [reflexivity |]. intros c. specialize (Hv c).
  rewrite getScore_calculateScores.
  split; [reflexivity |]. rewrite scoreOf_closed. unfold maxPerCategory.
  repeat split; lia.
Qed.

Lemma C2_normalizer_policy_and_range_witness :
  validCounts (mkCounts 0 3 20 57) /\
  forall c,
    getScore c (calculateScores (mkCounts 0 3 20 57))
      = normalizePolicy maxPerCategory (getCount c (mkCounts 0 3 20 57))
    /\ getScore c (calculateScores (mkCounts 0 3 20 57))
       = Z.min 100 (5 * getCount c (mkCounts 0 3 20 57))
    /\ 0 <= getScore c (calculateScores (mkCounts 0 3 20 57)) <= 100
    /\ (getCount c (mkCounts 0 3 20 57) = 0 ->
        getScore c (calculateScores (mkCounts 0 3 20 57)) = 0)
    /\ (maxPerCategory <= getCount c (mkCounts 0 3 20 57) ->
        getScore c (calculateScores (mkCounts 0 3 20 57)) = 100).
Proof.
  assert (Hv : validCounts (mkCounts 0 3 20 57)).
  { intros c. destruct c; simpl; lia. }
  split; [exact Hv |].
  exact (proj2 (C2_normalizer_policy_and_range (mkCounts 0 3 20 57) Hv)).
Defined.

(** C8.  Raising the count of one category and leaving the others as
    they are never lowers the score of that category (and leaves the
    other scores as they are); a count of 20 or more has score 100. *)
Theorem C8_normalizer_monotone_saturating
    (counts counts' : CategoryCounts) (c : Category) :
  (forall c', c' <> c -> getCount c' counts' = getCount c' counts) ->
  getCount c counts <= getCount c counts' ->
  getScore c (calculateScores counts) <= getScore c (calculateScores counts')
  /\ (forall c', c' <> c ->
        getScore c' (calculateScores counts') = getScore c' (calculateScores counts))
  /\ (maxPerCategory <= getCount c counts ->
        getScore c (calculateScores counts) = 100
        /\ getScore c (calculateScores counts') = 100).
Proof.
  intros Hother Hle. rewrite !getScore_calculateScores, !scoreOf_closed.
  unfold maxPerCategory. split; [lia |]. split.
  - intros c' Hc'. rewrite !getScore_calculateScores. now rewrite Hother.
  - intros H. lia.
Qed.

Lemma C8_normalizer_monotone_saturating_witness :
  getScore literature (calculateScores (mkCounts 1 2 7 4))
    <= getScore literature (calculateScores (mkCounts 1 2 9 4))
  /\ (forall c', c' <> literature ->
        getScore c' (calculateScores (mkCounts 1 2 9 4))
        = getScore c' (calculateScores (mkCounts 1 2 7 4)))
  /\ (maxPerCategory <= getCount literature (mkCounts 1 2 7 4) ->
        getScore literature (calculateScores (mkCounts 1 2 7 4)) = 100
        /\ getScore literature (calculateScores (mkCounts 1 2 9 4)) = 100).
Proof.
  apply (C8_normalizer_monotone_saturating
           (mkCounts 1 2 7 4) (mkCounts 1 2 9 4) literature).
  - intros c' Hc'. destruct c'; simpl; try reflexivity. now elim Hc'.
  - simpl. lia.
Defined.

(** ** Blank and non-text input *)

(** C4.  On an input that is not a string, or is a string that is
    empty or made of white space only, [analyzeTranscript] returns the
    all-zero counts and [extractKeywordSegments] returns the empty
    list; both return normally. *)
Theorem C4_blank_input_yields_zero (v : Value) :
  blankInput v = true ->
  analyzeTranscript v = Some zeroCounts
  /\ extractKeywordSegments v = Some [].
Proof.
  intros H. destruct v as [| | b | n | t |];
    try (split;
         [now apply analyzeTranscript_other
         | now apply extractKeywordSegments_other]).
  simpl in H. unfold analyzeTranscript, extractKeywordSegments.
  rewrite guard_blank, H. split; reflexivity.
Qed.

Lemma C4_blank_input_yields_zero_witness :
  blankInput (VString [32; 9; 10; 160; 8232]) = true
  /\ analyzeTranscript (VString [32; 9; 10; 160; 8232]) = Some zeroCounts
  /\ extractKeywordSegments (VString [32; 9; 10; 160; 8232]) = Some [].
Proof.
  split; [reflexivity |].
  apply (C4_blank_input_yields_zero (VString [32; 9; 10; 160; 8232])).
  reflexivity.
Defined.

(** ** Counts against segments *)

Lemma keywordSegments_category t c keyword s :
  In s (keywordSegments t c keyword) -> category s = c.
Proof.
  unfold keywordSegments. intros H. apply in_map_iff in H as (m & <- & _).
  reflexivity.
Qed.

Lemma categorySegments_category t c s :
  In s (categorySegments t c) -> category s = c.
Proof.
  unfold categorySegments. intros H. apply in_flat_map in H as (k & _ & H).
  now apply keywordSegments_category in H.
Qed.

Lemma segmentsIn_category t c c' :
  segmentsIn c (categorySegments t c') =
  if Category_eqb c' c then categorySegments t c' else [].
Proof.
  unfold segmentsIn.
  assert (G : forall l, (forall s, In s l -> category s = c') ->
            filter (fun s => Category_eqb (category s) c) l =
            if Category_eqb c' c then l else []).
  { induction l as [| s l IH]; intros Hl; simpl.
    - now destruct (Category_eqb c' c).
    - rewrite (Hl s) by now left.
      rewrite IH by (intros s' Hs'; apply Hl; now right).
      now destruct (Category_eqb c' c). }
  apply G. intros s. apply categorySegments_category.
Qed.

Lemma segmentsIn_segmentsOf t c :
  segmentsIn c (segmentsOf t) = categorySegments t c.
Proof.
  rewrite segmentsOf_unfold. unfold segmentsIn. rewrite !filter_app.
  fold (segmentsIn c (categorySegments t science)).
  fold (segmentsIn c (categorySegments t social)).
  fold (segmentsIn c (categorySegments t literature)).
  fold (segmentsIn c (categorySegments t language)).
  rewrite !segmentsIn_category.
  destruct c; simpl; now rewrite ?app_nil_r.
Qed.

Lemma length_categorySegments t c :
  Z.of_nat (length (categorySegments t c)) = keywordTotal c t.
Proof.
  unfold categorySegments, keywordTotal.
  induction (KEYWORDS c) as [| k l IH]; simpl; [reflexivity |].
  rewrite length_app, Nat2Z.inj_add, IH. unfold keywordSegments.
  now rewrite length_map.
Qed.

Lemma toLowerCase_plain t :
  plainCase t = true -> Forall2 sameLetter (toLowerCase t) t.
Proof.
  induction t as [| x t IH]; simpl; [constructor |].
  intros H. apply andb_true_iff in H as [Hx Ht].
  apply andb_true_iff in Hx as [H1 H2].
  unfold lowerUnit. destruct (between_spec 65 90 x) as [B | B].
  - simpl. constructor; [| auto]. unfold sameLetter.
    destruct (Canonicalize_cases (x + 32)), (Canonicalize_cases x); lia.
  - destruct (x =? 8490); [discriminate |].
    destruct (x =? 304); [discriminate |].
    simpl. constructor; [reflexivity | auto].
Qed.

Lemma occurrences_same keyword s s' :
  Forall2 sameLetter s s' -> occurrences keyword s = occurrences keyword s'.
Proof.
  intros H. unfold occurrences, matchAll. now apply scan_same.
Qed.

Lemma keywordTotal_same c s s' :
  Forall2 sameLetter s s' -> keywordTotal c s = keywordTotal c s'.
Proof.
  intros H. unfold keywordTotal. f_equal. apply map_ext. intros k.
  now rewrite (occurrences_same k s s' H).
Qed.

(** C9, as the code has it.  The count of a category differs from the
    number of its segments on the transcript made of [boo] and the
    Kelvin sign U+212A: lower-casing turns the sign into [k], so
    [analyzeTranscript] finds [book] (in literature and in language),
    while [extractKeywordSegments] reads the transcript as it is and
    finds nothing.  The other way round on [book] followed by U+0130:
    as it is, [book] ends there; lower-cased, an [i] follows it. *)
Lemma C9_counts_differ_from_segments_on_kelvin_sign :
  analyzeTranscript (VString [98; 111; 111; 8490]) = Some (mkCounts 0 0 1 1)
  /\ extractKeywordSegments (VString [98; 111; 111; 8490]) = Some []
  /\ analyzeTranscript (VString [98; 111; 111; 107; 304]) = Some zeroCounts
  /\ extractKeywordSegments (VString [98; 111; 111; 107; 304])
     = Some [mkSegment (str "book") literature 0 4;
             mkSegment (str "book") language 0 4]
  /\ ~ (forall (t : JSString) (c : Category),
          exists counts segs,
            analyzeTranscript (VString t) = Some counts
            /\ extractKeywordSegments (VString t) = Some segs
            /\ getCount c counts = Z.of_nat (length (segmentsIn c segs))).
Proof.
  assert (A : analyzeTranscript (VString [98; 111; 111; 8490])
              = Some (mkCounts 0 0 1 1)) by (vm_compute; reflexivity).
  assert (E : extractKeywordSegments (VString [98; 111; 111; 8490]) = Some [])
    by (vm_compute; reflexivity).
  split; [exact A |]. split; [exact E |].
  split; [vm_compute; reflexivity |]. split; [vm_compute; reflexivity |].
  intros H. destruct (H [98; 111; 111; 8490] literature) as (counts & segs & Hc & Hs & Heq).
  rewrite A in Hc. rewrite E in Hs.
  injection Hc as <-. injection Hs as <-. discriminate Heq.
Qed.

(** C9, amended.  For every input that is not a string, and for every
    string that holds neither U+212A nor U+0130, the count
    [analyzeTranscript] reports for a category is the number of
    segments of that category [extractKeywordSegments] returns. *)
Theorem C9_counts_agree_with_segments (v : Value) (c : Category) :
  plainInput v = true ->
  exists counts segs,
    analyzeTranscript v = Some counts
    /\ extractKeywordSegments v = Some segs
    /\ getCount c counts = Z.of_nat (length (segmentsIn c segs)).
Proof.
  intros H. destruct v as [| | b | n | t |];
    try (exists zeroCounts, []; repeat split; now destruct c).
  simpl in H. exists (countsOf (toLowerCase t)), (segmentsOf t).
  split; [apply analyzeTranscript_string |].
  split; [apply extractKeywordSegments_string |].
  rewrite segmentsIn_segmentsOf, length_categorySegments.
  rewrite <- (keywordTotal_same c _ _ (toLowerCase_plain t H)).
  destruct c; reflexivity.
Qed.

Lemma C9_counts_agree_with_segments_witness :
  plainInput (VString (str "Read the BOOK, then talk!")) = true
  /\ exists counts segs,
       analyzeTranscript (VString (str "Read the BOOK, then talk!")) = Some counts
       /\ extractKeywordSegments (VString (str "Read the BOOK, then talk!")) = Some segs
       /\ getCount language counts = Z.of_nat (length (segmentsIn language segs)).
Proof.
  split; [reflexivity |].
  apply (C9_counts_agree_with_segments
           (VString (str "Read the BOOK, then talk!")) language).
  reflexivity.
Defined.

(** ** Keywords listed more than once *)

Lemma sumZ_entries (f : JSString -> Z) (keyword : JSString) :
  (forall k, 0 <= f k) ->
  forall l,
    Z.of_nat (length (filter (JS.eqb keyword) l)) * f keyword <= sumZ (map f l).
Proof.
  intros Hf. induction l as [| k l IH]; simpl; [lia |].
  destruct (JS.eqb keyword k) eqn:E.
  - apply JS_eqb_eq in E. subst k. simpl length. lia.
  - specialize (Hf k). lia.
Qed.

Lemma Segment_eqb_refl s : Segment_eqb s s = true.
Proof.
  unfold Segment_eqb.
  rewrite JS_eqb_refl, !Nat.eqb_refl. now destruct (category s).
Qed.

Lemma filter_length_in (s : Segment) l :
  In s l -> (1 <= length (filter (Segment_eqb s) l))%nat.
Proof.
  induction l as [| x l IH]; simpl; [tauto |].
  intros [-> | H].
  - rewrite Segment_eqb_refl. simpl. lia.
  - destruct (Segment_eqb s x); simpl; [lia | auto].
Qed.

Lemma filter_length_entries t c keyword s :
  In s (keywordSegments t c keyword) ->
  forall l,
    (length (filter (JS.eqb keyword) l)
     <= length (filter (Segment_eqb s) (flat_map (keywordSegments t c) l)))%nat.
Proof.
  intros Hs. induction l as [| k l IH]; simpl; [lia |].
  rewrite filter_app, length_app.
  destruct (JS.eqb keyword k) eqn:E.
  - apply JS_eqb_eq in E. subst k.
    pose proof (filter_length_in s _ Hs). simpl. lia.
  - lia.
Qed.

Lemma filter_length_segmentsOf t c s :
  (length (filter (Segment_eqb s) (categorySegments t c))
   <= length (filter (Segment_eqb s) (segmentsOf t)))%nat.
Proof.
  rewrite segmentsOf_unfold, !filter_app, !length_app. destruct c; lia.
Qed.

(** C10.  The lists hold [talk], [say] and [tell] twice in language,
    [magic] twice in literature and [light] twice in science.  A
    category's count is the sum, over the entries of its list taken
    one by one, of the matches of each entry; so a keyword listed [n]
    times whose matches number [k] puts at least [n * k] into the
    count, and each of its matches is in the output of
    [extractKeywordSegments] at least [n] times.  On the transcript
    [magic], one occurrence gives literature the count 2 and two equal
    segments. *)
Theorem C10_duplicate_entries_count_twice :
  (entries language (str "talk") = 2%nat
   /\ entries language (str "say") = 2%nat
   /\ entries language (str "tell") = 2%nat
   /\ entries literature (str "magic") = 2%nat
   /\ entries science (str "light") = 2%nat)
  /\ (forall (t : JSString) (c : Category) (keyword : JSString),
        exists counts segs,
          analyzeTranscript (VString t) = Some counts
          /\ extractKeywordSegments (VString t) = Some segs
          /\ getCount c counts = keywordTotal c (toLowerCase t)
          /\ Z.of_nat (entries c keyword)
             * Z.of_nat (length (occurrences keyword (toLowerCase t)))
             <= getCount c counts
          /\ segmentsIn c segs = flat_map (keywordSegments t c) (KEYWORDS c)
          /\ forall m, In m (occurrences keyword t) ->
               (entries c keyword
                <= length (filter (Segment_eqb (segmentOf t c m)) segs))%nat)
  /\ occurrences (str "magic") (str "magic") = [(0%nat, 5%nat)]
  /\ analyzeTranscript (VString (str "magic")) = Some (mkCounts 0 0 2 0)
  /\ extractKeywordSegments (VString (str "magic"))
     = Some [mkSegment (str "magic") literature 0 5;
             mkSegment (str "magic") literature 0 5].
Proof.
  split; [repeat split; vm_compute; reflexivity |].
  split; [| repeat split; vm_compute; reflexivity].
  intros t c keyword.
  exists (countsOf (toLowerCase t)), (segmentsOf t).
  split; [apply analyzeTranscript_string |].
  split; [apply extractKeywordSegments_string |].
  assert (G : getCount c (countsOf (toLowerCase t)) = keywordTotal c (toLowerCase t))
    by (destruct c; reflexivity).
  split; [exact G |]. split.
  - rewrite G. unfold entries, keywordTotal.
    apply (sumZ_entries
             (fun k => Z.of_nat (length (occurrences k (toLowerCase t))))).
    intros k. lia.
  - split; [apply segmentsIn_segmentsOf |].
    intros m Hm.
    eapply Nat.le_trans; [| apply (filter_length_segmentsOf t c)].
    unfold entries, categorySegments. apply filter_length_entries.
    unfold keywordSegments. now apply in_map.
Qed.

(** ** The segments of [extractKeywordSegments] *)

Lemma in_segmentsOf t s :
  In s (segmentsOf t) <->
  exists c keyword m,
    In keyword (KEYWORDS c) /\ In m (occurrences keyword t)
    /\ s = segmentOf t c m.
Proof.
  unfold segmentsOf, categorySegments, keywordSegments. split.
  - intros H. apply in_flat_map in H as (c & _ & H).
    apply in_flat_map in H as (k & Hk & H).
    apply in_map_iff in H as (m & <- & Hm). now exists c, k, m.
  - intros (c & k & m & Hk & Hm & ->).
    apply in_flat_map. exists c. split; [apply in_categories |].
    apply in_flat_map. exists k. split; [exact Hk |]. now apply in_map.
Qed.

Lemma occurrences_matches c keyword t :
  In keyword (KEYWORDS c) ->
  Forall (isMatchOf (keywordPattern keyword) t) (occurrences keyword t)
  /\ inOrder (occurrences keyword t).
Proof.
  intros H. destruct (keyword_pattern c keyword H) as (_ & _ & Hc & _).
  exact (matchAll_matches _ t Hc).
Qed.

Lemma StronglySorted_app {A : Type} (R : A -> A -> Prop) l1 l2 :
  StronglySorted R l1 -> StronglySorted R l2 ->
  (forall a b, In a l1 -> In b l2 -> R a b) ->
  StronglySorted R (l1 ++ l2).
Proof.
  induction l1 as [| x l1 IH]; intros H1 H2 H; simpl; [exact H2 |].
  inversion H1 as [| ? ? S1 F1]; subst. constructor.
  - apply IH; [exact S1 | exact H2 |]. intros a b Ha Hb. apply H; [now right | exact Hb].
  - apply Forall_app. split; [exact F1 |].
    apply Forall_forall. intros b Hb. apply H; [now left | exact Hb].
Qed.

Lemma ranked_block t c :
  StronglySorted (fun a b => (rank (category a) <= rank (category b))%nat)
                 (categorySegments t c).
Proof.
  assert (G : forall l, (forall s, In s l -> category s = c) ->
            StronglySorted (fun a b => (rank (category a) <= rank (category b))%nat) l).
  { induction l as [| s l IH]; intros Hl; constructor.
    - apply IH. intros s' Hs'. apply Hl. now right.
    - apply Forall_forall. intros s' Hs'.
      rewrite (Hl s) by now left. rewrite (Hl s') by now right. lia. }
  apply G. intros s. apply categorySegments_category.
Qed.

Lemma ranked_blocks t : forall cs,
  StronglySorted (fun a b => (rank a <= rank b)%nat) cs ->
  StronglySorted (fun a b => (rank (category a) <= rank (category b))%nat)
                 (flat_map (categorySegments t) cs).
Proof.
  induction cs as [| c cs IH]; intros H; simpl; [constructor |].
  inversion H as [| ? ? S F]; subst.
  apply StronglySorted_app; [apply ranked_block | now apply IH |].
  intros a b Ha Hb. apply categorySegments_category in Ha.
  apply in_flat_map in Hb as (c' & Hc' & Hb).
  apply categorySegments_category in Hb. rewrite Ha, Hb.
  rewrite Forall_forall in F. now apply F.
Qed.

Lemma ranked_segmentsOf t :
  StronglySorted (fun a b => (rank (category a) <= rank (category b))%nat)
                 (segmentsOf t).
Proof.
  apply ranked_blocks. unfold categories.
  repeat constructor; simpl; lia.
Qed.

Lemma substring_length (t : JSString) i e :
  (i <= e)%nat -> (e <= length t)%nat -> length (substring t i e) = (e - i)%nat.
Proof.
  intros H1 H2. unfold substring. rewrite length_firstn, length_skipn. lia.
Qed.

(** C6.  On every transcript [extractKeywordSegments] returns, for the
    categories in the order of [Object.keys] and for the entries of
    each category's list in their order, one segment for every match
    of the entry.  A segment's text is the part of the transcript as
    it was given between its two offsets, its category has the
    entry in its list, and the entry's pattern matches exactly there.
    The categories therefore never go back along the output, the
    matches of one entry come in the order of the transcript without
    overlap, and a match is output for every category and entry that
    has it: nothing is merged.  [Answer the question] shows the text
    in its own case and one entry in each of three categories. *)
Theorem C6_locate_offsets_order_duplicates (t : JSString) :
  (exists segs,
    extractKeywordSegments (VString t) = Some segs
    /\ segs =
       flat_map (fun c =>
         flat_map (fun keyword => map (segmentOf t c) (occurrences keyword t))
                  (KEYWORDS c))
         categories
    /\ (forall s, In s segs ->
          (startIndex s < endIndex s)%nat /\ (endIndex s <= length t)%nat
          /\ text s = substring t (startIndex s) (endIndex s)
          /\ length (text s) = (endIndex s - startIndex s)%nat
          /\ exists keyword,
               In keyword (KEYWORDS (category s))
               /\ In (startIndex s, endIndex s) (occurrences keyword t)
               /\ isMatchOf (keywordPattern keyword) t (startIndex s, endIndex s))
    /\ StronglySorted
         (fun a b => (rank (category a) <= rank (category b))%nat) segs
    /\ (forall c keyword, In keyword (KEYWORDS c) ->
          inOrder (occurrences keyword t))
    /\ (forall c keyword m,
          In keyword (KEYWORDS c) -> In m (occurrences keyword t) ->
          In (segmentOf t c m) segs))
  /\ extractKeywordSegments (VString (str "Answer the question"))
     = Some [mkSegment (str "question") science 11 19;
             mkSegment (str "Answer") science 0 6;
             mkSegment (str "Answer") social 0 6;
             mkSegment (str "question") language 11 19;
             mkSegment (str "Answer") language 0 6].
Proof.
  split; [| vm_compute; reflexivity].
  exists (segmentsOf t).
  split; [apply extractKeywordSegments_string |].
  split; [reflexivity |]. split; [| split; [apply ranked_segmentsOf | split]].
  - intros s Hs. apply in_segmentsOf in Hs as (c & k & [b e] & Hk & Hm & ->).
    destruct (occurrences_matches c k t Hk) as [F _].
    rewrite Forall_forall in F. pose proof (F _ Hm) as M.
    destruct M as (M1 & M2 & M3). simpl in *.
    repeat split; try assumption.
    + apply substring_length; lia.
    + exists k. repeat split; assumption.
  - intros c k Hk. now destruct (occurrences_matches c k t Hk).
  - intros c k m Hk Hm. apply in_segmentsOf. now exists c, k, m.
Qed.

(** ** Word boundaries, letter case and phrases *)















Lemma toLowerCase_app a b : toLowerCase (a ++ b) = toLowerCase a ++ toLowerCase b.
Proof. apply flat_map_app. Qed.




(** ** The scoring section of the controllers *)

Section PipelineFacts.

Variable RagScores : Type.
Variable RagSegment : Type.
Context {truthyScores : ToBoolean RagScores}.
Variable classifyWithSegments : JSString -> Outcome RagScores RagSegment.
Variable combineScores : RagScores -> Scores -> Scores.

Lemma assessment_method transcript counts st segs :
  a_classificationMethod _ _
    (assessmentOf RagScores RagSegment transcript counts st segs) =
  match orNull _ (ragScores _ _ st) with
  | Some _ => Hybrid
  | None => KeywordOnly
  end.
Proof.
  unfold assessmentOf. destruct (orNull _ (ragScores _ _ st)), segs; reflexivity.
Qed.

Lemma run_skipped resetScores logsWeights withKeywordScores RAG_ENABLED transcript :
  semanticDue RAG_ENABLED transcript = false ->
  scoringSection _ _ classifyWithSegments combineScores
    resetScores logsWeights withKeywordScores RAG_ENABLED transcript =
  Some (lexicalResponse RagScores RagSegment withKeywordScores transcript,
        [EAnalyze; ECalculate; EExtract]).
Proof.
  unfold semanticDue. intros H. unfold scoringSection.
  rewrite analyzeTranscript_string, H. unfold resolveSegments.
  cbn [ragSegments]. rewrite extractKeywordSegments_string.
  cbn [ragSegments ragScores finalScores bind emit ret call option_map app].
  rewrite assessment_method. reflexivity.
Qed.

Lemma run_failed resetScores logsWeights withKeywordScores RAG_ENABLED transcript e :
  semanticDue RAG_ENABLED transcript = true ->
  classifyWithSegments (orEmpty transcript) = Throws _ _ e ->
  scoringSection _ _ classifyWithSegments combineScores
    resetScores logsWeights withKeywordScores RAG_ENABLED transcript =
  Some (lexicalResponse RagScores RagSegment withKeywordScores transcript,
        [EAnalyze; ECalculate; EClassify (orEmpty transcript);
         EConsoleError (message e); EExtract]).
Proof.
  unfold semanticDue. intros H C. unfold scoringSection.
  rewrite analyzeTranscript_string, H. unfold tryClassify. rewrite C.
  unfold resolveSegments.
  cbn [ragSegments ragScores finalScores bind emit ret call option_map app].
  rewrite extractKeywordSegments_string.
  cbn [ragSegments ragScores finalScores bind emit ret call option_map app].
  rewrite assessment_method.
  destruct resetScores; reflexivity.
Qed.

Lemma run_returned resetScores logsWeights withKeywordScores RAG_ENABLED transcript r :
  semanticDue RAG_ENABLED transcript = true ->
  classifyWithSegments (orEmpty transcript) = Returns _ _ r ->
  scoringSection _ _ classifyWithSegments combineScores
    resetScores logsWeights withKeywordScores RAG_ENABLED transcript =
  Some (hybridResponse RagScores RagSegment combineScores withKeywordScores
          transcript r,
        [EAnalyze; ECalculate; EClassify (orEmpty transcript); ECombine]
        ++ (if logsWeights then [EGetWeights] else [])
        ++ match segments _ _ r with
           | Some (_ :: _) => []
           | _ => [EExtract]
           end).
Proof.
  unfold semanticDue. intros H C. unfold scoringSection.
  rewrite analyzeTranscript_string, H. unfold tryClassify. rewrite C.
  unfold resolveSegments, hybridResponse.
  cbn [ragSegments ragScores finalScores bind emit ret call option_map app].
  destruct logsWeights, (segments _ _ r) as [[| x l] |]; cbn [map];
    cbn [ragSegments ragScores finalScores bind emit ret call option_map app];
    try rewrite extractKeywordSegments_string;
    cbn [ragSegments ragScores finalScores bind emit ret call option_map app];
    rewrite assessment_method; cbn [ragScores orNull];
    destruct (toBoolean (scores _ _ r)); reflexivity.
Qed.

Lemma assessment_scores transcript counts st segs :
  let a := assessmentOf RagScores RagSegment transcript counts st segs in
  a_scienceTalk _ _ a = scienceTalk (finalScores _ _ st)
  /\ a_socialTalk _ _ a = socialTalk (finalScores _ _ st)
  /\ a_literatureTalk _ _ a = literatureTalk (finalScores _ _ st)
  /\ a_languageDevelopment _ _ a = languageDevelopment (finalScores _ _ st)
  /\ a_keywordCounts _ _ a = counts.
Proof.
  unfold assessmentOf. destruct (orNull _ (ragScores _ _ st)), segs; repeat split.
Qed.

Lemma assessment_segments transcript counts st segs :
  a_ragSegments _ _ (assessmentOf RagScores RagSegment transcript counts st segs) =
  match segs, orNull _ (ragScores _ _ st) with
  | [], None => None
  | _, _ => Some segs
  end.
Proof.
  unfold assessmentOf. destruct (orNull _ (ragScores _ _ st)), segs; reflexivity.
Qed.

Lemma lexical_endsKeywordOnly run withKeywordScores transcript log :
  run = Some (lexicalResponse RagScores RagSegment withKeywordScores transcript, log) ->
  ~ In ECombine log ->
  endsKeywordOnly RagScores RagSegment run transcript.
Proof.
  intros -> Hlog.
  exists (lexicalResponse RagScores RagSegment withKeywordScores transcript), log,
         (countsOf (toLowerCase (orEmpty transcript))).
  split; [reflexivity |]. split; [apply analyzeTranscript_string |].
  unfold lexicalResponse.
  cbn [r_keywordCounts r_scores r_assessment r_ragScores r_classificationMethod].
  rewrite assessment_method.
  destruct (assessment_scores transcript
              (countsOf (toLowerCase (orEmpty transcript)))
              (mkLocals _ _ None None
                 (calculateScores (countsOf (toLowerCase (orEmpty transcript)))))
              (map (FromKeywords RagSegment) (segmentsOf (orEmpty transcript))))
    as (A1 & A2 & A3 & A4 & _).
  repeat split; assumption.
Qed.

Lemma nonBlank_iff transcript :
  nonBlank transcript = true <-> exists t, transcript = Some t /\ trim t <> [].
Proof.
  unfold nonBlank. split.
  - destruct transcript as [t |]; [| discriminate]. intros H.
    apply andb_true_iff in H as [_ H]. exists t. split; [reflexivity |].
    destruct (trim t); [discriminate | discriminate].
  - intros (t & -> & H). apply andb_true_iff. split.
    + destruct t; [now elim H | reflexivity].
    + destruct (trim t); [now elim H | reflexivity].
Qed.

(** C1.  If the classifier throws on the transcript, each of the two
    controllers still ends with a response: its scores are the keyword
    scores [calculateScores (analyzeTranscript transcript)], also in
    the assessment, no semantic scores are attached and the method is
    [keyword-only].  When the semantic step was due, the run did call
    the classifier and logged the error before going on. *)
Theorem C1_classifier_error_falls_back_to_keywords
    (RAG_ENABLED transcript : option JSString) (e : Error) :
  classifyWithSegments (orEmpty transcript) = Throws _ _ e ->
  endsKeywordOnly _ _
    (classroomWhisperController _ _ classifyWithSegments combineScores
       RAG_ENABLED transcript) transcript
  /\ endsKeywordOnly _ _
       (revaiController _ _ classifyWithSegments combineScores
          RAG_ENABLED transcript) transcript
  /\ methodTag KeywordOnly = str "keyword-only"
  /\ (semanticDue RAG_ENABLED transcript = true ->
      forall resetScores logsWeights withKeywordScores,
      exists resp,
        scoringSection _ _ classifyWithSegments combineScores
          resetScores logsWeights withKeywordScores RAG_ENABLED transcript
        = Some (resp, [EAnalyze; ECalculate; EClassify (orEmpty transcript);
                       EConsoleError (message e); EExtract])).
Proof.
  intros C.
  assert (G : forall resetScores logsWeights withKeywordScores,
            endsKeywordOnly _ _
              (scoringSection _ _ classifyWithSegments combineScores resetScores logsWeights withKeywordScores RAG_ENABLED transcript)
              transcript).
  { intros rs lw wk. destruct (semanticDue RAG_ENABLED transcript) eqn:D.
    - eapply lexical_endsKeywordOnly; [exact (run_failed rs lw wk _ _ e D C) |].
      simpl. intuition discriminate.
    - eapply lexical_endsKeywordOnly; [exact (run_skipped rs lw wk _ _ D) |].
      simpl. intuition discriminate. }
  split; [apply G |]. split; [apply G |]. split; [reflexivity |].
  intros D rs lw wk. eexists. exact (run_failed rs lw wk _ _ e D C).
Qed.

Lemma section_gates resetScores logsWeights withKeywordScores RAG_ENABLED transcript :
  gatesSemanticStep _ _ classifyWithSegments
    (scoringSection _ _ classifyWithSegments combineScores resetScores logsWeights withKeywordScores RAG_ENABLED transcript)
    RAG_ENABLED transcript.
Proof.
  unfold gatesSemanticStep.
  destruct (semanticDue RAG_ENABLED transcript) eqn:D.
  - destruct (classifyWithSegments (orEmpty transcript)) as [r | e] eqn:C.
    + rewrite (run_returned _ _ _ _ _ r D C).
      eexists _, _, (countsOf (toLowerCase (orEmpty transcript))).
      split; [reflexivity |]. split; [apply analyzeTranscript_string |].
      split; [reflexivity |]. split; [eexists; reflexivity |].
      split; [| split; [| discriminate]].
      * intros t.
        destruct logsWeights, (segments _ _ r) as [[| x l] |]; simpl;
          split; intros H; intuition (try discriminate; try congruence).
      * intros _. split; [reflexivity | now exists r].
    + rewrite (run_failed _ _ _ _ _ e D C).
      eexists _, _, (countsOf (toLowerCase (orEmpty transcript))).
      split; [reflexivity |]. split; [apply analyzeTranscript_string |].
      split; [reflexivity |]. split; [eexists; reflexivity |].
      split; [| split; [| discriminate]].
      * intros t. simpl. split; intros H; intuition (try discriminate; try congruence).
      * simpl. intros H. exfalso. intuition discriminate.
  - rewrite (run_skipped _ _ _ _ _ D).
    eexists _, _, (countsOf (toLowerCase (orEmpty transcript))).
    split; [reflexivity |]. split; [apply analyzeTranscript_string |].
    split; [reflexivity |]. split; [eexists; reflexivity |].
    split; [| split].
    + intros t. simpl. split; intros H; intuition (try discriminate; try congruence).
    + simpl. intros H. exfalso. intuition discriminate.
    + intros _. repeat split.
Qed.

Lemma nonBlank_empty transcript : orEmpty transcript = [] -> nonBlank transcript = false.
Proof.
  destruct transcript as [[| x t] |]; simpl; intros H;
    [reflexivity | discriminate | reflexivity].
Qed.

Lemma countsOf_blank s : isBlank s = true -> countsOf s = zeroCounts.
Proof.
  intros H. unfold countsOf. now rewrite !keywordTotal_blank.
Qed.

Lemma segmentsOf_blank s : isBlank s = true -> segmentsOf s = [].
Proof.
  intros H. rewrite segmentsOf_unfold. now rewrite !categorySegments_blank.
Qed.

Lemma section_resolves resetScores logsWeights withKeywordScores RAG_ENABLED transcript :
  resolvesSegments _ _ classifyWithSegments
    (scoringSection _ _ classifyWithSegments combineScores resetScores logsWeights withKeywordScores RAG_ENABLED transcript)
    RAG_ENABLED transcript.
Proof.
  unfold resolvesSegments, semanticSegments.
  destruct (semanticDue RAG_ENABLED transcript) eqn:D.
  - destruct (classifyWithSegments (orEmpty transcript)) as [r | e] eqn:C.
    + rewrite (run_returned _ _ _ _ _ r D C).
      eexists _, _, (segmentsOf (orEmpty transcript)).
      split; [reflexivity |]. split; [apply extractKeywordSegments_string |].
      unfold hybridResponse.
      cbn [r_ragSegments r_assessment r_ragScores]. rewrite assessment_segments.
      cbn [ragScores].
      destruct logsWeights.
      { destruct (segments _ _ r) as [[| x l] |] eqn:S; cbn [map]; split.
        * intros l' (_ & N & r' & R & S'). injection R as <-.
          rewrite S in S'. injection S' as <-. now elim N.
        * split; [intros _; split; [reflexivity | simpl; tauto] |].
          now destruct (map _ (segmentsOf (orEmpty transcript))).
        * intros l' (_ & N & r' & R & S'). injection R as <-.
          rewrite S in S'. injection S' as <-.
          split; [reflexivity | simpl; intuition discriminate].
        * split; [| reflexivity]. intros H. exfalso. apply (H (x :: l)).
          split; [reflexivity |]. split; [discriminate |]. now exists r.
        * intros l' (_ & N & r' & R & S'). injection R as <-.
          rewrite S in S'. discriminate.
        * split; [intros _; split; [reflexivity | simpl; tauto] |].
          now destruct (map _ (segmentsOf (orEmpty transcript))). }
      { destruct (segments _ _ r) as [[| x l] |] eqn:S; cbn [map]; split.
        * intros l' (_ & N & r' & R & S'). injection R as <-.
          rewrite S in S'. injection S' as <-. now elim N.
        * split; [intros _; split; [reflexivity | simpl; tauto] |].
          now destruct (map _ (segmentsOf (orEmpty transcript))).
        * intros l' (_ & N & r' & R & S'). injection R as <-.
          rewrite S in S'. injection S' as <-.
          split; [reflexivity | simpl; intuition discriminate].
        * split; [| reflexivity]. intros H. exfalso. apply (H (x :: l)).
          split; [reflexivity |]. split; [discriminate |]. now exists r.
        * intros l' (_ & N & r' & R & S'). injection R as <-.
          rewrite S in S'. discriminate.
        * split; [intros _; split; [reflexivity | simpl; tauto] |].
          now destruct (map _ (segmentsOf (orEmpty transcript))). }
    + rewrite (run_failed _ _ _ _ _ e D C).
      eexists _, _, (segmentsOf (orEmpty transcript)).
      split; [reflexivity |]. split; [apply extractKeywordSegments_string |].
      unfold lexicalResponse.
      cbn [r_ragSegments r_assessment r_ragScores]. rewrite assessment_segments.
      cbn [ragScores]. split; [| split].
      * intros l' (_ & _ & r' & R & _). discriminate.
      * intros _. split; [reflexivity | simpl; tauto].
      * now destruct (map _ (segmentsOf (orEmpty transcript))).
  - rewrite (run_skipped _ _ _ _ _ D).
    eexists _, _, (segmentsOf (orEmpty transcript)).
    split; [reflexivity |]. split; [apply extractKeywordSegments_string |].
    unfold lexicalResponse.
    cbn [r_ragSegments r_assessment r_ragScores]. rewrite assessment_segments.
    cbn [ragScores]. split; [| split].
    + intros l' (D' & _). discriminate.
    + intros _. split; [reflexivity | simpl; tauto].
    + now destruct (map _ (segmentsOf (orEmpty transcript))).
Qed.

(** C5.  Each controller first counts and scores the keywords, on any
    transcript, the empty one included.  It calls the classifier
    exactly when [RAG_ENABLED] reads [true] and the transcript has
    something left after trimming, and then with the transcript; when
    the step is not due the run consists of the counting, the scoring
    and the keyword segments, and its result is the keyword one. *)
Theorem C5_semantic_step_gated_lexical_always
    (RAG_ENABLED transcript : option JSString) :
  (semanticDue RAG_ENABLED transcript = true <->
   ragEnabledOf RAG_ENABLED = true
   /\ exists t, transcript = Some t /\ trim t <> [])
  /\ gatesSemanticStep _ _ classifyWithSegments
       (classroomWhisperController _ _ classifyWithSegments combineScores
          RAG_ENABLED transcript) RAG_ENABLED transcript
  /\ gatesSemanticStep _ _ classifyWithSegments
       (revaiController _ _ classifyWithSegments combineScores
          RAG_ENABLED transcript) RAG_ENABLED transcript
  /\ (orEmpty transcript = [] ->
      forall resetScores logsWeights withKeywordScores,
      exists resp,
        scoringSection _ _ classifyWithSegments combineScores
          resetScores logsWeights withKeywordScores RAG_ENABLED transcript
        = Some (resp, [EAnalyze; ECalculate; EExtract])
        /\ r_keywordCounts _ _ resp = zeroCounts
        /\ r_scores _ _ resp = mkScores 0 0 0 0
        /\ r_ragSegments _ _ resp = []
        /\ r_classificationMethod _ _ resp = KeywordOnly).
Proof.
  split; [| split; [| split]].
  - unfold semanticDue. rewrite andb_true_iff, nonBlank_iff. tauto.
  - apply section_gates.
  - apply section_gates.
  - intros E rs lw wk.
    assert (D : semanticDue RAG_ENABLED transcript = false).
    { unfold semanticDue. rewrite (nonBlank_empty _ E). apply andb_false_r. }
    eexists. split; [exact (run_skipped rs lw wk _ _ D) |].
    unfold lexicalResponse.
    cbn [r_keywordCounts r_scores r_ragSegments r_classificationMethod].
    rewrite E. change (toLowerCase []) with (@nil Z).
    rewrite (countsOf_blank [] eq_refl), (segmentsOf_blank [] eq_refl).
    repeat split.
Qed.

(** C7.  The segments in the response of each controller are the
    classifier's, in their order, when the semantic step was due, the
    classifier returned and its list of segments was not empty; in
    every other case they are the output of [extractKeywordSegments]
    on the same transcript.  The assessment carries the same list,
    unless the list is empty and there are no semantic scores. *)
Theorem C7_segments_semantic_else_lexical
    (RAG_ENABLED transcript : option JSString) :
  resolvesSegments _ _ classifyWithSegments
    (classroomWhisperController _ _ classifyWithSegments combineScores
       RAG_ENABLED transcript) RAG_ENABLED transcript
  /\ resolvesSegments _ _ classifyWithSegments
       (revaiController _ _ classifyWithSegments combineScores
          RAG_ENABLED transcript) RAG_ENABLED transcript.
Proof.
  split; apply section_resolves.
Qed.

End PipelineFacts.

(** The classifier is unreachable, the scorer would keep the keyword
    scores; the semantic step is enabled. *)
Lemma C1_classifier_error_falls_back_to_keywords_witness :
  endsKeywordOnly Scores Segment
    (classroomWhisperController Scores Segment
       (fun _ => Throws _ _ (mkError (str "embedding service unreachable")))
       (fun _ keywordScores => keywordScores)
       (Some (str "true"))
       (Some (str "The scientist made a prediction.")))
    (Some (str "The scientist made a prediction.")).
Proof.
  exact (proj1 (C1_classifier_error_falls_back_to_keywords Scores Segment
                  (fun _ => Throws _ _ (mkError (str "embedding service unreachable")))
                  (fun _ keywordScores => keywordScores)
                  (Some (str "true"))
                  (Some (str "The scientist made a prediction."))
                  (mkError (str "embedding service unreachable"))
                  eq_refl)).
Defined.

(** Two runs of the classroom controller with the step enabled: the
    classifier brings one segment, or none. *)
Example classroom_run_with_semantic_segment :
  option_map (fun r => (r_ragSegments _ _ (fst r), r_classificationMethod _ _ (fst r), snd r))
    (classroomWhisperController Scores nat
       (fun _ => Returns _ _ (mkRagResult _ _ (mkScores 40 0 0 0) (Some [7%nat])))
       (fun ragScores _ => ragScores)
       (Some (str " TRUE ")) (Some (str "magic")))
  = Some ([FromClassifier nat 7%nat], Hybrid,
          [EAnalyze; ECalculate; EClassify (str "magic"); ECombine]).
Proof. vm_compute. reflexivity. Qed.

Example classroom_run_without_semantic_segment :
  option_map (fun r => (r_ragSegments _ _ (fst r), r_classificationMethod _ _ (fst r), snd r))
    (classroomWhisperController Scores nat
       (fun _ => Returns _ _ (mkRagResult _ _ (mkScores 40 0 0 0) (Some [])))
       (fun ragScores _ => ragScores)
       (Some (str " TRUE ")) (Some (str "magic")))
  = Some ([FromKeywords nat (mkSegment (str "magic") literature 0 5);
           FromKeywords nat (mkSegment (str "magic") literature 0 5)], Hybrid,
          [EAnalyze; ECalculate; EClassify (str "magic"); ECombine; EExtract]).
Proof. vm_compute. reflexivity. Qed.

(** ** Further properties of the processor *)

Lemma sumZ_nonneg (f : JSString -> Z) (l : list JSString) :
  (forall k, 0 <= f k) -> 0 <= sumZ (map f l).
Proof.
  intros Hf. induction l as [| k l IH]; simpl; [lia |]. specialize (Hf k). lia.
Qed.

Lemma keywordTotal_nonneg c input : 0 <= keywordTotal c input.
Proof.
  unfold keywordTotal. apply sumZ_nonneg. intros k. lia.
Qed.

Lemma analyzeTranscript_valid v :
  exists counts, analyzeTranscript v = Some counts /\ validCounts counts.
Proof.
  destruct (isString v) eqn:S.
  - destruct v as [| | b | n | t |]; try discriminate S.
    exists (countsOf (toLowerCase t)).
    split; [apply analyzeTranscript_string |].
    intros c. destruct c; apply keywordTotal_nonneg.
  - exists zeroCounts. split; [now apply analyzeTranscript_other |].
    intros c. destruct c; simpl; lia.
Qed.

(** X1.  Whatever value [analyzeTranscript] is given, it returns counts
    none of which is negative, and the scores [calculateScores] makes
    of them are multiples of 5 between 0 and 100; a score is 0 only
    for a count of 0. *)
Theorem X1_keyword_scores_are_steps_of_five (v : Value) :
  exists counts,
    analyzeTranscript v = Some counts
    /\ validCounts counts
    /\ forall c,
         0 <= getScore c (calculateScores counts) <= 100
         /\ (getScore c (calculateScores counts)) mod 5 = 0
         /\ (getScore c (calculateScores counts) = 0 <-> getCount c counts = 0).
Proof.
  destruct (analyzeTranscript_valid v) as (counts & A & V).
  exists counts. split; [exact A |]. split; [exact V |].
  intros c. specialize (V c).
  rewrite getScore_calculateScores, scoreOf_closed.
  split; [lia |]. split; [| lia].
  destruct (Z.min_spec 100 (5 * getCount c counts)) as [[_ ->] | [_ ->]].
  - reflexivity.
  - rewrite Z.mul_comm. apply Z_mod_mult.
Qed.

(** ** Further properties of the scoring section *)

Section ResponseFacts.

Variable RagScores : Type.
Variable RagSegment : Type.
Context {truthyScores : ToBoolean RagScores}.
Variable classifyWithSegments : JSString -> Outcome RagScores RagSegment.
Variable combineScores : RagScores -> Scores -> Scores.

Lemma assessment_fields transcript counts st segs :
  let a := assessmentOf RagScores RagSegment transcript counts st segs in
  a_transcript _ _ a = orEmpty transcript
  /\ a_ragScores _ _ a = orNull _ (ragScores _ _ st).
Proof.
  unfold assessmentOf.
  destruct (orNull _ (ragScores _ _ st)), segs; split; reflexivity.
Qed.

(** Every run ends in one of three ways. *)
Lemma section_cases resetScores logsWeights withKeywordScores RAG_ENABLED transcript :
  (semanticDue RAG_ENABLED transcript = false
   /\ scoringSection _ _ classifyWithSegments combineScores
        resetScores logsWeights withKeywordScores RAG_ENABLED transcript
      = Some (lexicalResponse RagScores RagSegment withKeywordScores transcript,
              [EAnalyze; ECalculate; EExtract]))
  \/ (semanticDue RAG_ENABLED transcript = true
      /\ exists e,
           classifyWithSegments (orEmpty transcript) = Throws _ _ e
           /\ scoringSection _ _ classifyWithSegments combineScores
                resetScores logsWeights withKeywordScores RAG_ENABLED transcript
              = Some (lexicalResponse RagScores RagSegment withKeywordScores
                        transcript,
                      [EAnalyze; ECalculate; EClassify (orEmpty transcript);
                       EConsoleError (message e); EExtract]))
  \/ (semanticDue RAG_ENABLED transcript = true
      /\ exists r,
           classifyWithSegments (orEmpty transcript) = Returns _ _ r
           /\ scoringSection _ _ classifyWithSegments combineScores
                resetScores logsWeights withKeywordScores RAG_ENABLED transcript
              = Some (hybridResponse RagScores RagSegment combineScores
                        withKeywordScores transcript r,
                      [EAnalyze; ECalculate; EClassify (orEmpty transcript);
                       ECombine]
                      ++ (if logsWeights then [EGetWeights] else [])
                      ++ match segments _ _ r with
                         | Some (_ :: _) => []
                         | _ => [EExtract]
                         end)).
Proof.
  destruct (semanticDue RAG_ENABLED transcript) eqn:D.
  - destruct (classifyWithSegments (orEmpty transcript)) as [r | e] eqn:C.
    + right. right. split; [reflexivity |]. exists r.
      split; [reflexivity |]. now apply run_returned.
    + right. left. split; [reflexivity |]. exists e.
      split; [reflexivity |]. now apply run_failed.
  - left. split; [reflexivity |]. now apply run_skipped.
Qed.

Lemma section_tags resetScores logsWeights withKeywordScores RAG_ENABLED transcript :
  tagsWhatHappened _ _ classifyWithSegments combineScores
    (scoringSection _ _ classifyWithSegments combineScores
       resetScores logsWeights withKeywordScores RAG_ENABLED transcript)
    RAG_ENABLED transcript.
Proof.
  unfold tagsWhatHappened.
  destruct (section_cases resetScores logsWeights withKeywordScores RAG_ENABLED transcript)
    as [(D & ->) | [(D & e & C & ->) | (D & r & C & ->)]];
    eexists _, _, (countsOf (toLowerCase (orEmpty transcript)));
    (split; [reflexivity |]); (split; [apply analyzeTranscript_string |]);
    (split; [reflexivity |]).
  - unfold lexicalResponse. cbn [r_classificationMethod r_ragScores r_scores].
    split; [| split; [| split; [| split; [| split]]]].
    + split; [discriminate |]. intros [D' _]. congruence.
    + split; [discriminate | congruence].
    + simpl. split; [intuition discriminate |]. intros [D' _]. congruence.
    + simpl. intuition discriminate.
    + intros r D'. congruence.
    + reflexivity.
  - unfold lexicalResponse. cbn [r_classificationMethod r_ragScores r_scores].
    split; [| split; [| split; [| split; [| split]]]].
    + split; [discriminate |]. intros [_ (r & R & _)]. congruence.
    + split; [discriminate | congruence].
    + simpl. split; [intuition discriminate |]. intros [_ [r R]]. congruence.
    + simpl. intuition discriminate.
    + intros r _ R. congruence.
    + reflexivity.
  - unfold hybridResponse. cbn [r_classificationMethod r_ragScores r_scores orNull].
    split; [| split; [| split; [| split; [| split]]]].
    + destruct (toBoolean (scores _ _ r)) eqn:B.
      * split; [| reflexivity]. intros _. split; [exact D |]. now exists r.
      * split; [discriminate |]. intros [_ (r' & R & B')].
        rewrite C in R. injection R as <-. congruence.
    + destruct (toBoolean (scores _ _ r)); split; congruence.
    + split; [| intros _; simpl; tauto].
      intros _. split; [exact D | now exists r].
    + intros _. simpl. tauto.
    + intros r' _ R. rewrite C in R. injection R as <-. split; reflexivity.
    + intros N. exfalso. apply N. simpl. tauto.
Qed.

Lemma section_assessment resetScores logsWeights withKeywordScores RAG_ENABLED transcript :
  assessmentAgrees _ _
    (scoringSection _ _ classifyWithSegments combineScores
       resetScores logsWeights withKeywordScores RAG_ENABLED transcript)
    transcript.
Proof.
  unfold assessmentAgrees.
  destruct (section_cases resetScores logsWeights withKeywordScores RAG_ENABLED transcript)
    as [(D & ->) | [(D & e & C & ->) | (D & r & C & ->)]];
    eexists _, _; (split; [reflexivity |]);
    unfold lexicalResponse, hybridResponse;
    cbn [r_transcript r_assessment r_scores r_keywordCounts r_ragScores
         r_classificationMethod r_ragSegments];
    rewrite assessment_method, assessment_segments;
    match goal with
    | |- context [assessmentOf _ _ ?t ?c ?st ?sg] =>
      destruct (assessment_scores _ _ t c st sg) as (A1 & A2 & A3 & A4 & A5);
      destruct (assessment_fields t c st sg) as (A6 & A7)
    end;
    cbn [ragScores finalScores orNull] in *;
    try destruct (toBoolean (scores _ _ r));
    repeat (split; [assumption || reflexivity |]);
    intros segs H;
    repeat match type of H with
           | context [match ?l with _ => _ end] => destruct l
           end;
    congruence.
Qed.

(** X2.  In both controllers the method tag tells what happened: it is
    [hybrid] exactly when the semantic step was due, the classifier
    returned and the scores it brought are truthy, and exactly when
    semantic scores are attached to the response.  The scorer is
    called exactly when the step was due and the classifier returned,
    also for falsy scores: the scores of the response are then
    [combineScores ragScores keywordScores] although the tag may read
    [keyword-only]; in every other run they are the keyword scores.
    The keyword counts are always those of [analyzeTranscript].  The
    child controller asks the scorer for its weights exactly when it
    has called it, the classroom controller never does. *)
Theorem X2_method_tag_tells_what_happened
    (RAG_ENABLED transcript : option JSString) :
  tagsWhatHappened _ _ classifyWithSegments combineScores
    (classroomWhisperController _ _ classifyWithSegments combineScores
       RAG_ENABLED transcript) RAG_ENABLED transcript
  /\ tagsWhatHappened _ _ classifyWithSegments combineScores
       (revaiController _ _ classifyWithSegments combineScores
          RAG_ENABLED transcript) RAG_ENABLED transcript
  /\ (exists resp log,
        classroomWhisperController _ _ classifyWithSegments combineScores
          RAG_ENABLED transcript = Some (resp, log)
        /\ ~ In EGetWeights log)
  /\ (exists resp log,
        revaiController _ _ classifyWithSegments combineScores
          RAG_ENABLED transcript = Some (resp, log)
        /\ (In EGetWeights log <-> In ECombine log)).
Proof.
  split; [apply section_tags |]. split; [apply section_tags |]. split.
  - unfold classroomWhisperController.
    destruct (section_cases false false false RAG_ENABLED transcript)
      as [(D & ->) | [(D & e & C & ->) | (D & r & C & ->)]];
      eexists _, _; (split; [reflexivity |]).
    + simpl. intuition discriminate.
    + simpl. intuition discriminate.
    + destruct (segments _ _ r) as [[| x l] |]; simpl; intuition discriminate.
  - unfold revaiController.
    destruct (section_cases true true true RAG_ENABLED transcript)
      as [(D & ->) | [(D & e & C & ->) | (D & r & C & ->)]];
      eexists _, _; (split; [reflexivity |]).
    + simpl. intuition discriminate.
    + simpl. intuition discriminate.
    + destruct (segments _ _ r) as [[| x l] |]; simpl; tauto.
Qed.

(** X3.  In both controllers the assessment put into the response
    repeats the response: the same four scores, keyword counts,
    semantic scores and method, the transcript ([""] for a nullish
    one), and, when it has segments at all, the same segments. *)
Theorem X3_assessment_repeats_response
    (RAG_ENABLED transcript : option JSString) :
  assessmentAgrees _ _
    (classroomWhisperController _ _ classifyWithSegments combineScores
       RAG_ENABLED transcript) transcript
  /\ assessmentAgrees _ _
       (revaiController _ _ classifyWithSegments combineScores
          RAG_ENABLED transcript) transcript.
Proof.
  split; apply section_assessment.
Qed.

End ResponseFacts.

(** ** Keywords as patterns *)

Lemma isSyntaxChar_iff c :
  isSyntaxChar c = true <->
  c = 94 \/ c = 36 \/ c = 92 \/ c = 46 \/ c = 42 \/ c = 43 \/ c = 63
  \/ c = 40 \/ c = 41 \/ c = 91 \/ c = 93 \/ c = 123 \/ c = 125 \/ c = 124.
Proof.
  unfold isSyntaxChar. rewrite !orb_true_iff, !Z.eqb_eq. tauto.
Qed.

Lemma isEscaped_iff c :
  isEscaped c = true <->
  c = 46 \/ c = 42 \/ c = 43 \/ c = 63 \/ c = 94 \/ c = 36 \/ c = 123
  \/ c = 125 \/ c = 40 \/ c = 41 \/ c = 124 \/ c = 91 \/ c = 93 \/ c = 92.
Proof.
  unfold isEscaped. rewrite !orb_true_iff, !Z.eqb_eq. tauto.
Qed.

(** The characters [extractKeywordSegments] escapes are exactly the
    syntax characters of a pattern. *)
Lemma isEscaped_syntax c : isEscaped c = isSyntaxChar c.
Proof.
  apply bool_eq_iff. rewrite isEscaped_iff, isSyntaxChar_iff. lia.
Qed.

Lemma tokens_plain c r :
  0 <= c <= 127 -> isSyntaxChar c = false ->
  tokens (c :: r) = option_map (cons (TAtom (Char c))) (tokens r).
Proof.
  intros Hc Hs.
  assert (N : ~ (c = 92 \/ c = 43)).
  { intros H. assert (S : isSyntaxChar c = true) by (apply isSyntaxChar_iff; lia).
    congruence. }
  cbn [tokens]. destruct (Z.eqb_spec c 92); [lia |].
  destruct (Z.eqb_spec c 43); [lia |]. rewrite Hs.
  destruct (Z.ltb_spec 127 c); [lia |]. destruct (Z.ltb_spec c 0); [lia |].
  reflexivity.
Qed.

Lemma tokens_escaped c r :
  isSyntaxChar c = true ->
  tokens (92 :: c :: r) = option_map (cons (TAtom (Char c))) (tokens r).
Proof.
  intros Hs. pose proof (proj1 (isSyntaxChar_iff c) Hs) as H.
  cbn [tokens]. change (92 =? 92) with true. cbv iota.
  destruct (Z.eqb_spec c 98); [lia |]. destruct (Z.eqb_spec c 115); [lia |].
  now rewrite Hs.
Qed.

Lemma space_not_syntax c : isWhiteSpace c = true -> isSyntaxChar c = false.
Proof.
  intros H. destruct (isSyntaxChar c) eqn:E; [| reflexivity].
  apply isWhiteSpace_iff in H. apply isSyntaxChar_iff in E. lia.
Qed.

Lemma syntax_not_space c : isSyntaxChar c = true -> isWhiteSpace c = false.
Proof.
  intros H. destruct (isWhiteSpace c) eqn:E; [| reflexivity].
  apply space_not_syntax in E. congruence.
Qed.

Lemma tokens_phrase : forall keyword inRun tl toks,
  isASCII keyword = true -> tokens tl = Some toks ->
  tokens (replaceSpaceRuns inRun (escapeKeyword keyword) ++ tl)
  = Some (kwTokens inRun keyword ++ toks).
Proof.
  induction keyword as [| c keyword IH]; intros inRun tl toks Ha Ht;
    [exact Ht |].
  simpl in Ha. apply andb_true_iff in Ha as [Hc Ha]. apply between_iff in Hc.
  cbn [escapeKeyword flat_map kwTokens]. fold (escapeKeyword keyword).
  rewrite isEscaped_syntax.
  destruct (isWhiteSpace c) eqn:W.
  - rewrite (space_not_syntax c W). cbn [app replaceSpaceRuns]. rewrite W.
    destruct inRun; cbn [app]; [now apply IH |].
    cbn [tokens]. change (92 =? 92) with true. change (115 =? 98) with false.
    change (115 =? 115) with true. change (43 =? 92) with false.
    change (43 =? 43) with true. cbv iota.
    now rewrite (IH true tl toks Ha Ht).
  - destruct (isSyntaxChar c) eqn:S; cbn [app replaceSpaceRuns].
    + change (isWhiteSpace 92) with false. cbv iota. cbn [replaceSpaceRuns].
      rewrite W. cbn [app]. rewrite (tokens_escaped c _ S).
      now rewrite (IH false tl toks Ha Ht).
    + rewrite W. cbn [app]. rewrite (tokens_plain c _ Hc S).
      now rewrite (IH false tl toks Ha Ht).
Qed.

Lemma tokens_word : forall keyword tl toks,
  isASCII keyword = true -> tokens tl = Some toks ->
  tokens (escapeKeyword keyword ++ tl)
  = Some (map (fun c => TAtom (Char c)) keyword ++ toks).
Proof.
  induction keyword as [| c keyword IH]; intros tl toks Ha Ht; [exact Ht |].
  simpl in Ha. apply andb_true_iff in Ha as [Hc Ha]. apply between_iff in Hc.
  cbn [escapeKeyword flat_map map]. fold (escapeKeyword keyword).
  rewrite isEscaped_syntax.
  destruct (isSyntaxChar c) eqn:S; cbn [app].
  - rewrite (tokens_escaped c _ S). now rewrite (IH tl toks Ha Ht).
  - rewrite (tokens_plain c _ Hc S). now rewrite (IH tl toks Ha Ht).
Qed.

Lemma terms_atom a r :
  startsWithPlus r = false ->
  terms (TAtom a :: r) = option_map (cons (One a)) (terms r).
Proof.
  destruct r as [| [| b |] r]; simpl; intros H; try reflexivity. discriminate.
Qed.

Lemma kwTokens_head : forall keyword inRun tl,
  startsWithPlus tl = false -> startsWithPlus (kwTokens inRun keyword ++ tl) = false.
Proof.
  induction keyword as [| c keyword IH]; intros inRun tl H; simpl; [exact H |].
  destruct (isWhiteSpace c); [| reflexivity].
  destruct inRun; simpl; [now apply IH | reflexivity].
Qed.

Lemma terms_phrase : forall keyword inRun tl p,
  terms tl = Some p -> startsWithPlus tl = false ->
  terms (kwTokens inRun keyword ++ tl) = Some (kwTerms inRun keyword ++ p).
Proof.
  induction keyword as [| c keyword IH]; intros inRun tl p Ht Hh; [exact Ht |].
  cbn [kwTokens kwTerms]. destruct (isWhiteSpace c).
  - destruct inRun; cbn [app]; [now apply IH |].
    cbn [terms]. now rewrite (IH true tl p Ht Hh).
  - cbn [app]. rewrite terms_atom by now apply kwTokens_head.
    now rewrite (IH false tl p Ht Hh).
Qed.

Lemma terms_word : forall keyword tl p,
  terms tl = Some p -> startsWithPlus tl = false ->
  terms (map (fun c => TAtom (Char c)) keyword ++ tl) = Some (letters keyword ++ p).
Proof.
  induction keyword as [| c keyword IH]; intros tl p Ht Hh; [exact Ht |].
  cbn [map app letters]. fold (letters keyword).
  rewrite terms_atom.
  - now rewrite (IH tl p Ht Hh).
  - destruct keyword; [exact Hh | reflexivity].
Qed.

Lemma parse_locateSource keyword :
  isASCII keyword = true ->
  parse (locateSource keyword) = Some (literalPattern keyword).
Proof.
  intros Ha. unfold locateSource, literalPattern, bounded, parse.
  destruct (includes keyword 32).
  - cbn [app tokens]. change (92 =? 92) with true. change (98 =? 98) with true.
    cbv iota.
    rewrite (tokens_phrase keyword false [92; 98] [TBoundary] Ha eq_refl).
    cbn [option_map terms].
    now rewrite (terms_phrase keyword false [TBoundary] [Boundary] eq_refl eq_refl).
  - cbn [app tokens]. change (92 =? 92) with true. change (98 =? 98) with true.
    cbv iota.
    rewrite (tokens_word keyword [92; 98] [TBoundary] Ha eq_refl).
    cbn [option_map terms].
    now rewrite (terms_word keyword [TBoundary] [Boundary] eq_refl eq_refl).
Qed.

Lemma escapeKeyword_plain keyword :
  forallb (fun c => negb (isEscaped c)) keyword = true ->
  escapeKeyword keyword = keyword.
Proof.
  induction keyword as [| c keyword IH]; simpl; [reflexivity |].
  intros H. apply andb_true_iff in H as [Hc H].
  destruct (isEscaped c); [discriminate |]. simpl. f_equal. now apply IH.
Qed.

Lemma literalPattern_consumes keyword :
  keyword <> [] -> consumes (literalPattern keyword) = true.
Proof.
  destruct keyword as [| c keyword]; [congruence |]. intros _.
  unfold literalPattern. destruct (includes (c :: keyword) 32); simpl.
  - destruct (isWhiteSpace c); reflexivity.
  - reflexivity.
Qed.

(** X5.  A keyword of ASCII characters is read literally by
    [extractKeywordSegments]: whatever characters it holds, the
    pattern built from the escaped keyword is [\b], the keyword's
    characters one by one (its white-space runs as [\s+] when it holds
    a space), and [\b].  If the keyword holds none of the escaped
    characters, [analyzeTranscript] builds the same pattern.  If the
    keyword is not empty, the [exec] loop ends on every transcript,
    having pushed one segment for each match, none of them empty. *)
Theorem X5_keywords_are_read_literally (keyword : JSString) :
  isASCII keyword = true ->
  parse (locateSource keyword) = Some (literalPattern keyword)
  /\ (forallb (fun c => negb (isEscaped c)) keyword = true ->
      parse (countSource keyword) = Some (literalPattern keyword))
  /\ (keyword <> [] ->
      forall t c segments,
        locateKeyword t c keyword segments
        = Some (segments
                ++ map (segmentOf t c) (matchAll (literalPattern keyword) t))
        /\ Forall (isMatchOf (literalPattern keyword) t)
                  (matchAll (literalPattern keyword) t)).
Proof.
  intros Ha. pose proof (parse_locateSource keyword Ha) as P.
  split; [exact P |]. split.
  - intros He. unfold countSource. unfold locateSource in P.
    cbv zeta in P. now rewrite (escapeKeyword_plain keyword He) in P.
  - intros Hn t c segments. pose proof (literalPattern_consumes keyword Hn) as Hc.
    split.
    + unfold locateKeyword. rewrite P.
      now rewrite (execLoop_scanAt _ t Hc c) by lia.
    + now destruct (matchAll_matches _ t Hc).
Qed.

Lemma X5_keywords_are_read_literally_witness :
  parse (locateSource (str "c++ code"))
  = Some (literalPattern (str "c++ code"))
  /\ locateKeyword (str "We read C++   CODE.") science (str "c++ code") []
     = Some [mkSegment (str "C++   CODE") science 8 18].
Proof.
  destruct (X5_keywords_are_read_literally (str "c++ code") eq_refl)
    as (P & _ & L).
  split; [exact P |].
  destruct (L ltac:(discriminate) (str "We read C++   CODE.") science [])
    as [E _].
  rewrite E. vm_compute. reflexivity.
Defined.

(** ** The text of a segment *)

Lemma firstn_split {A : Type} (l : list A) : forall j m,
  (j <= m)%nat -> firstn m l = firstn j l ++ firstn (m - j) (skipn j l).
Proof.
  induction l as [| x l IH]; intros j m H.
  - now rewrite skipn_nil, !firstn_nil.
  - destruct j; [now rewrite Nat.sub_0_r |].
    destruct m; [lia |]. simpl. f_equal. apply IH. lia.
Qed.

Lemma greedy_spells a k p' :
  (forall prev s n, k prev s = Some n -> Spells p' (firstn n s)) ->
  forall s prev n, greedy a k prev s = Some n ->
    exists j, (j <= n)%nat
              /\ forallb (atomMatches a) (firstn j s) = true
              /\ Spells p' (firstn (n - j) (skipn j s)).
Proof.
  intros Hk.
  assert (Z0 : forall prev s n, k prev s = Some n ->
            exists j, (j <= n)%nat
                      /\ forallb (atomMatches a) (firstn j s) = true
                      /\ Spells p' (firstn (n - j) (skipn j s))).
  { intros prev s n H. exists 0%nat. rewrite Nat.sub_0_r.
    repeat split; [lia | now apply (Hk prev)]. }
  induction s as [| x s IH]; intros prev n H; simpl in H.
  - now apply (Z0 prev).
  - destruct (atomMatches a x) eqn:Ax; [| now apply (Z0 prev)].
    destruct (greedy a k (Some x) s) as [m |] eqn:G; [| now apply (Z0 prev)].
    injection H as <-. destruct (IH _ _ G) as (j & Hj & Hr & Hs).
    exists (S j). simpl. rewrite Ax, Hr. repeat split; [lia | exact Hs].
Qed.

(** What the matcher accepts has the shape of the pattern. *)
Lemma matchTerms_spells p :
  forall prev s n, matchTerms p prev s = Some n -> Spells p (firstn n s).
Proof.
  induction p as [| t p IH]; intros prev s n H; simpl in H.
  - injection H as <-. constructor.
  - destruct t as [| a | a].
    + destruct (atBoundary prev (hd_error s)); [| discriminate].
      constructor. now apply (IH prev).
    + destruct s as [| x s]; [discriminate |].
      destruct (atomMatches a x) eqn:Ax; [| discriminate].
      destruct (matchTerms p (Some x) s) as [m |] eqn:M; [| discriminate].
      injection H as <-. simpl. constructor; [exact Ax | now apply (IH (Some x))].
    + destruct s as [| x s]; [discriminate |].
      destruct (atomMatches a x) eqn:Ax; [| discriminate].
      destruct (greedy a (matchTerms p) (Some x) s) as [m |] eqn:G;
        [| discriminate].
      injection H as <-.
      destruct (greedy_spells a _ p IH _ _ _ G) as (j & Hj & Hr & Hs).
      simpl. rewrite (firstn_split s j m Hj). now constructor.
Qed.

Lemma lowerUnit_same x y : sameLetter x y -> lowerUnit x = lowerUnit y.
Proof.
  intros H. pose proof (sameLetter_cases _ _ H) as C. unfold lowerUnit.
  destruct (between_spec 65 90 x), (between_spec 65 90 y).
  - f_equal. lia.
  - assert (y = x + 32) by lia. subst y.
    destruct (Z.eqb_spec (x + 32) 8490); [lia |].
    destruct (Z.eqb_spec (x + 32) 304); [lia | reflexivity].
  - assert (x = y + 32) by lia. subst x.
    destruct (Z.eqb_spec (y + 32) 8490); [lia |].
    destruct (Z.eqb_spec (y + 32) 304); [lia | reflexivity].
  - assert (x = y) by lia. now subst.
Qed.

Lemma lowerUnit_not_space c :
  isWhiteSpace c = false ->
  exists u r, lowerUnit c = u :: r
              /\ forallb (fun z => negb (isWhiteSpace z)) (u :: r) = true.
Proof.
  intros H. unfold lowerUnit.
  destruct (between_spec 65 90 c).
  - exists (c + 32), []. split; [reflexivity |]. simpl.
    destruct (isWhiteSpace (c + 32)) eqn:E; [| reflexivity].
    apply isWhiteSpace_iff in E. lia.
  - destruct (c =? 8490); [exists 107, []; split; reflexivity |].
    destruct (c =? 304); [exists 105, [775]; split; reflexivity |].
    exists c, []. split; [reflexivity |]. simpl. now rewrite H.
Qed.

Lemma collapseSpaces_text : forall u inRun rest,
  u <> [] -> forallb (fun z => negb (isWhiteSpace z)) u = true ->
  collapseSpaces inRun (u ++ rest) = u ++ collapseSpaces false rest.
Proof.
  induction u as [| x u IH]; intros inRun rest Hn Hu; [congruence |].
  simpl in Hu. apply andb_true_iff in Hu as [Hx Hu]. simpl.
  destruct (isWhiteSpace x); [discriminate |]. f_equal.
  destruct u as [| y u]; [reflexivity |]. apply IH; [discriminate | exact Hu].
Qed.

Lemma collapseSpaces_run : forall run rest,
  forallb isWhiteSpace run = true ->
  collapseSpaces true (run ++ rest) = collapseSpaces true rest.
Proof.
  induction run as [| x run IH]; intros rest H; [reflexivity |].
  simpl in H. apply andb_true_iff in H as [Hx H]. simpl. rewrite Hx. now apply IH.
Qed.

Lemma collapse_unit c inRun rest :
  isWhiteSpace c = false ->
  collapseSpaces inRun (lowerUnit c ++ rest)
  = lowerUnit c ++ collapseSpaces false rest.
Proof.
  intros H. destruct (lowerUnit_not_space c H) as (u & r & E & F).
  rewrite E. apply collapseSpaces_text; [discriminate | exact F].
Qed.

Lemma spells_keyword : forall keyword inRun txt,
  Spells (kwTerms inRun keyword ++ [Boundary]) txt ->
  collapseSpaces inRun (toLowerCase txt)
  = collapseSpaces inRun (toLowerCase keyword).
Proof.
  induction keyword as [| c keyword IH]; intros inRun txt H.
  - simpl in H. inversion H as [| ? ? H' | |]; subst. inversion H'. reflexivity.
  - cbn [kwTerms] in H. cbn [toLowerCase flat_map]. fold (toLowerCase keyword).
    destruct (isWhiteSpace c) eqn:W.
    + rewrite (lowerUnit_space c W). cbn [app collapseSpaces]. rewrite W.
      destruct inRun; cbn [app] in *.
      * now apply IH.
      * inversion H as [| | | a x run p' txt' Hx Hrun H']; subst.
        simpl in Hx.
        cbn [toLowerCase flat_map]. fold (toLowerCase (run ++ txt')).
        rewrite (lowerUnit_space x Hx). cbn [app collapseSpaces]. rewrite Hx.
        cbn [app]. f_equal. rewrite toLowerCase_app.
        rewrite (toLowerCase_blank run Hrun), (collapseSpaces_run run _ Hrun).
        now apply IH.
    + inversion H as [| | a x p' txt' Hx H' |]; subst.
      simpl in Hx. apply Z.eqb_eq in Hx.
      cbn [toLowerCase flat_map]. fold (toLowerCase txt').
      rewrite (lowerUnit_same x c Hx), !collapse_unit by exact W.
      f_equal. now apply IH.
Qed.

Lemma letters_kwTerms : forall keyword inRun,
  forallb (fun c => negb (isWhiteSpace c)) keyword = true ->
  kwTerms inRun keyword = letters keyword.
Proof.
  induction keyword as [| c keyword IH]; intros inRun H; [reflexivity |].
  simpl in H. apply andb_true_iff in H as [Hc H]. simpl.
  destruct (isWhiteSpace c); [discriminate |]. f_equal. now apply IH.
Qed.

Lemma KEYWORDS_tableChecks : forallb tableChecks allKeywords = true.
Proof. vm_compute. reflexivity. Qed.

Lemma keyword_table c keyword :
  In keyword (KEYWORDS c) ->
  keywordPattern keyword = Boundary :: kwTerms false keyword ++ [Boundary]
  /\ normalText keyword = keyword.
Proof.
  intros H. pose proof KEYWORDS_tableChecks as K.
  rewrite forallb_forall in K.
  assert (T : tableChecks keyword = true).
  { apply K. unfold allKeywords. apply in_flat_map.
    exists c. split; [apply in_categories | exact H]. }
  unfold tableChecks in T. apply andb_true_iff in T as [T N].
  apply andb_true_iff in T as [A S]. apply JS_eqb_eq in N.
  split; [| exact N].
  unfold keywordPattern. rewrite (parse_locateSource keyword A).
  unfold literalPattern. destruct (includes keyword 32); [reflexivity |].
  simpl in S. now rewrite (letters_kwTerms keyword false S).
Qed.

(** X6.  The text of every segment is its keyword as the transcript
    spells it: put into lower case, with each white-space run made one
    space, it is an entry of the list of the segment's category, and
    the segment marks a match of that entry. *)
Theorem X6_segment_text_is_its_keyword (t : JSString) :
  exists segs,
    extractKeywordSegments (VString t) = Some segs
    /\ forall s, In s segs ->
         In (normalText (text s)) (KEYWORDS (category s))
         /\ In (startIndex s, endIndex s) (occurrences (normalText (text s)) t).
Proof.
  exists (segmentsOf t). split; [apply extractKeywordSegments_string |].
  intros s Hs. apply in_segmentsOf in Hs as (c & k & [b e] & Hk & Hm & ->).
  destruct (occurrences_matches c k t Hk) as [F _].
  rewrite Forall_forall in F. destruct (F _ Hm) as (_ & _ & M).
  apply matchTerms_spells in M. simpl in M.
  destruct (keyword_table c k Hk) as [P N]. rewrite P in M.
  inversion M as [| ? ? M' | |]; subst.
  apply spells_keyword in M'.
  assert (E : normalText (text (segmentOf t c (b, e))) = k).
  { unfold normalText. simpl. unfold substring. rewrite M'. exact N. }
  rewrite E. simpl. split; assumption.
Qed.

(** ** Whole words and phrases *)
























(** ** The upload handlers *)

Lemma orElse_not_empty field fallback :
  fallback <> [] -> orElse field fallback <> [].
Proof.
  intros H. destruct field as [[| x l] |]; simpl; [exact H | discriminate | exact H].
Qed.

Lemma classroomFailure_wellFormed {R : Type} (e : Error) :
  wellFormed [503; 504; 500] (@classroomFailure R e).
Proof.
  unfold classroomFailure, wellFormed.
  destruct (_ || _); [simpl; split; [tauto | discriminate] |].
  destruct (includesString _ _); [simpl; split; [tauto | discriminate] |].
  cbn [payload status]. split; [simpl; tauto |].
  apply orElse_not_empty. discriminate.
Qed.

Lemma childFailure_wellFormed {R : Type} (e : Error) :
  wellFormed [503; 504; 404; 502; 401; 500] (@childFailure R e).
Proof.
  unfold childFailure, wellFormed.
  destruct (_ || _); [simpl; split; [tauto | discriminate] |].
  destruct (_ || _); [simpl; split; [tauto | discriminate] |].
  destruct (includesString _ _); [simpl; split; [tauto | discriminate] |].
  destruct (_ || _); [simpl; split; [tauto | discriminate] |].
  destruct (includesString _ _); [simpl; split; [tauto | discriminate] |].
  cbn [payload status]. split; [simpl; tauto |].
  apply orElse_not_empty. discriminate.
Qed.

Lemma classroomFailure_failure {R : Type} (e : Error) :
  exists m, payload (@classroomFailure R e) = Failure m.
Proof.
  unfold classroomFailure.
  destruct (_ || _); [eexists; reflexivity |].
  destruct (includesString _ _); eexists; reflexivity.
Qed.

Lemma childFailure_failure {R : Type} (e : Error) :
  exists m, payload (@childFailure R e) = Failure m.
Proof.
  unfold childFailure.
  destruct (_ || _); [eexists; reflexivity |].
  destruct (_ || _); [eexists; reflexivity |].
  destruct (includesString _ _); [eexists; reflexivity |].
  destruct (_ || _); [eexists; reflexivity |].
  destruct (includesString _ _); eexists; reflexivity.
Qed.

Lemma wellFormed_more {R : Type} (l l' : list Z) (h : HttpResponse R) :
  (forall z, In z l -> In z l') -> wellFormed l h -> wellFormed l' h.
Proof.
  unfold wellFormed. intros H. destruct (payload h); [| tauto].
  intros [H1 H2]. split; [now apply H | exact H2].
Qed.

Lemma wellFormed_failure {R : Type} (l : list Z) (code : Z) (m : JSString) :
  In code l -> m <> [] -> wellFormed l (@mkHttp R code (Failure m)).
Proof.
  intros H1 H2. split; assumption.
Qed.

Lemma wellFormed_status {R : Type} (l : list Z) (h : HttpResponse R) :
  wellFormed l h -> ~ In 200 l ->
  (status h = 200 <-> exists o a u c r, payload h = Processed o a u c r).
Proof.
  unfold wellFormed. intros W N. destruct (payload h) as [m | o a u c r].
  - destruct W as [W _]. split.
    + intros E. rewrite E in W. contradiction.
    + intros (o & a & u & c & r & E). discriminate.
  - split; [intros _; now exists o, a, u, c, r | intros _; exact W].
Qed.

Lemma JS_eqb_neq a b : JS.eqb a b = false -> a <> b.
Proof.
  intros H E. subst. rewrite JS_eqb_refl in H. discriminate.
Qed.

Lemma existsb_removed fs p : existsb (JS.eqb p) (removed fs p) = false.
Proof.
  unfold removed.
  induction fs as [| q fs IH]; cbn [filter existsb]; [reflexivity |].
  destruct (JS.eqb p q) eqn:E; cbn [negb existsb]; [exact IH |].
  now rewrite E.
Qed.

Lemma existsSync_removed fs p : existsSync (removed fs p) p = false.
Proof.
  unfold existsSync. destruct p; [reflexivity | apply existsb_removed].
Qed.

Lemma in_removed fs p q : In q (removed fs p) <-> In q fs /\ q <> p.
Proof.
  unfold removed. rewrite filter_In. split.
  - intros [H1 H2]. split; [exact H1 |]. intros ->.
    rewrite JS_eqb_refl in H2. discriminate.
  - intros [H1 H2]. split; [exact H1 |].
    destruct (JS.eqb p q) eqn:E; [| reflexivity].
    apply JS_eqb_eq in E. congruence.
Qed.

Section SchemaFacts.

Variable RagScores : Type.
Variable RagSegment : Type.
Context {truthyScores : ToBoolean RagScores}.
Variable classifyWithSegments : JSString -> Outcome RagScores RagSegment.
Variable combineScores : RagScores -> Scores -> Scores.
Variable RAG_ENABLED : option JSString.

Lemma section_total resetScores logsWeights withKeywordScores transcript :
  exists resp log,
    scoringSection _ _ classifyWithSegments combineScores
      resetScores logsWeights withKeywordScores RAG_ENABLED transcript = Some (resp, log).
Proof.
  destruct (section_cases _ _ classifyWithSegments combineScores
              resetScores logsWeights withKeywordScores RAG_ENABLED transcript)
    as [(_ & E) | [(_ & e & _ & E) | (_ & r & _ & E)]]; rewrite E; eauto.
Qed.

Lemma calculateScores_inBounds counts :
  validCounts counts -> scoresInBounds (calculateScores counts).
Proof.
  intros V. unfold scoresInBounds, scoreMin, scoreMax.
  pose proof (getScore_calculateScores science counts) as E1.
  pose proof (getScore_calculateScores social counts) as E2.
  pose proof (getScore_calculateScores literature counts) as E3.
  pose proof (getScore_calculateScores language counts) as E4.
  cbn [getScore] in E1, E2, E3, E4. rewrite E1, E2, E3, E4.
  rewrite !scoreOf_closed.
  pose proof (V science). pose proof (V social).
  pose proof (V literature). pose proof (V language). lia.
Qed.

Lemma passesSchema_assessment transcript counts
    (st : Locals RagScores RagSegment) segs :
  scoresInBounds (finalScores _ _ st) ->
  passesSchema (assessmentOf RagScores RagSegment transcript counts st segs).
Proof.
  intros (B1 & B2 & B3 & B4). unfold passesSchema.
  destruct (assessment_scores _ _ transcript counts st segs)
    as (-> & -> & -> & -> & _).
  rewrite assessment_method.
  repeat (split; [assumption |]).
  destruct (orNull _ (ragScores _ _ st)); simpl; tauto.
Qed.

(** X12.  The assessment the classroom controller prepares passes the
    validators of the TeacherAssessment schema - the four scores
    between 0 and 100, the method one of [keyword-only] and [hybrid] -
    provided the scorer keeps scores in that range. *)
Theorem X12_prepared_assessment_passes_schema (transcript : option JSString) :
  (forall rs ks, scoresInBounds ks -> scoresInBounds (combineScores rs ks)) ->
  exists resp log,
    classroomWhisperController _ _ classifyWithSegments combineScores
      RAG_ENABLED transcript = Some (resp, log)
    /\ passesSchema (r_assessment _ _ resp).
Proof.
  intros Keeps.
  assert (Kw : scoresInBounds
                 (calculateScores (countsOf (toLowerCase (orEmpty transcript))))).
  { apply calculateScores_inBounds. intros c.
    destruct c; apply keywordTotal_nonneg. }
  unfold classroomWhisperController.
  destruct (section_cases _ _ classifyWithSegments combineScores
              false false false RAG_ENABLED transcript)
    as [(_ & E) | [(_ & e & _ & E) | (_ & r & _ & E)]]; rewrite E;
    eexists _, _; (split; [reflexivity |]).
  - unfold lexicalResponse. cbn [r_assessment].
    apply passesSchema_assessment. exact Kw.
  - unfold lexicalResponse. cbn [r_assessment].
    apply passesSchema_assessment. exact Kw.
  - unfold hybridResponse. cbn [r_assessment].
    apply passesSchema_assessment. now apply Keeps.
Qed.

End SchemaFacts.

(** ** The handlers *)

Section HandlerFacts.

Variable RagScores : Type.
Variable RagSegment : Type.
Context {truthyScores : ToBoolean RagScores}.
Variable classify : JSString -> Classified RagScores RagSegment.
Variable combineScores : RagScores -> Scores -> Scores.
Variable RAG_ENABLED : option JSString.
Variable transcribeFromFile : File -> Transcription.
Variable unlinkThrows : JSString -> bool.
Variable cannotRead : JSString -> JSString.

Lemma cleanUp_tidy fs p :
  (forall q, In q (fst (cleanUp unlinkThrows fs p)) -> In q fs)
  /\ (unlinkThrows p = false ->
      existsSync (fst (cleanUp unlinkThrows fs p)) p = false)
  /\ (forall q, q <> p -> In q fs -> In q (fst (cleanUp unlinkThrows fs p)))
  /\ (forall f, ~ In (STranscribe f) (snd (cleanUp unlinkThrows fs p))).
Proof.
  unfold cleanUp. destruct (existsSync fs p) eqn:E; simpl.
  - destruct (unlinkThrows p); simpl.
    + repeat split; auto; try discriminate. intros f [H | []]. discriminate.
    + repeat split.
      * intros q H. now apply in_removed in H.
      * intros _. apply existsSync_removed.
      * intros q H1 H2. now apply in_removed.
      * intros f [H | []]. discriminate.
  - repeat split; auto.
Qed.

Lemma onlyLooksUp_quiet id steps :
  onlyLooksUp id steps -> forall f, ~ In (STranscribe f) steps.
Proof.
  intros H f Hf. apply H in Hf. discriminate.
Qed.

Lemma tidiesUp_unchanged file fs steps :
  (forall f, ~ In (STranscribe f) steps) ->
  tidiesUp unlinkThrows file fs fs steps.
Proof.
  intros H. split; [auto |]. split; [| auto].
  intros f Hf. now apply H in Hf.
Qed.

Lemma tidiesUp_cleaned file fs before more :
  (forall f, ~ In (STranscribe f) before) ->
  (forall f, ~ In (STranscribe f) more) ->
  tidiesUp unlinkThrows (Some file) fs
    (fst (cleanUp unlinkThrows fs (path file)))
    (before ++ STranscribe file :: more
     ++ snd (cleanUp unlinkThrows fs (path file))).
Proof.
  intros H H'.
  destruct (cleanUp_tidy fs (path file)) as (T1 & T2 & T3 & T4).
  split; [exact T1 |]. split.
  - intros f Hf.
    assert (f = file).
    { apply in_app_or in Hf as [Hf | Hf]; [now apply H in Hf |].
      destruct Hf as [Hf | Hf]; [congruence |].
      apply in_app_or in Hf as [Hf | Hf]; [now apply H' in Hf | now apply T4 in Hf]. }
    subst f. repeat split; auto.
  - intros N. exfalso. apply (N file). apply in_or_app. right. now left.
Qed.

Lemma quiet_before (steps : list Step) :
  (forall f, ~ In (STranscribe f) steps) ->
  forall f, ~ In (STranscribe f) (steps ++ [SGetConfig]).
Proof.
  intros H f Hf. apply in_app_or in Hf as [Hf | [Hf | []]];
    [now apply H in Hf | discriminate].
Qed.

Lemma quiet_scoring log : forall f, ~ In (STranscribe f) [SScoring log].
Proof.
  intros f [H | []]. discriminate.
Qed.

Lemma classroomCatch_eq v p fs :
  classroomCatch RagScores RagSegment unlinkThrows v p fs
  = (match v with
     | AnError e => Some (classroomFailure e)
     | _ => None
     end,
     fst (cleanUp unlinkThrows fs p), snd (cleanUp unlinkThrows fs p)).
Proof.
  unfold classroomCatch. now destruct (cleanUp unlinkThrows fs p).
Qed.

Lemma childCatch_eq v p fs :
  childCatch RagScores RagSegment unlinkThrows v p fs
  = match v with
    | AnError e =>
      (Some (childFailure e),
       fst (cleanUp unlinkThrows fs p), snd (cleanUp unlinkThrows fs p))
    | _ => (None, fs, [])
    end.
Proof.
  unfold childCatch. destruct v; try reflexivity.
  now destruct (cleanUp unlinkThrows fs p).
Qed.

Lemma unreadable_iff transcript :
  unreadable _ _ classify RAG_ENABLED transcript = true
  <-> rejectsNullish classify RAG_ENABLED transcript.
Proof.
  unfold unreadable, rejectsNullish. rewrite !andb_true_iff.
  destruct (classify (orEmpty transcript)) as [r | [e | |]];
    intuition (try discriminate; try reflexivity).
Qed.

(** The scoring section inside a handler: the classifier rejects with
    null or undefined and the TypeError leaves the section, or the
    section ends as [scoringSection] has it. *)
Lemma scoreTranscript_cases resetScores logsWeights withKeywordScores transcript :
  (rejectsNullish classify RAG_ENABLED transcript
   /\ scoreTranscript _ _ classify combineScores RAG_ENABLED cannotRead
        (fun cls comb =>
           scoringSection _ _ cls comb resetScores logsWeights withKeywordScores)
        transcript
      = Some (inr (mkError (cannotRead (str "message"))),
              [EAnalyze; ECalculate; EClassify (orEmpty transcript)]))
  \/ (~ rejectsNullish classify RAG_ENABLED transcript
      /\ exists result log,
           scoringSection _ _ (seen _ _ classify) combineScores
             resetScores logsWeights withKeywordScores RAG_ENABLED transcript
           = Some (result, log)
           /\ scoreTranscript _ _ classify combineScores RAG_ENABLED cannotRead
                (fun cls comb =>
                   scoringSection _ _ cls comb
                     resetScores logsWeights withKeywordScores)
                transcript
              = Some (inl result, log)).
Proof.
  unfold scoreTranscript.
  destruct (unreadable _ _ classify RAG_ENABLED transcript) eqn:U.
  - left. split; [now apply unreadable_iff | reflexivity].
  - right. split.
    + intros H. apply unreadable_iff in H. congruence.
    + destruct (section_total _ _ (seen _ _ classify) combineScores RAG_ENABLED
                  resetScores logsWeights withKeywordScores transcript)
        as (result & log & S).
      exists result, log. split; [exact S |]. now rewrite S.
Qed.

Lemma failure_not_processed {R : Type} (h : HttpResponse R) m :
  payload h = Failure m ->
  ~ exists response o a u c r,
      Some h = Some response /\ payload response = Processed o a u c r.
Proof.
  intros P (response & o & a & u & c & r & E & Q).
  injection E as <-. congruence.
Qed.

Lemma steps_shape (steps : list Step) file more tl :
  steps ++ (SGetConfig :: STranscribe file :: more) ++ tl
  = (steps ++ [SGetConfig]) ++ STranscribe file :: more ++ tl.
Proof.
  now rewrite <- app_assoc.
Qed.

(** *** The child handler *)

Section Child.

Variable isHealthy : Health.

Lemma unreadableHealth_iff :
  unreadableHealth isHealthy = false <-> healthRead isHealthy.
Proof.
  unfold unreadableHealth, healthRead.
  destruct isHealthy as [ok | [e | |]]; split; intros H;
    try reflexivity; try discriminate.
  now elim H.
Qed.

Lemma tidiesUp_child {A : Type} file fs (reply : option A) more :
  (forall f, In (STranscribe f) more -> f = file) ->
  reply <> None ->
  tidiesUpIfAnswered unlinkThrows (Some file) fs
    (fst (cleanUp unlinkThrows fs (path file))) reply
    ([SGetConfig; SIsHealthy] ++ more
     ++ snd (cleanUp unlinkThrows fs (path file))).
Proof.
  intros M R.
  destruct (cleanUp_tidy fs (path file)) as (T1 & T2 & T3 & T4).
  split; [exact T1 |]. split; [| split; [| split]].
  - intros _. exists file. split; [reflexivity |]. split; [auto | exact T3].
  - intros f H. cbn [app] in H. destruct H as [H | [H | H]]; try discriminate.
    split; [| right; now left].
    apply in_app_or in H as [H | H]; [now rewrite (M f H) | now apply T4 in H].
  - intros E. contradiction.
  - intros N. exfalso. apply N. right. now left.
Qed.

Lemma tidiesUp_early {A : Type} file fs (reply : option A) :
  tidiesUpIfAnswered unlinkThrows file fs fs reply [].
Proof.
  split; [auto |]. split; [intros [] |]. split; [intros f [] |].
  split; reflexivity.
Qed.

Lemma tidiesUp_unanswered {A : Type} file fs :
  tidiesUpIfAnswered unlinkThrows (Some file) fs fs (@None A)
    [SGetConfig; SIsHealthy; STranscribe file].
Proof.
  split; [auto |]. split; [| split; [| split]].
  - intros _. exists file. split; [reflexivity |].
    split; [intros N; now elim N | auto].
  - intros f [H | [H | [H | []]]]; try discriminate.
    injection H as <-. split; [reflexivity | right; now left].
  - reflexivity.
  - reflexivity.
Qed.

(** What the child handler answers, if it does, leaves on disk and
    does. *)
Lemma child_answer (req : ChildRequest) (fs : FS) :
  exists reply fs' steps,
    revaiUpload _ _ classify combineScores RAG_ENABLED
      transcribeFromFile unlinkThrows cannotRead isHealthy req fs
    = Some (reply, fs', steps)
    /\ (forall response, reply = Some response ->
          wellFormed [400; 401; 404; 500; 502; 503; 504] response)
    /\ tidiesUpIfAnswered unlinkThrows (k_file req) fs fs' reply steps
    /\ ((exists response o a u c r,
           reply = Some response /\ payload response = Processed o a u c r) <->
        given (k_childId req) = true
        /\ healthRead isHealthy
        /\ exists t,
             transcribed transcribeFromFile (k_file req) fs (Some t)
             /\ ~ rejectsNullish classify RAG_ENABLED (Some t))
    /\ (forall response o a u c r,
          reply = Some response ->
          payload response = Processed o a u c r ->
          o = Plain (orEmpty (k_childId req))
          /\ u = orElse (k_uploadedBy req) (str "Unknown")
          /\ c = None
          /\ exists f t log,
               k_file req = Some f /\ a = filename f
               /\ transcribeFromFile f = Transcribed (Some t)
               /\ revaiController _ _ (seen _ _ classify)
                    combineScores RAG_ENABLED (Some t) = Some (r, log)
               /\ In (SScoring log) steps)
    /\ (reply = None <->
        given (k_childId req) = true
        /\ healthRead isHealthy
        /\ rejectedIllegibly transcribeFromFile (k_file req) fs)
    /\ (In SIsHealthy steps <->
        given (k_childId req) = true
        /\ exists f, k_file req = Some f /\ existsSync fs (path f) = true)
    /\ ((exists f, In (STranscribe f) steps) <->
        given (k_childId req) = true
        /\ healthRead isHealthy
        /\ exists f, k_file req = Some f /\ existsSync fs (path f) = true)
    /\ (given (k_childId req) = false -> fs' = fs /\ steps = []).
Proof.
  unfold revaiUpload.
  assert (Early : forall (code : Z) (m : JSString),
            In code [400; 401; 404; 500; 502; 503; 504] -> m <> [] ->
            (forall response,
               Some (@mkHttp (Response RagScores RagSegment) code (Failure m))
               = Some response ->
               wellFormed [400; 401; 404; 500; 502; 503; 504] response)
            /\ (~ exists response o a u c r,
                  Some (@mkHttp (Response RagScores RagSegment) code (Failure m))
                  = Some response
                  /\ payload response = Processed o a u c r)
            /\ (forall response o a u c r,
                  Some (@mkHttp (Response RagScores RagSegment) code (Failure m))
                  = Some response ->
                  payload response = Processed o a u c r -> False)
            /\ ~ In SIsHealthy (@nil Step)
            /\ ~ (exists f, In (STranscribe f) (@nil Step))).
  { intros code m H1 H2. split; [| split; [| split; [| split]]].
    - intros response E. injection E as <-. now apply wellFormed_failure.
    - now apply failure_not_processed with (m := m).
    - intros response o a u c r E Q. injection E as <-. discriminate.
    - intros [].
    - intros (f & []). }
  destruct (given (k_childId req)) eqn:G; cbn [negb].
  - destruct (k_file req) as [file |] eqn:Fi.
    + destruct (existsSync fs (path file)) eqn:Ex; cbn [negb].
      * assert (Past : forall more,
                  In SIsHealthy (SGetConfig :: SIsHealthy :: more) <->
                  true = true
                  /\ exists f, Some file = Some f
                               /\ existsSync fs (path f) = true).
        { intros more. split.
          - intros _. split; [reflexivity |]. now exists file.
          - intros _. right. now left. }
        assert (Fails : forall e more,
                  (forall f, In (STranscribe f) more -> f = file) ->
                  let reply :=
                    Some (@childFailure (Response RagScores RagSegment) e) in
                  (forall response, reply = Some response ->
                     wellFormed [400; 401; 404; 500; 502; 503; 504] response)
                  /\ tidiesUpIfAnswered unlinkThrows (Some file) fs
                       (fst (cleanUp unlinkThrows fs (path file))) reply
                       ([SGetConfig; SIsHealthy] ++ more
                        ++ snd (cleanUp unlinkThrows fs (path file)))
                  /\ (~ exists response o a u c r,
                        reply = Some response
                        /\ payload response = Processed o a u c r)
                  /\ (forall response o a u c r,
                        reply = Some response ->
                        payload response = Processed o a u c r -> False)).
        { intros e more Q reply.
          destruct (@childFailure_failure (Response RagScores RagSegment) e)
            as (m & P).
          split; [| split; [| split]].
          - intros response E. injection E as <-.
            eapply wellFormed_more; [| apply childFailure_wellFormed].
            simpl. tauto.
          - apply tidiesUp_child; [exact Q | discriminate].
          - now apply failure_not_processed with (m := m).
          - intros response o a u c r E Q'. injection E as <-. congruence. }
        assert (One : forall more : list Step,
                  (forall f, In (STranscribe f) more -> False) ->
                  forall f, In (STranscribe f) (STranscribe file :: more) ->
                            f = file).
        { intros more N f [H | H]; [congruence | destruct (N f H)]. }
        destruct (unreadableHealth isHealthy) eqn:UH.
        -- assert (NH : ~ healthRead isHealthy).
           { intros H. apply unreadableHealth_iff in H. congruence. }
           rewrite childCatch_eq.
           destruct (Fails (mkError (cannotRead (str "message"))) []
                       (fun f (H : In (STranscribe f) []) =>
                          match H with end))
             as (F1 & F2 & F3 & F4).
           destruct (cleanUp_tidy fs (path file)) as (_ & _ & _ & T4).
           eexists _, _, _. split; [reflexivity |].
           split; [exact F1 |]. split; [exact F2 |].
           split; [| split; [| split; [| split; [| split; [| discriminate]]]]].
           ++ split; [intros H; now apply F3 in H |].
              intros (_ & H & _). contradiction.
           ++ intros response o a u c r E Q.
              destruct (F4 response o a u c r E Q).
           ++ split; [discriminate |]. intros (_ & H & _). contradiction.
           ++ apply Past.
           ++ split.
              ** intros (f & [H | [H | H]]); try discriminate.
                 now apply T4 in H.
              ** intros (_ & H & _). contradiction.
        -- assert (HR : healthRead isHealthy) by now apply unreadableHealth_iff.
           assert (Asked : forall more,
                     (exists f, In (STranscribe f)
                                  (SGetConfig :: SIsHealthy
                                   :: STranscribe file :: more)) <->
                     true = true
                     /\ healthRead isHealthy
                     /\ exists f, Some file = Some f
                                  /\ existsSync fs (path f) = true).
           { intros more. split.
             - intros _. split; [reflexivity |]. split; [exact HR |].
               now exists file.
             - intros _. exists file. right. right. now left. }
           destruct (transcribeFromFile file) as [[t |] | v] eqn:Tr.
           ++ unfold revaiController.
              destruct (scoreTranscript_cases true true true (Some t))
                as [(RN & S) | (NRN & result & log & S0 & S)]; rewrite S.
              ** rewrite childCatch_eq.
                 destruct (Fails (mkError (cannotRead (str "message")))
                             [STranscribe file;
                              SScoring [EAnalyze; ECalculate;
                                        EClassify (orEmpty (Some t))]]
                             (One _ (quiet_scoring _)))
                   as (F1 & F2 & F3 & F4).
                 eexists _, _, _. split; [reflexivity |].
                 split; [exact F1 |]. split; [exact F2 |].
                 split; [| split; [| split; [| split; [| split; [| discriminate]]]]].
                 --- split; [intros H; now apply F3 in H |].
                     intros (_ & _ & t' & (f & Ff & _ & Ft) & N).
                     injection Ff as <-. rewrite Tr in Ft. injection Ft as <-.
                     contradiction.
                 --- intros response o a u c r E Q.
                     destruct (F4 response o a u c r E Q).
                 --- split; [discriminate |].
                     intros (_ & _ & f & v & Ff & _ & Ft & _). congruence.
                 --- apply Past.
                 --- apply Asked.
              ** pose proof (tidiesUp_child file fs
                               (Some (mkHttp 200
                                  (Processed (Plain (orEmpty (k_childId req)))
                                     (filename file)
                                     (orElse (k_uploadedBy req) (str "Unknown"))
                                     None result)))
                               [STranscribe file; SScoring log]
                               (One _ (quiet_scoring log))
                               ltac:(discriminate)) as T.
                 destruct (cleanUp unlinkThrows fs (path file)) as [fs' cleaned].
                 eexists _, _, _. split; [reflexivity |].
                 split; [| split; [exact T |]].
                 { intros response E. injection E as <-. reflexivity. }
                 split; [| split; [| split; [| split; [| split]]]].
                 --- split.
                     +++ intros _. split; [reflexivity |]. split; [exact HR |].
                         exists t. split; [| exact NRN]. exists file.
                         repeat split; assumption.
                     +++ intros _. eexists _, _, _, _, _, _. split; reflexivity.
                 --- intros response o a u c r E Q. injection E as <-.
                     injection Q as <- <- <- <- <-.
                     split; [reflexivity |]. split; [reflexivity |].
                     split; [reflexivity |]. exists file, t, log.
                     repeat split; try assumption; try reflexivity.
                     right. right. right. now left.
                 --- split; [discriminate |].
                     intros (_ & _ & f & v & Ff & _ & Ft & _). congruence.
                 --- apply Past.
                 --- apply Asked.
                 --- discriminate.
           ++ rewrite childCatch_eq.
              destruct (Fails (mkError (cannotRead (str "length")))
                          [STranscribe file]
                          (One [] (fun f (H : In (STranscribe f) []) => H)))
                as (F1 & F2 & F3 & F4).
              eexists _, _, _. split; [reflexivity |].
              split; [exact F1 |]. split; [exact F2 |].
              split; [| split; [| split; [| split; [| split; [| discriminate]]]]].
              ** split; [intros H; now apply F3 in H |].
                 intros (_ & _ & t' & (f & Ff & _ & Ft) & _). congruence.
              ** intros response o a u c r E Q.
                 destruct (F4 response o a u c r E Q).
              ** split; [discriminate |].
                 intros (_ & _ & f & v & Ff & _ & Ft & _). congruence.
              ** apply Past.
              ** apply Asked.
           ++ rewrite childCatch_eq.
              assert (Silent :
                legible v = false ->
                (None : Reply RagScores RagSegment) = None <->
                true = true /\ healthRead isHealthy
                /\ rejectedIllegibly transcribeFromFile (Some file) fs).
              { intros L. split; [| reflexivity]. intros _.
                split; [reflexivity |]. split; [exact HR |].
                exists file, v. repeat split; assumption. }
              destruct v as [e | |].
              ** destruct (Fails e [STranscribe file]
                             (One [] (fun f (H : In (STranscribe f) []) => H)))
                   as (F1 & F2 & F3 & F4).
                 eexists _, _, _. split; [reflexivity |].
                 split; [exact F1 |]. split; [exact F2 |].
                 split; [| split; [| split; [| split; [| split; [| discriminate]]]]].
                 --- split; [intros H; now apply F3 in H |].
                     intros (_ & _ & t' & (f & Ff & _ & Ft) & _). congruence.
                 --- intros response o a u c r E Q.
                     destruct (F4 response o a u c r E Q).
                 --- split; [discriminate |].
                     intros (_ & _ & f & v & Ff & _ & Ft & L).
                     injection Ff as <-. rewrite Tr in Ft. injection Ft as <-.
                     discriminate.
                 --- apply Past.
                 --- apply Asked.
              ** eexists _, _, _. split; [reflexivity |].
                 split; [discriminate |].
                 split; [apply tidiesUp_unanswered |].
                 split; [| split; [| split; [| split; [| split; [| discriminate]]]]].
                 --- split.
                     +++ intros (response & o & a & u & c & r & E & _).
                         discriminate.
                     +++ intros (_ & _ & t' & (f & Ff & _ & Ft) & _). congruence.
                 --- discriminate.
                 --- now apply Silent.
                 --- apply Past.
                 --- apply Asked.
              ** eexists _, _, _. split; [reflexivity |].
                 split; [discriminate |].
                 split; [apply tidiesUp_unanswered |].
                 split; [| split; [| split; [| split; [| split; [| discriminate]]]]].
                 --- split.
                     +++ intros (response & o & a & u & c & r & E & _).
                         discriminate.
                     +++ intros (_ & _ & t' & (f & Ff & _ & Ft) & _). congruence.
                 --- discriminate.
                 --- now apply Silent.
                 --- apply Past.
                 --- apply Asked.
      * destruct (Early 500 (str "Uploaded file not found on server"))
          as (E1 & E3 & E4 & E5 & E6); [simpl; tauto | discriminate |].
        eexists _, _, _. split; [reflexivity |].
        split; [exact E1 |]. split; [apply tidiesUp_early |].
        split; [| split; [| split; [| split; [| split; [| discriminate]]]]].
        -- split; [intros H; now apply E3 in H |].
           intros (_ & _ & t & (f & Ff & Fe & _) & _). congruence.
        -- intros response o a u c r E Q. destruct (E4 _ _ _ _ _ _ E Q).
        -- split; [discriminate |].
           intros (_ & _ & f & v & Ff & Fe & _). congruence.
        -- split; [intros H; now apply E5 in H |].
           intros (_ & f & Ff & Fe). congruence.
        -- split; [intros H; now apply E6 in H |].
           intros (_ & _ & f & Ff & Fe). congruence.
    + destruct (Early 400 (str
                  "Audio file is required. Please select an audio file to upload."))
        as (E1 & E3 & E4 & E5 & E6); [simpl; tauto | discriminate |].
      eexists _, _, _. split; [reflexivity |].
      split; [exact E1 |]. split; [apply tidiesUp_early |].
      split; [| split; [| split; [| split; [| split; [| discriminate]]]]].
      * split; [intros H; now apply E3 in H |].
        intros (_ & _ & t & (f & Ff & _) & _). discriminate.
      * intros response o a u c r E Q. destruct (E4 _ _ _ _ _ _ E Q).
      * split; [discriminate |]. intros (_ & _ & f & v & Ff & _). discriminate.
      * split; [intros H; now apply E5 in H |].
        intros (_ & f & Ff & _). discriminate.
      * split; [intros H; now apply E6 in H |].
        intros (_ & _ & f & Ff & _). discriminate.
  - destruct (Early 400 (str "Child ID is required"))
      as (E1 & E3 & E4 & E5 & E6); [simpl; tauto | discriminate |].
    eexists _, _, _. split; [reflexivity |].
    split; [exact E1 |]. split; [apply tidiesUp_early |].
    split; [| split; [| split; [| split; [| split]]]].
    + split; [intros H; now apply E3 in H |]. intros (H & _). discriminate.
    + intros response o a u c r E Q. destruct (E4 _ _ _ _ _ _ E Q).
    + split; [discriminate |]. intros (H & _). discriminate.
    + split; [intros H; now apply E5 in H |]. intros (H & _). discriminate.
    + split; [intros H; now apply E6 in H |]. intros (H & _). discriminate.
    + intros _. split; reflexivity.
Qed.

(** X13.  The child handler answers with status 200 exactly when a
    child id is given, the uploaded file is on disk, the service
    transcribes it to a transcript that is there, be it the empty
    one, and neither the health check of the service nor the
    classifier, if it is called, rejects with null or undefined.
    Without a transcript the handler fails where the classroom
    handler goes on.  The answer then names the child, the file and
    the uploader ([Unknown] if none is given) and carries the scoring
    of the transcript.  Without a child id nothing is done. *)
Theorem X13_child_upload_accepted_exactly_with_a_transcript
    (req : ChildRequest) (fs : FS) :
  exists reply fs' steps,
    revaiUpload _ _ classify combineScores RAG_ENABLED
      transcribeFromFile unlinkThrows cannotRead isHealthy req fs
    = Some (reply, fs', steps)
    /\ ((exists response, reply = Some response /\ status response = 200) <->
        given (k_childId req) = true
        /\ healthRead isHealthy
        /\ exists t,
             transcribed transcribeFromFile (k_file req) fs (Some t)
             /\ ~ rejectsNullish classify RAG_ENABLED (Some t))
    /\ (forall response,
          reply = Some response -> status response = 200 ->
          exists f t result log,
            k_file req = Some f
            /\ transcribeFromFile f = Transcribed (Some t)
            /\ revaiController _ _ (seen _ _ classify)
                 combineScores RAG_ENABLED (Some t) = Some (result, log)
            /\ payload response
               = Processed (Plain (orEmpty (k_childId req))) (filename f)
                   (orElse (k_uploadedBy req) (str "Unknown")) None result
            /\ In (SScoring log) steps)
    /\ (given (k_childId req) = false -> fs' = fs /\ steps = []).
Proof.
  destruct (child_answer req fs)
    as (reply & fs' & steps & E & W & _ & Acc & Res & _ & _ & _ & Early).
  exists reply, fs', steps. split; [exact E |].
  assert (St : forall response, reply = Some response ->
               (status response = 200 <->
                exists o a u c r, payload response = Processed o a u c r)).
  { intros response R. apply (wellFormed_status _ _ (W _ R)). simpl. intros H.
    repeat (destruct H as [H | H]; [discriminate |]). exact H. }
  split; [| split; [| exact Early]].
  - rewrite <- Acc. split.
    + intros (response & R & S). apply (St _ R) in S.
      destruct S as (o & a & u & c & r & P). now exists response, o, a, u, c, r.
    + intros (response & o & a & u & c & r & R & P). exists response.
      split; [exact R |]. apply (St _ R). now exists o, a, u, c, r.
  - intros response R S. apply (St _ R) in S.
    destruct S as (o & a & u & c & r & P).
    destruct (Res _ o a u c r R P)
      as (-> & -> & -> & f & t & log & F & -> & T & S & I).
    now exists f, t, r, log.
Qed.

(** X14.  The child handler creates no file and removes none but the
    upload.  It gets as far as the health check of the service
    exactly when a child id is given and the file is on disk, and it
    asks for the transcription, of the upload, exactly when moreover
    the health check does not reject with null or undefined.  Once it
    has got that far and sends an answer, it has deleted the upload,
    whether the request succeeded or failed, unless [unlinkSync]
    throws; every other file stays.  When it sends no answer - the
    transcription rejected with a value that has no string message,
    and [error.message.includes] threw in the [catch] block before
    the clean-up - the upload stays on disk; so it does if the
    handler never got as far as the health check. *)
Theorem X14_child_upload_tidies_up (req : ChildRequest) (fs : FS) :
  exists reply fs' steps,
    revaiUpload _ _ classify combineScores RAG_ENABLED
      transcribeFromFile unlinkThrows cannotRead isHealthy req fs
    = Some (reply, fs', steps)
    /\ tidiesUpIfAnswered unlinkThrows (k_file req) fs fs' reply steps
    /\ (In SIsHealthy steps <->
        given (k_childId req) = true
        /\ exists f, k_file req = Some f /\ existsSync fs (path f) = true)
    /\ ((exists f, In (STranscribe f) steps) <->
        given (k_childId req) = true
        /\ healthRead isHealthy
        /\ exists f, k_file req = Some f /\ existsSync fs (path f) = true)
    /\ (reply = None <->
        given (k_childId req) = true
        /\ healthRead isHealthy
        /\ rejectedIllegibly transcribeFromFile (k_file req) fs).
Proof.
  destruct (child_answer req fs)
    as (reply & fs' & steps & E & _ & T & _ & _ & NoAnswer & Past & Asked & _).
  now exists reply, fs', steps.
Qed.

(** X15.  An answer of the child handler is either the processed
    upload with status 200, or a failure whose status is one of 400,
    401, 404, 500, 502, 503 and 504 and whose message is not empty,
    also when the error that was caught has an empty message.  The
    handler sends no answer in one case only: a child id is given, the
    file is on disk, the health check is got over, and the
    transcription rejects with a value that has no string message; it
    always answers when what the transcription rejects with are Error
    objects. *)
Theorem X15_child_answers_are_well_formed (req : ChildRequest) (fs : FS) :
  exists reply fs' steps,
    revaiUpload _ _ classify combineScores RAG_ENABLED
      transcribeFromFile unlinkThrows cannotRead isHealthy req fs
    = Some (reply, fs', steps)
    /\ (forall response, reply = Some response ->
          wellFormed [400; 401; 404; 500; 502; 503; 504] response)
    /\ (reply = None <->
        given (k_childId req) = true
        /\ healthRead isHealthy
        /\ rejectedIllegibly transcribeFromFile (k_file req) fs)
    /\ ((forall f v, transcribeFromFile f = TranscribeThrows v ->
           legible v = true) ->
        exists response,
          reply = Some response
          /\ wellFormed [400; 401; 404; 500; 502; 503; 504] response).
Proof.
  destruct (child_answer req fs)
    as (reply & fs' & steps & E & W & _ & _ & _ & NoAnswer & _).
  exists reply, fs', steps. split; [exact E |]. split; [exact W |].
  split; [exact NoAnswer |]. intros L.
  destruct reply as [response |]; [exists response; auto |].
  destruct (proj1 NoAnswer eq_refl) as (_ & _ & f & v & _ & _ & T & I).
  apply L in T. congruence.
Qed.

End Child.

(** *** The classroom handler *)

Variable findById : JSString -> FindOutcome.
Variable isValid : JSString -> bool.

Lemma center_check teacher center :
  given center
  && negb match t_center teacher with
          | Some c => JS.eqb c (orEmpty center)
          | None => false
          end = false
  <-> (given center = true -> t_center teacher = center).
Proof.
  destruct center as [[| x l] |]; simpl; try (split; [discriminate | reflexivity]).
  destruct (t_center teacher) as [c |]; simpl.
  - destruct (JS.eqb c (x :: l)) eqn:E; simpl.
    + apply JS_eqb_eq in E. subst. tauto.
    + apply JS_eqb_neq in E. split; [discriminate |].
      intros H. specialize (H eq_refl). congruence.
  - split; [discriminate |]. intros H. specialize (H eq_refl). discriminate.
Qed.

(** The role check lets through exactly those who may upload, as the
    teacher they upload for; it calls no service but [findById], and
    none of its answers is the one for a missing file. *)
Lemma decideTeacher_spec (req : ClassroomRequest) :
  match decideTeacher RagScores RagSegment findById req with
  | (inl teacherId, steps) =>
    mayUpload findById req /\ teacherId = ownerOf req
    /\ onlyLooksUp (orEmpty (c_teacherId req)) steps
  | (inr response, steps) =>
    ~ mayUpload findById req
    /\ wellFormed [400; 403; 404; 500; 503; 504] response
    /\ (exists m, payload response = Failure m)
    /\ onlyLooksUp (orEmpty (c_teacherId req)) steps
    /\ (u_role (c_user req) <> str "teacher" ->
        u_role (c_user req) <> str "admin" ->
        status response = 403 /\ steps = [])
    /\ ~ (status response = 400
          /\ payload response = Failure (str
               "Audio file is required. Please select an audio file to upload."))
  end.
Proof.
  unfold decideTeacher, mayUpload, ownerOf.
  destruct (JS.eqb (u_role (c_user req)) (str "teacher")) eqn:T.
  - apply JS_eqb_eq in T. split; [now left |]. split; [reflexivity |].
    intros f [].
  - apply JS_eqb_neq in T.
    assert (Early : forall (code : Z) (m : JSString),
              In code [400; 403; 404; 500; 503; 504] -> m <> [] ->
              m <> str
                "Audio file is required. Please select an audio file to upload." ->
              wellFormed [400; 403; 404; 500; 503; 504]
                (@mkHttp (Response RagScores RagSegment) code (Failure m))
              /\ (exists m', payload (@mkHttp (Response RagScores RagSegment)
                                       code (Failure m)) = Failure m')
              /\ ~ (status (@mkHttp (Response RagScores RagSegment)
                              code (Failure m)) = 400
                    /\ payload (@mkHttp (Response RagScores RagSegment)
                                  code (Failure m))
                       = Failure (str
               "Audio file is required. Please select an audio file to upload."))).
    { intros code m H1 H2 H3. split; [split; assumption |].
      split; [eexists; reflexivity |]. cbn [payload]. intros [_ H]. congruence. }
    assert (Find : forall id, onlyLooksUp id [SFindById id]).
    { intros id s [H | []]. now subst s. }
    assert (Nil : forall id, onlyLooksUp id []).
    { intros id s []. }
    destruct (JS.eqb (u_role (c_user req)) (str "admin")) eqn:A.
    + apply JS_eqb_eq in A.
      destruct (given (c_teacherId req)) eqn:G; cbn [negb].
      * destruct (findById (orEmpty (c_teacherId req))) as [teacher | | e] eqn:F.
        -- destruct (given (c_center req) && negb _) eqn:C.
           ++ split.
              ** intros [H | (_ & _ & t' & Ft & Hc)]; [contradiction |].
                 injection Ft as <-.
                 pose proof (proj2 (center_check _ _) Hc). congruence.
              ** destruct (Early 400 (str
                   "Selected teacher does not belong to the chosen center"))
                   as (E1 & E2 & E3);
                   [simpl; tauto | discriminate | discriminate |].
                 split; [exact E1 |]. split; [exact E2 |].
                 split; [apply Find |]. split; [| exact E3].
                 intros _ H. contradiction.
           ++ pose proof (proj1 (center_check _ _) C) as C'. split; [| split].
              ** right. split; [exact A |]. split; [reflexivity |].
                 now exists teacher.
              ** reflexivity.
              ** apply Find.
        -- split.
           ++ intros [H | (_ & _ & t' & Ft & _)]; [contradiction | discriminate].
           ++ destruct (Early 404 (str "Teacher not found"))
                as (E1 & E2 & E3);
                [simpl; tauto | discriminate | discriminate |].
              split; [exact E1 |]. split; [exact E2 |].
              split; [apply Find |]. split; [| exact E3].
              intros _ H. contradiction.
        -- pose proof (@classroomFailure_wellFormed
                         (Response RagScores RagSegment) e) as W.
           split; [| split; [| split; [| split; [| split]]]].
           ++ intros [H | (_ & _ & t' & Ft & _)]; [contradiction | discriminate].
           ++ eapply wellFormed_more; [| exact W]. simpl. tauto.
           ++ apply classroomFailure_failure.
           ++ apply Find.
           ++ intros _ H. contradiction.
           ++ intros [H _]. unfold wellFormed in W.
              destruct (@classroomFailure_failure
                          (Response RagScores RagSegment) e) as (m & P).
              rewrite P, H in W. destruct W as [W _]. simpl in W.
              repeat (destruct W as [W | W]; [discriminate |]). exact W.
      * split.
        -- intros [H | (_ & G' & _)]; [contradiction | discriminate].
        -- destruct (Early 400 (str "Teacher ID is required for admin uploads"))
             as (E1 & E2 & E3);
             [simpl; tauto | discriminate | discriminate |].
           split; [exact E1 |]. split; [exact E2 |].
           split; [apply Nil |]. split; [| exact E3].
           intros _ H. contradiction.
    + apply JS_eqb_neq in A. split.
      * intros [H | (H & _)]; contradiction.
      * destruct (Early 403 (str
          "Only teachers and admins can upload classroom recordings"))
          as (E1 & E2 & E3);
          [simpl; tauto | discriminate | discriminate |].
        split; [exact E1 |]. split; [exact E2 |].
        split; [apply Nil |]. split; [| exact E3].
        intros _ _. split; reflexivity.
Qed.

(** What the classroom handler answers, if it does, and for whom. *)
Lemma classroom_answer (req : ClassroomRequest) (fs : FS) :
  exists reply fs' steps,
    classroomWhisperUpload _ _ classify combineScores RAG_ENABLED
      findById transcribeFromFile unlinkThrows isValid cannotRead req fs
    = Some (reply, fs', steps)
    /\ (forall response, reply = Some response ->
          wellFormed [400; 403; 404; 500; 503; 504] response)
    /\ ((exists response o a u c r,
           reply = Some response /\ payload response = Processed o a u c r) <->
        mayUpload findById req
        /\ exists transcript,
             transcribed transcribeFromFile (c_file req) fs transcript
             /\ ~ rejectsNullish classify RAG_ENABLED transcript)
    /\ (forall response o a u c r,
          reply = Some response ->
          payload response = Processed o a u c r ->
          o = asObjectId isValid (ownerOf req)
          /\ u = orElse (u_name (c_user req)) (str "Unknown")
          /\ c = (if given (c_center req) then c_center req else None)
          /\ exists f transcript log,
               c_file req = Some f /\ a = filename f
               /\ transcribeFromFile f = Transcribed transcript
               /\ classroomWhisperController _ _ (seen _ _ classify)
                    combineScores RAG_ENABLED transcript = Some (r, log)
               /\ In (SScoring log) steps)
    /\ (reply = None <->
        mayUpload findById req
        /\ rejectedIllegibly transcribeFromFile (c_file req) fs).
Proof.
  unfold classroomWhisperUpload. pose proof (decideTeacher_spec req) as D.
  destruct (decideTeacher RagScores RagSegment findById req)
    as [[teacherId | early] steps].
  - destruct D as (May & Own & Only).
    destruct (c_file req) as [file |] eqn:Fi.
    + destruct (existsSync fs (path file)) eqn:Ex; cbn [negb].
      * destruct (transcribeFromFile file) as [transcript | v] eqn:Tr.
        -- unfold classroomWhisperController.
           destruct (scoreTranscript_cases false false false transcript)
             as [(RN & S) | (NRN & result & log & S0 & S)]; rewrite S.
           ++ rewrite classroomCatch_eq.
              destruct (@classroomFailure_failure (Response RagScores RagSegment)
                          (mkError (cannotRead (str "message")))) as (m & P).
              eexists _, _, _. split; [reflexivity |].
              split; [| split; [| split]].
              ** intros response E. injection E as <-.
                 eapply wellFormed_more; [| apply classroomFailure_wellFormed].
                 simpl. tauto.
              ** split.
                 --- intros H. now apply (failure_not_processed _ _ P) in H.
                 --- intros (_ & tr & (f & Ff & _ & Ft) & N).
                     injection Ff as <-. rewrite Tr in Ft. injection Ft as <-.
                     contradiction.
              ** intros response o a u c r E Q. injection E as <-. congruence.
              ** split; [discriminate |].
                 intros (_ & f & v & Ff & _ & Ft & _). congruence.
           ++ destruct (cleanUp unlinkThrows fs (path file)) as [fs' cleaned].
              eexists _, _, _. split; [reflexivity |].
              split; [| split; [| split]].
              ** intros response E. injection E as <-. reflexivity.
              ** split.
                 --- intros _. split; [exact May |]. exists transcript.
                     split; [| exact NRN]. exists file. repeat split; assumption.
                 --- intros _. eexists _, _, _, _, _, _.
                     split; reflexivity.
              ** intros response o a u c r E Q. injection E as <-.
                 injection Q as <- <- <- <- <-.
                 split; [now rewrite Own |]. split; [reflexivity |].
                 split; [reflexivity |]. exists file, transcript, log.
                 repeat split; try assumption; try reflexivity.
                 apply in_or_app. right. right. right. now left.
              ** split; [discriminate |].
                 intros (_ & f & v & Ff & _ & Ft & _). congruence.
        -- rewrite classroomCatch_eq.
           eexists _, _, _. split; [reflexivity |].
           split; [| split; [| split]].
           ++ intros response E. destruct v as [e | |]; try discriminate E.
              injection E as <-.
              eapply wellFormed_more; [| apply classroomFailure_wellFormed].
              simpl. tauto.
           ++ split.
              ** intros (response & o & a & u & c & r & E & Q).
                 destruct v as [e | |]; try discriminate E. injection E as <-.
                 destruct (@classroomFailure_failure
                             (Response RagScores RagSegment) e) as (m & P).
                 congruence.
              ** intros (_ & tr & (f & Ff & _ & Ft) & _). congruence.
           ++ intros response o a u c r E Q.
              destruct v as [e | |]; try discriminate E. injection E as <-.
              destruct (@classroomFailure_failure
                          (Response RagScores RagSegment) e) as (m & P).
              congruence.
           ++ split.
              ** intros E. split; [exact May |]. exists file, v.
                 repeat split; try assumption. now destruct v.
              ** intros (_ & f & v' & Ff & _ & Ft & L).
                 injection Ff as <-. rewrite Tr in Ft. injection Ft as <-.
                 now destruct v.
      * eexists _, _, _. split; [reflexivity |].
        split; [| split; [| split]].
        -- intros response E. injection E as <-.
           apply wellFormed_failure; [simpl; tauto | discriminate].
        -- split.
           ++ intros (response & o & a & u & c & r & E & Q).
           injection E as <-. discriminate Q.
           ++ intros (_ & tr & (f & Ff & Fe & _) & _). congruence.
        -- intros response o a u c r E Q. injection E as <-. discriminate.
        -- split; [discriminate |].
           intros (_ & f & v & Ff & Fe & _). congruence.
    + eexists _, _, _. split; [reflexivity |].
      split; [| split; [| split]].
      * intros response E. injection E as <-.
        apply wellFormed_failure; [simpl; tauto | discriminate].
      * split.
        -- intros (response & o & a & u & c & r & E & Q).
           injection E as <-. discriminate Q.
        -- intros (_ & tr & (f & Ff & _) & _). discriminate.
      * intros response o a u c r E Q. injection E as <-. discriminate.
      * split; [discriminate |]. intros (_ & f & v & Ff & _). discriminate.
  - destruct D as (NotMay & W & (m & P) & Only & R & _).
    eexists _, _, _. split; [reflexivity |].
    split; [| split; [| split]].
    + intros response E. now injection E as <-.
    + split; [| tauto].
      intros H. now apply (failure_not_processed _ _ P) in H.
    + intros response o a u c r E Q. injection E as <-. congruence.
    + split; [discriminate | tauto].
Qed.

(** X7.  The classroom handler answers with status 200 exactly when
    the user may upload - a teacher, or an admin who names an existing
    teacher, of the chosen center if one is chosen -, the uploaded
    file is on disk, the service transcribes it, and the classifier,
    if it is called, does not reject with null or undefined (reading
    the message of such a rejection throws, and the answer is a
    failure).  The answer then names the teacher the upload is for,
    as an ObjectId where the id is valid as one, the file, the
    uploader ([Unknown] without a name) and the center, and carries
    the scoring of the transcript, also when there is no
    transcript. *)
Theorem X7_classroom_upload_accepted_exactly_when_allowed
    (req : ClassroomRequest) (fs : FS) :
  exists reply fs' steps,
    classroomWhisperUpload _ _ classify combineScores RAG_ENABLED
      findById transcribeFromFile unlinkThrows isValid cannotRead req fs
    = Some (reply, fs', steps)
    /\ ((exists response, reply = Some response /\ status response = 200) <->
        mayUpload findById req
        /\ exists transcript,
             transcribed transcribeFromFile (c_file req) fs transcript
             /\ ~ rejectsNullish classify RAG_ENABLED transcript)
    /\ (forall response,
          reply = Some response -> status response = 200 ->
          exists f transcript result log,
            c_file req = Some f
            /\ transcribeFromFile f = Transcribed transcript
            /\ classroomWhisperController _ _ (seen _ _ classify)
                 combineScores RAG_ENABLED transcript = Some (result, log)
            /\ payload response
               = Processed (asObjectId isValid (ownerOf req)) (filename f)
                   (orElse (u_name (c_user req)) (str "Unknown"))
                   (if given (c_center req) then c_center req else None)
                   result
            /\ In (SScoring log) steps).
Proof.
  destruct (classroom_answer req fs)
    as (reply & fs' & steps & E & W & Acc & Res & _).
  exists reply, fs', steps. split; [exact E |].
  assert (St : forall response, reply = Some response ->
               (status response = 200 <->
                exists o a u c r, payload response = Processed o a u c r)).
  { intros response R. apply (wellFormed_status _ _ (W _ R)). simpl. intros H.
    repeat (destruct H as [H | H]; [discriminate |]). exact H. }
  split.
  - rewrite <- Acc. split.
    + intros (response & R & S). apply (St _ R) in S.
      destruct S as (o & a & u & c & r & P). now exists response, o, a, u, c, r.
    + intros (response & o & a & u & c & r & R & P). exists response.
      split; [exact R |]. apply (St _ R). now exists o, a, u, c, r.
  - intros response R S. apply (St _ R) in S.
    destruct S as (o & a & u & c & r & P).
    destruct (Res _ o a u c r R P)
      as (-> & -> & -> & f & tr & log & F & -> & T & S & I).
    now exists f, tr, r, log.
Qed.

(** X8.  A user who may not upload is refused before anything happens
    to the recording: the answer is a failure with one of the statuses
    400, 403, 404, 500, 503 and 504, the disk is as it was, and the
    only thing done was, at most, to look the teacher up.  Whoever is
    neither teacher nor admin gets 403 and nothing is done at all. *)
Theorem X8_classroom_upload_refused_before_transcription
    (req : ClassroomRequest) (fs : FS) :
  ~ mayUpload findById req ->
  exists response steps,
    classroomWhisperUpload _ _ classify combineScores RAG_ENABLED
      findById transcribeFromFile unlinkThrows isValid cannotRead req fs
    = Some (Some response, fs, steps)
    /\ In (status response) [400; 403; 404; 500; 503; 504]
    /\ (exists m, payload response = Failure m /\ m <> [])
    /\ onlyLooksUp (orEmpty (c_teacherId req)) steps
    /\ (u_role (c_user req) <> str "teacher" ->
        u_role (c_user req) <> str "admin" ->
        status response = 403 /\ steps = []).
Proof.
  intros N. unfold classroomWhisperUpload.
  pose proof (decideTeacher_spec req) as D.
  destruct (decideTeacher RagScores RagSegment findById req)
    as [[teacherId | early] steps].
  - destruct D as (May & _). contradiction.
  - destruct D as (_ & W & (m & P) & Only & R & _).
    exists early, steps. split; [reflexivity |].
    unfold wellFormed in W. rewrite P in W. destruct W as (W1 & W2).
    split; [exact W1 |]. split; [now exists m |].
    split; [exact Only | exact R].
Qed.

(** X9.  The classroom handler creates no file and removes none but
    the upload.  Once it has asked for the transcription it deletes
    the upload, whether the request then succeeds or fails, unless
    [unlinkSync] throws; every other file stays.  If it never asked
    for the transcription the disk is as it was. *)
Theorem X9_classroom_upload_tidies_up (req : ClassroomRequest) (fs : FS) :
  exists reply fs' steps,
    classroomWhisperUpload _ _ classify combineScores RAG_ENABLED
      findById transcribeFromFile unlinkThrows isValid cannotRead req fs
    = Some (reply, fs', steps)
    /\ tidiesUp unlinkThrows (c_file req) fs fs' steps
    /\ ((exists f, In (STranscribe f) steps) <->
        mayUpload findById req
        /\ exists f, c_file req = Some f /\ existsSync fs (path f) = true).
Proof.
  unfold classroomWhisperUpload. pose proof (decideTeacher_spec req) as D.
  destruct (decideTeacher RagScores RagSegment findById req)
    as [[teacherId | early] steps].
  - destruct D as (May & _ & Only).
    pose proof (onlyLooksUp_quiet _ _ Only) as NoT.
    destruct (c_file req) as [file |] eqn:Fi.
    + destruct (existsSync fs (path file)) eqn:Ex; cbn [negb].
      * assert (Asked : forall more,
                  (exists f, In (STranscribe f)
                               ((steps ++ [SGetConfig])
                                ++ STranscribe file :: more)) <->
                  mayUpload findById req
                  /\ exists f, Some file = Some f
                               /\ existsSync fs (path f) = true).
        { intros more. split.
          - intros _. split; [exact May |]. now exists file.
          - intros _. exists file. apply in_or_app. right. now left. }
        pose proof (quiet_before _ NoT) as Q.
        destruct (transcribeFromFile file) as [transcript | v] eqn:Tr.
        -- unfold classroomWhisperController.
           destruct (scoreTranscript_cases false false false transcript)
             as [(RN & S) | (NRN & result & log & S0 & S)]; rewrite S.
           ++ rewrite classroomCatch_eq.
              eexists _, _, _. split; [reflexivity |].
              rewrite steps_shape. split; [| apply Asked].
              apply (tidiesUp_cleaned file fs _ [SScoring _] Q).
              apply quiet_scoring.
           ++ pose proof (tidiesUp_cleaned file fs _ [SScoring log] Q
                            (quiet_scoring log)) as T.
              destruct (cleanUp unlinkThrows fs (path file)) as [fs' cleaned].
              eexists _, _, _. split; [reflexivity |].
              rewrite steps_shape. split; [exact T | apply Asked].
        -- rewrite classroomCatch_eq.
           eexists _, _, _. split; [reflexivity |].
           rewrite steps_shape. split; [| apply Asked].
           apply (tidiesUp_cleaned file fs _ [] Q). intros f [].
      * eexists _, _, _. split; [reflexivity |].
        split; [now apply tidiesUp_unchanged |]. split.
        -- intros (f & H). now apply NoT in H.
        -- intros (_ & f & Ff & Fe). congruence.
    + eexists _, _, _. split; [reflexivity |].
      split; [now apply tidiesUp_unchanged |]. split.
      * intros (f & H). now apply NoT in H.
      * intros (_ & f & Ff & _). discriminate.
  - destruct D as (NotMay & _ & _ & Only & _ & _).
    pose proof (onlyLooksUp_quiet _ _ Only) as NoT.
    eexists _, _, _. split; [reflexivity |].
    split; [now apply tidiesUp_unchanged |]. split.
    + intros (f & H). now apply NoT in H.
    + tauto.
Qed.

(** X10.  An answer of the classroom handler is either the processed
    upload with status 200, or a failure whose status is one of 400,
    403, 404, 500, 503 and 504 and whose message is not empty, also
    when the error that was caught has an empty message.  The handler
    sends no answer in one case only: the user may upload, the file is
    on disk, and the transcription rejects with a value that has no
    string message, so that [error.message.includes] throws in the
    [catch] block; it always answers when what is thrown are Error
    objects. *)
Theorem X10_classroom_answers_are_well_formed
    (req : ClassroomRequest) (fs : FS) :
  exists reply fs' steps,
    classroomWhisperUpload _ _ classify combineScores RAG_ENABLED
      findById transcribeFromFile unlinkThrows isValid cannotRead req fs
    = Some (reply, fs', steps)
    /\ (forall response, reply = Some response ->
          wellFormed [400; 403; 404; 500; 503; 504] response)
    /\ (reply = None <->
        mayUpload findById req
        /\ rejectedIllegibly transcribeFromFile (c_file req) fs)
    /\ ((forall f v, transcribeFromFile f = TranscribeThrows v ->
           legible v = true) ->
        exists response,
          reply = Some response
          /\ wellFormed [400; 403; 404; 500; 503; 504] response).
Proof.
  destruct (classroom_answer req fs)
    as (reply & fs' & steps & E & W & _ & _ & NoAnswer).
  exists reply, fs', steps. split; [exact E |]. split; [exact W |].
  split; [exact NoAnswer |]. intros L.
  destruct reply as [response |]; [exists response; auto |].
  destruct (proj1 NoAnswer eq_refl) as (_ & f & v & _ & _ & T & I).
  apply L in T. congruence.
Qed.

(** X11.  The classroom handler checks who uploads before it looks for
    the file: a request without a file is answered with status 400 and
    the message that the audio file is required exactly when the user
    may upload, and never touches the disk or the transcription. *)
Theorem X11_missing_file_is_reported_to_those_who_may_upload
    (req : ClassroomRequest) (fs : FS) :
  c_file req = None ->
  exists response steps,
    classroomWhisperUpload _ _ classify combineScores RAG_ENABLED
      findById transcribeFromFile unlinkThrows isValid cannotRead req fs
    = Some (Some response, fs, steps)
    /\ onlyLooksUp (orEmpty (c_teacherId req)) steps
    /\ (status response = 400
        /\ payload response = Failure (str
             "Audio file is required. Please select an audio file to upload.")
        <-> mayUpload findById req).
Proof.
  intros Fi. unfold classroomWhisperUpload.
  pose proof (decideTeacher_spec req) as D.
  destruct (decideTeacher RagScores RagSegment findById req)
    as [[teacherId | early] steps].
  - destruct D as (May & _ & Only). rewrite Fi.
    eexists _, _. split; [reflexivity |]. split; [exact Only |].
    split; [intros _; exact May | intros _; split; reflexivity].
  - destruct D as (NotMay & _ & _ & Only & _ & Other).
    eexists _, _. split; [reflexivity |]. split; [exact Only |].
    split; [intros H; now apply Other in H | intros H; contradiction].
Qed.

End HandlerFacts.


(** An admin names a teacher that does not exist: the upload is
    refused and stays on disk. *)
Lemma X8_classroom_upload_refused_before_transcription_witness :
  let req :=
    mkClassroomRequest
      (mkUser (str "admin") (str "u1") (Some (str "Ada")))
      (Some (str "t9")) None
      (Some (mkFile (str "uploads/a.mp3") (str "a.mp3") (str "audio/mpeg"))) in
  ~ mayUpload (fun _ => NotFound) req
  /\ exists response steps,
       classroomWhisperUpload Scores Segment
         (fun _ => CThrows _ _
                     (AnError (mkError (str "embedding service unreachable"))))
         (fun _ keywordScores => keywordScores)
         (Some (str "true")) (fun _ => NotFound)
         (fun _ => Transcribed (Some (str "Once upon a time")))
         (fun _ => false) (fun _ => true)
         (fun _ => str "Cannot read properties of null")
         req [str "uploads/a.mp3"]
       = Some (Some response, [str "uploads/a.mp3"], steps)
       /\ In (status response) [400; 403; 404; 500; 503; 504]
       /\ (exists m, payload response = Failure m /\ m <> [])
       /\ onlyLooksUp (orEmpty (c_teacherId req)) steps
       /\ (u_role (c_user req) <> str "teacher" ->
           u_role (c_user req) <> str "admin" ->
           status response = 403 /\ steps = []).
Proof.
  intros req.
  assert (N : ~ mayUpload (fun _ => NotFound) req).
  { intros [H | (_ & _ & t & F & _)]; [vm_compute in H |]; discriminate. }
  split; [exact N |].
  exact (X8_classroom_upload_refused_before_transcription Scores Segment
           (fun _ => CThrows _ _
                       (AnError (mkError (str "embedding service unreachable"))))
           (fun _ keywordScores => keywordScores)
           (Some (str "true"))
           (fun _ => Transcribed (Some (str "Once upon a time")))
           (fun _ => false) (fun _ => str "Cannot read properties of null")
           (fun _ => NotFound) (fun _ => true)
           req [str "uploads/a.mp3"] N).
Defined.

(** A teacher sends the form without the recording. *)
Lemma X11_missing_file_is_reported_to_those_who_may_upload_witness :
  exists response steps,
    classroomWhisperUpload Scores Segment
      (fun _ => CThrows _ _
                  (AnError (mkError (str "embedding service unreachable"))))
      (fun _ keywordScores => keywordScores)
      (Some (str "true")) (fun _ => NotFound)
      (fun _ => Transcribed (Some (str "Once upon a time")))
      (fun _ => false) (fun _ => true)
      (fun _ => str "Cannot read properties of null")
      (mkClassroomRequest (mkUser (str "teacher") (str "t1") None)
         None None None)
      [str "uploads/a.mp3"]
    = Some (Some response, [str "uploads/a.mp3"], steps)
    /\ onlyLooksUp [] steps
    /\ (status response = 400
        /\ payload response = Failure (str
             "Audio file is required. Please select an audio file to upload.")
        <-> mayUpload (fun _ => NotFound)
              (mkClassroomRequest (mkUser (str "teacher") (str "t1") None)
                 None None None)).
Proof.
  exact (X11_missing_file_is_reported_to_those_who_may_upload Scores Segment
           (fun _ => CThrows _ _
                       (AnError (mkError (str "embedding service unreachable"))))
           (fun _ keywordScores => keywordScores)
           (Some (str "true"))
           (fun _ => Transcribed (Some (str "Once upon a time")))
           (fun _ => false) (fun _ => str "Cannot read properties of null")
           (fun _ => NotFound) (fun _ => true)
           (mkClassroomRequest (mkUser (str "teacher") (str "t1") None)
              None None None)
           [str "uploads/a.mp3"] eq_refl).
Defined.

(** A scorer that keeps the keyword scores keeps them in range. *)
Lemma X12_prepared_assessment_passes_schema_witness :
  exists resp log,
    classroomWhisperController Scores Segment
      (fun _ => Returns _ _ (mkRagResult _ _ (mkScores 40 0 0 0) None))
      (fun _ keywordScores => keywordScores)
      (Some (str "true")) (Some (str "Once upon a time"))
    = Some (resp, log)
    /\ passesSchema (r_assessment _ _ resp).
Proof.
  apply (X12_prepared_assessment_passes_schema Scores Segment
           (fun _ => Returns _ _ (mkRagResult _ _ (mkScores 40 0 0 0) None))
           (fun _ keywordScores => keywordScores)
           (Some (str "true")) (Some (str "Once upon a time"))).
  intros rs ks H. exact H.
Defined.

(** The two handlers on the same upload, transcribed to nothing: the
    classroom handler answers 200, the child handler 500, and both
    delete the file. *)
Example handlers_without_transcript :
  let file := mkFile (str "uploads/a.mp3") (str "a.mp3") (str "audio/mpeg") in
  let classify :=
    fun _ : JSString =>
      CThrows Scores Segment
        (AnError (mkError (str "embedding service unreachable"))) in
  let combine := fun (_ : Scores) (keywordScores : Scores) => keywordScores in
  let cannotRead := fun _ : JSString => str "Cannot read properties of null" in
  option_map (fun a => (option_map status (fst (fst a)), snd (fst a)))
    (classroomWhisperUpload Scores Segment classify combine None
       (fun _ => NotFound) (fun _ => Transcribed None) (fun _ => false)
       (fun _ => false) cannotRead
       (mkClassroomRequest (mkUser (str "teacher") (str "t1") None)
          None None (Some file))
       [str "uploads/a.mp3"; str "uploads/b.mp3"])
  = Some (Some 200, [str "uploads/b.mp3"])
  /\ option_map (fun a => (option_map status (fst (fst a)), snd (fst a)))
       (revaiUpload Scores Segment classify combine None
          (fun _ => Transcribed None) (fun _ => false) cannotRead
          (Healthy true)
          (mkChildRequest (Some (str "c1")) None (Some file))
          [str "uploads/a.mp3"; str "uploads/b.mp3"])
     = Some (Some 500, [str "uploads/b.mp3"]).
Proof. split; vm_compute; reflexivity. Qed.

(** The transcription rejects with a string: neither handler answers;
    the classroom handler has deleted the file by then, the child
    handler has not. *)
Example handlers_on_a_rejection_without_message :
  let file := mkFile (str "uploads/a.mp3") (str "a.mp3") (str "audio/mpeg") in
  let classify :=
    fun _ : JSString =>
      CThrows Scores Segment
        (AnError (mkError (str "embedding service unreachable"))) in
  let combine := fun (_ : Scores) (keywordScores : Scores) => keywordScores in
  let cannotRead := fun _ : JSString => str "Cannot read properties of null" in
  option_map (fun a => (option_map status (fst (fst a)), snd (fst a)))
    (classroomWhisperUpload Scores Segment classify combine None
       (fun _ => NotFound) (fun _ => TranscribeThrows Messageless)
       (fun _ => false) (fun _ => false) cannotRead
       (mkClassroomRequest (mkUser (str "teacher") (str "t1") None)
          None None (Some file))
       [str "uploads/a.mp3"; str "uploads/b.mp3"])
  = Some (None, [str "uploads/b.mp3"])
  /\ option_map (fun a => (option_map status (fst (fst a)), snd (fst a)))
       (revaiUpload Scores Segment classify combine None
          (fun _ => TranscribeThrows Messageless) (fun _ => false) cannotRead
          (Healthy true)
          (mkChildRequest (Some (str "c1")) None (Some file))
          [str "uploads/a.mp3"; str "uploads/b.mp3"])
     = Some (None, [str "uploads/a.mp3"; str "uploads/b.mp3"]).
Proof. split; vm_compute; reflexivity. Qed.

(** The classifier rejects with null: the classroom handler answers
    500 although the user may upload and the transcript is there. *)
Example classroom_upload_on_a_null_rejection :
  option_map (fun a => (option_map status (fst (fst a)), snd (fst a)))
    (classroomWhisperUpload Scores Segment
       (fun _ => CThrows _ _ Nullish)
       (fun _ keywordScores => keywordScores)
       (Some (str "true")) (fun _ => NotFound)
       (fun _ => Transcribed (Some (str "Once upon a time")))
       (fun _ => false) (fun _ => false)
       (fun _ => str "Cannot read properties of null")
       (mkClassroomRequest (mkUser (str "teacher") (str "t1") None)
          None None
          (Some (mkFile (str "uploads/a.mp3") (str "a.mp3") (str "audio/mpeg"))))
       [str "uploads/a.mp3"])
  = Some (Some 500, []).
Proof. vm_compute. reflexivity. Qed.

(** The health check of the service rejects with null: the child
    handler answers 500 and deletes the upload without having asked
    for the transcription. *)
Example child_upload_on_a_null_health_rejection :
  option_map (fun a => (option_map status (fst (fst a)), snd (fst a), snd a))
    (revaiUpload Scores Segment
       (fun _ => CThrows _ _ Nullish)
       (fun _ keywordScores => keywordScores)
       (Some (str "true"))
       (fun _ => Transcribed (Some (str "Once upon a time")))
       (fun _ => false)
       (fun _ => str "Cannot read properties of null")
       (HealthThrows Nullish)
       (mkChildRequest (Some (str "c1")) None
          (Some (mkFile (str "uploads/a.mp3") (str "a.mp3") (str "audio/mpeg"))))
       [str "uploads/a.mp3"])
  = Some (Some 500, [], [SGetConfig; SIsHealthy; SUnlink (str "uploads/a.mp3")]).
Proof. vm_compute. reflexivity. Qed.
